(** * Zenith Memory server: bucket and document store

    A shallow embedding of the Express server of the repository (the
    [app.post], [app.get], [app.put] and [app.delete] handlers over the three
    in-memory objects [users], [buckets] and [databases]) and the
    properties of its storage engine and authorisation model.

    The handlers are plain JavaScript over plain objects, so the file starts
    with the part of the JavaScript runtime they rely on: property lookup
    through [Object.prototype], property order, truthiness, [JSON.stringify]
    and [Array.prototype.slice].  The handlers follow, then the properties. *)

From Stdlib Require Import List String Ascii ZArith NArith Lia Bool Arith.
From Stdlib Require Import DecimalString Permutation.
Import ListNotations.

Set Implicit Arguments.
Set Warnings "-register-all".

Local Open Scope string_scope.

(* ===================================================================== *)
(** * The JavaScript runtime, as far as the server uses it *)
(* ===================================================================== *)

Module Js.

(** JavaScript strings are sequences of UTF-16 code units.  A [string] here
    is the UTF-8 encoding of a JavaScript string, one [ascii] per byte, as
    it travels in a request or a response; it stands for a string without
    lone surrogates.  Two strings are equal when their encodings are, and
    [String.length] is the length in bytes. *)

(** [s.length]: the number of UTF-16 code units.  A code point up to U+FFFF
    is one unit and one to three bytes, of which all but the first are
    continuation bytes (128 to 191); a code point above is two units and
    four bytes, the first of them 240 or more. *)
Fixpoint utf16_length (s : string) : nat :=
  match s with
  | EmptyString => 0
  | String c r =>
      let b := nat_of_ascii c in
      (if (b <? 128)%nat then 1
       else if (b <? 192)%nat then 0
       else if (b <? 240)%nat then 1
       else 2) + utf16_length r
  end.

(** A string of ASCII characters only *)
Fixpoint ascii_only (s : string) : bool :=
  match s with
  | EmptyString => true
  | String c r => (nat_of_ascii c <? 128)%nat && ascii_only r
  end.

(** Numbers are restricted to the integers that print in plain decimal
    notation ([Number::toString] without exponent or fraction). *)
Definition number_to_string (n : Z) : string :=
  NilZero.string_of_int (Z.to_int n).

(** ** Ordinary objects

    An ordinary object created by [{}] has own properties, kept in creation
    order, and [Object.prototype] as prototype.  [Dict V] is the list of own
    enumerable string-keyed properties whose values are in [V], oldest
    first. *)

Definition Dict (V : Type) := list (string * V).

(** The properties every ordinary object inherits from [Object.prototype].
    All of them hold a function, except [__proto__], an accessor that
    returns the prototype itself; all of these values are truthy. *)
Definition object_prototype_names : list string :=
  [ "constructor"; "__defineGetter__"; "__defineSetter__"; "hasOwnProperty";
    "__lookupGetter__"; "__lookupSetter__"; "isPrototypeOf";
    "propertyIsEnumerable"; "toString"; "valueOf"; "__proto__";
    "toLocaleString" ].

Definition inherited (k : string) : bool :=
  existsb (String.eqb k) object_prototype_names.

(** An array index is the canonical decimal form of an integer from 0 to
    2^32 - 2.  Properties with such keys are enumerated first, in ascending
    numeric order, whenever they were created. *)
Definition array_index (k : string) : option N :=
  match NilZero.uint_of_string k with
  | Some d =>
      let n := N.of_uint d in
      if (NilZero.string_of_uint (N.to_uint n) =? k) && (n <? 4294967295)%N
      then Some n else None
  | None => None
  end.

Section Objects.
Context {V : Type}.

(** [o.hasOwnProperty(k)], with the value *)
Fixpoint own (d : Dict V) (k : string) : option V :=
  match d with
  | [] => None
  | (k', v) :: r => if k' =? k then Some v else own r k
  end.

(** Define or overwrite the own property [k]: an existing property keeps
    its place in the order, a new one goes last. *)
Fixpoint put (d : Dict V) (k : string) (v : V) : Dict V :=
  match d with
  | [] => [(k, v)]
  | (k', v') :: r => if k' =? k then (k, v) :: r else (k', v') :: put r k v
  end.

(** [delete o[k]] *)
Definition remove (d : Dict V) (k : string) : Dict V :=
  filter (fun kv => negb (fst kv =? k)) d.

Fixpoint insert_by_index (n : N) (kv : string * V)
         (l : list (N * (string * V))) : list (N * (string * V)) :=
  match l with
  | [] => [(n, kv)]
  | (m, kv') :: r =>
      if (n <=? m)%N then (n, kv) :: l else (m, kv') :: insert_by_index n kv r
  end.

Definition indexed (d : Dict V) : list (N * (string * V)) :=
  fold_right (fun kv acc =>
                match array_index (fst kv) with
                | Some n => insert_by_index n kv acc
                | None => acc
                end) [] d.

Definition named (d : Dict V) : Dict V :=
  filter (fun kv => match array_index (fst kv) with
                    | Some _ => false
                    | None => true
                    end) d.

(** [Object.entries(o)]: array indices in ascending order, then the other
    keys in creation order. *)
Definition entries (d : Dict V) : list (string * V) :=
  map snd (indexed d) ++ named d.

(** [Object.keys(o)] and [Object.values(o)] *)
Definition keys (d : Dict V) : list string := map fst (entries d).
Definition values (d : Dict V) : list V := map snd (entries d).

(** The result of reading [o[k]] on an object without a prototype of its
    own making: an own property, a member of [Object.prototype], or
    [undefined]. *)
Inductive Lookup : Type :=
| Own (v : V)
| Inherited
| Undefined.

Definition get (d : Dict V) (k : string) : Lookup :=
  match own d k with
  | Some v => Own v
  | None => if inherited k then Inherited else Undefined
  end.

(** Truthiness of [o[k]]: stored values are objects, the members of
    [Object.prototype] are functions or objects. *)
Definition truthy (l : Lookup) : bool :=
  match l with
  | Own _ | Inherited => true
  | Undefined => false
  end.

(** [o[k] = v].  Assigning to [__proto__] runs the setter inherited from
    [Object.prototype]: it replaces the prototype of [o] and defines no
    property.  [None] stands for that case, which [Dict] cannot record. *)
Definition assign (d : Dict V) (k : string) (v : V) : option (Dict V) :=
  if k =? "__proto__" then None else Some (put d k v).

End Objects.

Arguments Lookup : clear implicits.

(** [a.slice(0, e)] for an integer [e]: a negative [e] counts from the end. *)
Definition slice0 {A : Type} (a : list A) (e : Z) : list A :=
  let len := Z.of_nat (List.length a) in
  let final := if (e <? 0)%Z then Z.max (len + e) 0 else Z.min e len in
  firstn (Z.to_nat final) a.

(** ** JSON values

    What [JSON.parse] returns for a request body.  The fields of an object
    are its own properties, in creation order and with distinct keys. *)

Inductive JSON : Type :=
| JNull
| JBool (b : bool)
| JNum (n : Z)
| JStr (s : string)
| JArr (elements : list JSON)
| JObj (fields : Dict JSON).

Definition json_truthy (j : JSON) : bool :=
  match j with
  | JNull => false
  | JBool b => b
  | JNum n => negb (n =? 0)%Z
  | JStr s => negb (s =? "")
  | JArr _ | JObj _ => true
  end.

(** The double quote, code unit 34 *)
Definition dquote : ascii := ascii_of_nat 34.

Definition hex_digit (n : nat) : ascii :=
  nth n (list_ascii_of_string "0123456789abcdef") "0"%char.

(** [QuoteJSONString] on one byte: the characters it escapes are ASCII, the
    bytes of any other character stay as they are. *)
Definition quote_char (c : ascii) : string :=
  let n := nat_of_ascii c in
  if (n =? 34)%nat then String "\"%char (String dquote "")
  else if (n =? 92)%nat then "\\"
  else if (n =? 8)%nat then "\b"
  else if (n =? 9)%nat then "\t"
  else if (n =? 10)%nat then "\n"
  else if (n =? 12)%nat then "\f"
  else if (n =? 13)%nat then "\r"
  else if (n <? 32)%nat
       then "\u00" ++ String (hex_digit (n / 16)) (String (hex_digit (n mod 16)) "")
  else String c "".

Fixpoint quote_body (s : string) : string :=
  match s with
  | EmptyString => ""
  | String c r => quote_char c ++ quote_body r
  end.

Definition quote (s : string) : string :=
  String dquote (quote_body s ++ String dquote "").

Fixpoint join (sep : string) (l : list string) : string :=
  match l with
  | [] => ""
  | [x] => x
  | x :: r => x ++ sep ++ join sep r
  end.

(** [JSON.stringify(j)] without indentation.  Object members come out in
    property order. *)
Fixpoint stringify (j : JSON) : string :=
  match j with
  | JNull => "null"
  | JBool true => "true"
  | JBool false => "false"
  | JNum n => number_to_string n
  | JStr s => quote s
  | JArr l => "[" ++ join "," (map stringify l) ++ "]"
  | JObj fs =>
      "{" ++ join ","
               (map (fun kv => quote (fst kv) ++ ":" ++ snd kv)
                    (entries (map (fun kv => (fst kv, stringify (snd kv))) fs)))
          ++ "}"
  end.

(** [Number.isSafeInteger]: up to 2^53 - 1 in absolute value.  These
    are the integers whose decimal digits [Number::toString] prints as
    they are. *)
Definition safe_integer (n : Z) : bool := (Z.abs n <=? 9007199254740991)%Z.

(** How the conversion of a value to a string ends: with the string, with
    a [TypeError], or on a number that is no safe integer, whose digits
    are not followed here. *)
Inductive Converted : Type :=
| Key (s : string)
| TypeError
| Unprinted.

Definition throws (c : Converted) : bool :=
  match c with
  | TypeError => true
  | _ => false
  end.

Fixpoint all_printed (l : list Converted) : option (list string) :=
  match l with
  | [] => Some []
  | Key s :: r => option_map (cons s) (all_printed r)
  | _ :: _ => None
  end.

(** [Array.prototype.join] over the converted elements: an element whose
    conversion throws ends the whole in that exception. *)
Definition join_converted (sep : string) (l : list Converted) : Converted :=
  if existsb throws l then TypeError
  else match all_printed l with
       | Some pieces => Key (join sep pieces)
       | None => Unprinted
       end.

(** [ToString] on a JSON value, as applied to a computed property key.
    An object is converted by [OrdinaryToPrimitive]: it reads [toString]
    and then [valueOf].  An object that [JSON.parse] made has
    [Object.prototype.toString] there, which answers [[object Object]],
    unless it has a member of its own named [toString]: such a member is
    no function, and [valueOf], its own or the inherited one, gives no
    primitive either, so that the conversion throws.  An array is joined
    with commas, [null] elements as the empty string. *)
Fixpoint to_string (j : JSON) : Converted :=
  match j with
  | JNull => Key "null"
  | JBool true => Key "true"
  | JBool false => Key "false"
  | JNum n => if safe_integer n then Key (number_to_string n) else Unprinted
  | JStr s => Key s
  | JArr l =>
      join_converted "," (map (fun e => match e with
                                        | JNull => Key ""
                                        | _ => to_string e
                                        end) l)
  | JObj fs =>
      match own fs "toString" with
      | Some _ => TypeError
      | None => Key "[object Object]"
      end
  end.

(** A property key computed from a value that may be [undefined] *)
Definition to_property_key (j : option JSON) : Converted :=
  match j with
  | Some v => to_string v
  | None => Key "undefined"
  end.

(** [v.k] for a parsed JSON value [v] that is not [null] and a name [k]
    that no built-in prototype defines: only objects have such a
    property. *)
Definition json_field (v : JSON) (k : string) : option JSON :=
  match v with
  | JObj fs => own fs k
  | _ => None
  end.

End Js.

(* ===================================================================== *)
(** * The server *)
(* ===================================================================== *)

Module Server.
Import Js.

(** Scope.  A request body is a JSON value whose numbers are integers; the
    fields [email], [password], [name], [durability] and [region] are
    strings where they are present, and [topK] is an integer where it is
    present.  Reading and checking the token is the work of the
    [authenticateToken] middleware and the [jsonwebtoken] package: a
    handler behind the middleware starts from [req.userId]. *)

(** A [Date]: milliseconds since the epoch. *)
Definition Time := Z.

(** A result of [Math.random()], a multiple of 2^-53 below 1, given by its
    numerator. *)
Definition Score := N.

(** What the handlers take from outside the program: the clock, the [uuid]
    package and the random number generator.  [now k] is the value of the
    [k]-th evaluation of [new Date()] since the server started, and likewise
    for the other two. *)
Record Env : Type := {
  now : nat -> Time;
  uuidv4 : nat -> string;
  random : nat -> Score
}.

(** ** The three stores *)

(** A value of [users] *)
Record User : Type := {
  userId : string;
  email : string;
  password : string;
  user_name : string;
  user_createdAt : Time
}.

(** A value of [buckets] *)
Record Bucket : Type := {
  bucketId : string;
  name : string;
  owner : string;
  durability : string;
  region : string;
  bucket_createdAt : Time;
  itemCount : nat
}.

(** A value of [databases[bucketId]] *)
Record Item : Type := {
  data : JSON;
  createdAt : Time;
  updatedAt : Time;
  size : nat
}.

(** [databases[bucketId]]: its own properties and, once a request has
    assigned to the path [__proto__], the item that assignment installed as
    the prototype of the object, in place of [Object.prototype]. *)
Record Docs : Type := {
  props : Dict Item;
  proto : option Item
}.

Definition empty_docs : Docs := {| props := []; proto := None |}.

(** The program state: the three global objects, and how many times the
    clock, the uuid generator and the random generator were used. *)
Record World : Type := {
  users : Dict User;
  buckets : Dict Bucket;
  databases : Dict Docs;
  dates : nat;
  uuids : nat;
  randoms : nat
}.

(** The state at start-up: [const databases = {}; const buckets = {};
    const users = {};] *)
Definition init : World :=
  {| users := []; buckets := []; databases := [];
     dates := 0; uuids := 0; randoms := 0 |}.

(** ** Values read out of a documents object *)

(** What [databases[bucketId][path]] and the fields read from it can be. *)
Inductive Value : Type :=
| VUndefined
| VJson (j : JSON)
| VDate (t : Time)
| VNumber (n : nat)
| VItem (i : Item)
| VBuiltin.

Definition value_truthy (v : Value) : bool :=
  match v with
  | VUndefined => false
  | VJson j => json_truthy j
  | VNumber n => negb (n =? 0)%nat
  | VDate _ | VItem _ | VBuiltin => true
  end.

(** The own properties of an item object *)
Definition item_field (i : Item) (k : string) : option Value :=
  if k =? "data" then Some (VJson (data i))
  else if k =? "createdAt" then Some (VDate (createdAt i))
  else if k =? "updatedAt" then Some (VDate (updatedAt i))
  else if k =? "size" then Some (VNumber (size i))
  else None.

Definition builtin_or_undefined (k : string) : Value :=
  if inherited k then VBuiltin else VUndefined.

(** [docs[path]]: own properties first, then the prototype chain. *)
Definition docs_get (docs : Docs) (path : string) : Value :=
  match own (props docs) path with
  | Some i => VItem i
  | None =>
      match proto docs with
      | Some i =>
          if path =? "__proto__" then VItem i
          else match item_field i path with
               | Some v => v
               | None => builtin_or_undefined path
               end
      | None => builtin_or_undefined path
      end
  end.

(** [docs[path] = item]: an own property is overwritten; otherwise the path
    [__proto__] reaches the setter of [Object.prototype], which makes
    [item] the prototype, and any other path becomes a new property. *)
Definition docs_assign (docs : Docs) (path : string) (item : Item) : Docs :=
  match own (props docs) path with
  | None =>
      if path =? "__proto__"
      then {| props := props docs; proto := Some item |}
      else {| props := put (props docs) path item; proto := proto docs |}
  | Some _ => {| props := put (props docs) path item; proto := proto docs |}
  end.

(** [delete docs[path]] *)
Definition docs_delete (docs : Docs) (path : string) : Docs :=
  {| props := remove (props docs) path; proto := proto docs |}.

(** [v.k] for one of the names [data], [createdAt], [updatedAt], [size],
    on a truthy value [v]. *)
Definition value_field (v : Value) (k : string) : Value :=
  match v with
  | VItem i => match item_field i k with Some x => x | None => VUndefined end
  | VJson j => match json_field j k with Some x => VJson x | None => VUndefined end
  | _ => VUndefined
  end.

(** ** Requests and responses *)

(** The payload signed into a token; signature and expiry are left to the
    [jsonwebtoken] package. *)
Record Token : Type := {
  token_userId : string;
  token_email : string
}.

(** An element of [items] in the response of the list handler *)
Record ItemInfo : Type := {
  info_path : string;
  info_size : nat;
  info_createdAt : Time;
  info_updatedAt : Time
}.

(** An element of [results] in the response of the search handler *)
Record Hit : Type := {
  hit_path : string;
  hit_data : JSON;
  hit_score : Score
}.

(** An element of [results] in the response of the batch handler *)
Record BatchEntry : Type := {
  entry_path : option JSON;
  entry_status : string
}.

Record Stats : Type := {
  bucketsCount : nat;
  totalItems : nat;
  latency_draw : Score;
  regions : list string
}.

Inductive Response : Type :=
| Err (status : nat) (error : string)
| Uncaught
| OutsideModel
| Registered (userId email : string) (token : Token)
| LoggedIn (userId email : string) (token : Token)
| BucketCreated (bucketId name : string)
| BucketList (buckets : list Bucket)
| Stored (bucketId path : string) (timestamp : Time)
| Fetched (path : string) (data createdAt updatedAt size : Value)
| Deleted
| ItemList (bucketId : string) (itemCount : nat) (items : list ItemInfo)
| SearchResults (query : option JSON) (results : list Hit)
| BatchResults (results : list BatchEntry) (written : nat)
| StatsOk (stats : Stats)
| Healthy (timestamp : Time).

(** The HTTP status of a response.  An exception that leaves a handler is
    answered by Express with 500; [OutsideModel] is no answer of the server
    (see [assign]) and gets 0. *)
Definition status_of (r : Response) : nat :=
  match r with
  | Err s _ => s
  | Uncaught => 500
  | OutsideModel => 0
  | Registered _ _ _ | BucketCreated _ _ => 201
  | _ => 200
  end.

Definition succeeded (r : Response) : bool :=
  ((200 <=? status_of r) && (status_of r <? 300))%nat.

(** The error kinds of the specification *)
Definition BadRequest (r : Response) : Prop := status_of r = 400.
Definition Unauthorized (r : Response) : Prop := status_of r = 401.
Definition Forbidden (r : Response) : Prop := status_of r = 403.
Definition NotFound (r : Response) : Prop := status_of r = 404.
Definition Conflict (r : Response) : Prop := status_of r = 409.

(** A string field of a request body, absent or present: its truthiness,
    and [field || fallback]. *)
Definition given (s : option string) : bool :=
  match s with
  | Some t => negb (t =? "")
  | None => false
  end.

Definition or_else (s : option string) (fallback : string) : string :=
  match s with
  | Some t => if t =? "" then fallback else t
  | None => fallback
  end.

(** ** The handlers

    Every handler takes the state and what it reads from the request, and
    returns the state it leaves and the response it sends.  The handlers
    behind [authenticateToken] take [req.userId], the principal the token
    was issued to. *)

Section Handlers.
Variable env : Env.

(** [app.post('/api/auth/register')] *)
Definition register (w : World) (email password name : option string)
  : World * Response :=
  if negb (given email) || negb (given password)
  then (w, Err 400 "Email and password required")
  else
    let email := or_else email "" in
    let password := or_else password "" in
    if truthy (get (users w) email)
    then (w, Err 409 "User already exists")
    else
      let userId := uuidv4 env (uuids w) in
      let user := {| userId := userId;
                     email := email;
                     password := password;
                     user_name := or_else name "User";
                     user_createdAt := now env (dates w) |} in
      match assign (users w) email user with
      | Some us =>
          ({| users := us; buckets := buckets w; databases := databases w;
              dates := S (dates w); uuids := S (uuids w);
              randoms := randoms w |},
           Registered userId email
                      {| token_userId := userId; token_email := email |})
      | None => (w, OutsideModel)
      end.

(** [app.post('/api/auth/login')].  [user.password] is [undefined] when
    [users[email]] is a member of [Object.prototype], and differs from
    every string. *)
Definition login (w : World) (email password : option string)
  : World * Response :=
  if negb (given email) || negb (given password)
  then (w, Err 400 "Email and password required")
  else
    let email := or_else email "" in
    let password := or_else password "" in
    match get (users w) email with
    | Own user =>
        if negb (Server.password user =? password)
        then (w, Err 401 "Invalid credentials")
        else (w, LoggedIn (userId user) email
                          {| token_userId := userId user;
                             token_email := email |})
    | Inherited | Undefined => (w, Err 401 "Invalid credentials")
    end.

(** [app.post('/api/buckets')] *)
Definition create_bucket (w : World) (user : string)
           (name durability region : option string) : World * Response :=
  if negb (given name)
  then (w, Err 400 "Bucket name required")
  else
    let name := or_else name "" in
    let bucketId := uuidv4 env (uuids w) in
    let bucket := {| bucketId := bucketId;
                     name := name;
                     owner := user;
                     durability := or_else durability "standard";
                     region := or_else region "us-east-1";
                     bucket_createdAt := now env (dates w);
                     itemCount := 0 |} in
    match assign (buckets w) bucketId bucket,
          assign (databases w) bucketId empty_docs with
    | Some bs, Some dbs =>
        ({| users := users w; buckets := bs; databases := dbs;
            dates := S (dates w); uuids := S (uuids w);
            randoms := randoms w |},
         BucketCreated bucketId name)
    | _, _ => (w, OutsideModel)
    end.

(** [Object.values(buckets).filter(b => b.owner === req.userId)] *)
Definition user_buckets (w : World) (user : string) : list Bucket :=
  filter (fun b => owner b =? user) (values (buckets w)).

(** [app.get('/api/buckets')] *)
Definition list_buckets (w : World) (user : string) : World * Response :=
  (w, BucketList (user_buckets w user)).

(** The two guards that open every handler under
    [/api/buckets/:bucketId/]:
    [if (!buckets[bucketId]) return 404] and
    [if (buckets[bucketId].owner !== req.userId) return 403].
    The [owner] of a member of [Object.prototype] is [undefined].
    [None] lets the request through. *)
Definition access (w : World) (user bucketId : string) : option Response :=
  match get (buckets w) bucketId with
  | Undefined => Some (Err 404 "Bucket not found")
  | Inherited => Some (Err 403 "Access denied")
  | Own bucket =>
      if negb (owner bucket =? user)
      then Some (Err 403 "Access denied")
      else None
  end.

(** [if (!databases[bucketId]) databases[bucketId] = {}] *)
Definition ensure_docs (dbs : Dict Docs) (bucketId : string)
  : option (Dict Docs) :=
  if truthy (get dbs bucketId) then Some dbs
  else assign dbs bucketId empty_docs.

(** [databases[bucketId][path] = item], where [databases[bucketId]] is
    truthy.  [None] when that object is a member of [Object.prototype],
    which has no place in the state. *)
Definition store (dbs : Dict Docs) (bucketId path : string) (item : Item)
  : option (Dict Docs) :=
  match get dbs bucketId with
  | Own docs => Some (put dbs bucketId (docs_assign docs path item))
  | Inherited | Undefined => None
  end.

(** [buckets[bucketId].itemCount = Object.keys(databases[bucketId]).length],
    where both lookups find own properties. *)
Definition recount (bs : Dict Bucket) (dbs : Dict Docs) (bucketId : string)
  : Dict Bucket :=
  match own bs bucketId, own dbs bucketId with
  | Some b, Some docs =>
      put bs bucketId
          {| bucketId := Server.bucketId b; name := name b;
             owner := owner b; durability := durability b;
             region := region b; bucket_createdAt := bucket_createdAt b;
             itemCount := List.length (keys (props docs)) |}
  | _, _ => bs
  end.

(** The object literal [{ data, createdAt: new Date(), updatedAt: new
    Date(), size: JSON.stringify(data).length }], with the clock read
    [read] times before. *)
Definition new_item (read : nat) (body : JSON) : Item :=
  {| data := body;
     createdAt := now env read;
     updatedAt := now env (S read);
     size := utf16_length (stringify body) |}.

(** [app.put('/api/buckets/:bucketId/data/*')] *)
Definition put_data (w : World) (user bucketId path : string) (body : JSON)
  : World * Response :=
  match access w user bucketId with
  | Some refusal => (w, refusal)
  | None =>
      match ensure_docs (databases w) bucketId with
      | None => (w, OutsideModel)
      | Some dbs =>
          match store dbs bucketId path (new_item (dates w) body) with
          | None => (w, OutsideModel)
          | Some dbs' =>
              ({| users := users w;
                  buckets := recount (buckets w) dbs' bucketId;
                  databases := dbs';
                  dates := 3 + dates w; uuids := uuids w;
                  randoms := randoms w |},
               Stored bucketId path (now env (2 + dates w)))
          end
      end
  end.

(** [app.get('/api/buckets/:bucketId/data/*')], with
    [item = databases[bucketId] && databases[bucketId][path]] *)
Definition get_data (w : World) (user bucketId path : string)
  : World * Response :=
  match access w user bucketId with
  | Some refusal => (w, refusal)
  | None =>
      match get (databases w) bucketId with
      | Inherited => (w, OutsideModel)
      | Undefined => (w, Err 404 "Data not found")
      | Own docs =>
          let item := docs_get docs path in
          if negb (value_truthy item)
          then (w, Err 404 "Data not found")
          else (w, Fetched path
                           (value_field item "data")
                           (value_field item "createdAt")
                           (value_field item "updatedAt")
                           (value_field item "size"))
      end
  end.

(** [app.delete('/api/buckets/:bucketId/data/*')] *)
Definition delete_data (w : World) (user bucketId path : string)
  : World * Response :=
  match access w user bucketId with
  | Some refusal => (w, refusal)
  | None =>
      match get (databases w) bucketId with
      | Inherited => (w, OutsideModel)
      | Undefined => (w, Err 404 "Data not found")
      | Own docs =>
          if negb (value_truthy (docs_get docs path))
          then (w, Err 404 "Data not found")
          else
            let dbs' := put (databases w) bucketId (docs_delete docs path) in
            ({| users := users w;
                buckets := recount (buckets w) dbs' bucketId;
                databases := dbs';
                dates := dates w; uuids := uuids w; randoms := randoms w |},
             Deleted)
      end
  end.

Definition item_info (kv : string * Item) : ItemInfo :=
  {| info_path := fst kv;
     info_size := size (snd kv);
     info_createdAt := createdAt (snd kv);
     info_updatedAt := updatedAt (snd kv) |}.

(** [app.get('/api/buckets/:bucketId/items')] *)
Definition list_items (w : World) (user bucketId : string)
  : World * Response :=
  match access w user bucketId with
  | Some refusal => (w, refusal)
  | None =>
      match get (databases w) bucketId with
      | Inherited => (w, OutsideModel)
      | Undefined => (w, ItemList bucketId 0 [])
      | Own docs =>
          let items := map item_info (entries (props docs)) in
          (w, ItemList bucketId (List.length items) items)
      end
  end.

(** [.map(([key, value]) => ({ path: key, data: value.data, score:
    Math.random() }))], with the generator used [drawn] times before. *)
Fixpoint hits (drawn : nat) (l : list (string * Item)) : list Hit :=
  match l with
  | [] => []
  | (key, value) :: r =>
      {| hit_path := key; hit_data := data value;
         hit_score := random env drawn |} :: hits (S drawn) r
  end.

(** [topK || 10], for a [topK] that is an integer or absent *)
Definition top_or_10 (topK : option Z) : Z :=
  match topK with
  | Some k => if (k =? 0)%Z then 10%Z else k
  | None => 10%Z
  end.

(** [app.post('/api/buckets/:bucketId/vector-search')] *)
Definition vector_search (w : World) (user bucketId : string)
           (query : option JSON) (topK : option Z) : World * Response :=
  match access w user bucketId with
  | Some refusal => (w, refusal)
  | None =>
      match get (databases w) bucketId with
      | Inherited => (w, OutsideModel)
      | Undefined => (w, SearchResults query [])
      | Own docs =>
          let items := hits (randoms w)
                            (slice0 (entries (props docs)) (top_or_10 topK)) in
          ({| users := users w; buckets := buckets w;
              databases := databases w;
              dates := dates w; uuids := uuids w;
              randoms := List.length items + randoms w |},
           SearchResults query items)
      end
  end.

(** How the callback of [items.map] over the whole array ends: with the
    array of results, with an exception, or on something that is not
    followed here: an object that has no place in the state (see
    [store]) or a key that is not printed (see [to_string]). *)
Inductive Outcome : Type :=
| Written (results : list BatchEntry)
| Threw
| Lost.

(** [items.map(item => { const { path, data } = item;
    databases[bucketId][path] = { data, createdAt: new Date(), updatedAt:
    new Date(), size: JSON.stringify(data).length };
    return { path, status: 'success' }; })].
    Destructuring [null] throws; [JSON.stringify(undefined)] is
    [undefined], whose [length] throws once both dates are made; and the
    conversion of [path] to a property key, which Node makes once the
    right-hand side is evaluated, throws for a path that cannot be
    converted.  The stores are left as they are at that moment. *)
Fixpoint write_items (dbs : Dict Docs) (read : nat) (bucketId : string)
         (items : list JSON) : Dict Docs * nat * Outcome :=
  match items with
  | [] => (dbs, read, Written [])
  | item :: rest =>
      match item with
      | JNull => (dbs, read, Threw)
      | _ =>
          let path := json_field item "path" in
          match json_field item "data" with
          | None => (dbs, 2 + read, Threw)
          | Some body =>
              match to_property_key path with
              | TypeError => (dbs, 2 + read, Threw)
              | Unprinted => (dbs, 2 + read, Lost)
              | Key key =>
                  match store dbs bucketId key (new_item read body) with
                  | None => (dbs, 2 + read, Lost)
                  | Some dbs' =>
                      match write_items dbs' (2 + read) bucketId rest with
                      | (dbs'', read', Written results) =>
                          (dbs'', read',
                           Written ({| entry_path := path;
                                       entry_status := "success" |} :: results))
                      | stopped => stopped
                      end
                  end
              end
          end
      end
  end.

(** [app.post('/api/buckets/:bucketId/batch-write')].  [items] is the
    field of that name of the request body, if any. *)
Definition batch_write (w : World) (user bucketId : string)
           (items : option JSON) : World * Response :=
  match access w user bucketId with
  | Some refusal => (w, refusal)
  | None =>
      match items with
      | Some (JArr l) =>
          match ensure_docs (databases w) bucketId with
          | None => (w, OutsideModel)
          | Some dbs =>
              match write_items dbs (dates w) bucketId l with
              | (dbs', read, Written results) =>
                  ({| users := users w;
                      buckets := recount (buckets w) dbs' bucketId;
                      databases := dbs';
                      dates := read; uuids := uuids w;
                      randoms := randoms w |},
                   BatchResults results (List.length l))
              | (dbs', read, Threw) =>
                  ({| users := users w; buckets := buckets w;
                      databases := dbs';
                      dates := read; uuids := uuids w;
                      randoms := randoms w |},
                   Uncaught)
              | (_, _, Lost) => (w, OutsideModel)
              end
          end
      | _ => (w, Err 400 "Items must be an array")
      end
  end.

(** [app.get('/api/stats')]; the latency is the draw times 5. *)
Definition stats (w : World) (user : string) : World * Response :=
  let userBuckets := user_buckets w user in
  ({| users := users w; buckets := buckets w; databases := databases w;
      dates := dates w; uuids := uuids w; randoms := S (randoms w) |},
   StatsOk {| bucketsCount := List.length userBuckets;
              totalItems := fold_left (fun sum b => sum + itemCount b)
                                      userBuckets 0;
              latency_draw := random env (randoms w);
              regions := map region userBuckets |}).

(** [app.get('/api/health')] *)
Definition health (w : World) : World * Response :=
  ({| users := users w; buckets := buckets w; databases := databases w;
      dates := S (dates w); uuids := uuids w; randoms := randoms w |},
   Healthy (now env (dates w))).

(** ** Requests *)

Inductive Request : Type :=
| Register (email password name : option string)
| Login (email password : option string)
| CreateBucket (user : string) (name durability region : option string)
| ListBuckets (user : string)
| PutData (user bucketId path : string) (body : JSON)
| GetData (user bucketId path : string)
| DeleteData (user bucketId path : string)
| ListItems (user bucketId : string)
| VectorSearch (user bucketId : string) (query : option JSON)
               (topK : option Z)
| BatchWrite (user bucketId : string) (items : option JSON)
| GetStats (user : string)
| Health.

Definition handle (w : World) (r : Request) : World * Response :=
  match r with
  | Register e p n => register w e p n
  | Login e p => login w e p
  | CreateBucket u n d r => create_bucket w u n d r
  | ListBuckets u => list_buckets w u
  | PutData u b p body => put_data w u b p body
  | GetData u b p => get_data w u b p
  | DeleteData u b p => delete_data w u b p
  | ListItems u b => list_items w u b
  | VectorSearch u b q k => vector_search w u b q k
  | BatchWrite u b items => batch_write w u b items
  | GetStats u => stats w u
  | Health => health w
  end.

(** The requests of a list served one after the other: the final state
    and the responses, in order. *)
Fixpoint serve (w : World) (rs : list Request) : World * list Response :=
  match rs with
  | [] => (w, [])
  | r :: rest =>
      let (w1, answer) := handle w r in
      let (w2, answers) := serve w1 rest in
      (w2, answer :: answers)
  end.

End Handlers.

End Server.

(* ===================================================================== *)
(** * The middleware and the routes *)
(* ===================================================================== *)

Module Gateway.
Import Js Server.

(** [s.split(sep)] for a separator of one character: the pieces between
    the separators, at least one. *)
Fixpoint split_on (sep : ascii) (s : string) : list string :=
  match s with
  | EmptyString => [""]
  | String c r =>
      if Ascii.eqb c sep then "" :: split_on sep r
      else match split_on sep r with
           | first :: others => String c first :: others
           | [] => [String c ""]
           end
  end.

(** [authHeader && authHeader.split(' ')[1]], for the value of the
    [authorization] header, if the request has one *)
Definition bearer_token (authorization : option string) : option string :=
  match authorization with
  | None => None
  | Some h => if h =? "" then Some "" else nth_error (split_on " " h) 1
  end.

(** [authenticateToken].  [verify t] is what [jwt.verify(t, JWT_SECRET)]
    returns at the time of the request: the payload of [t], or nothing
    where it throws (a token that is malformed, expired or not signed
    with the secret).  The result is the response that ends the request,
    or [req.userId] for the handler that [next()] calls. *)
Definition authenticateToken (verify : string -> option Token)
           (authorization : option string) : Response + string :=
  let token := bearer_token authorization in
  if negb (given token)
  then inl (Err 401 "No token provided")
  else match verify (or_else token "") with
       | Some decoded => inr (token_userId decoded)
       | None => inl (Err 403 "Invalid token")
       end.

(** The routes of the server, each with what its handler reads from the
    request *)
Inductive Call : Type :=
| PostRegister (email password name : option string)
| PostLogin (email password : option string)
| PostBuckets (name durability region : option string)
| GetBuckets
| PutDataAt (bucketId path : string) (body : JSON)
| GetDataAt (bucketId path : string)
| DeleteDataAt (bucketId path : string)
| GetItems (bucketId : string)
| PostVectorSearch (bucketId : string) (query : option JSON) (topK : option Z)
| PostBatchWrite (bucketId : string) (items : option JSON)
| GetStatsOf
| GetHealth.

(** The routes registered with [authenticateToken] before the handler *)
Definition protected (c : Call) : bool :=
  match c with
  | PostRegister _ _ _ | PostLogin _ _ | GetHealth => false
  | _ => true
  end.

(** The request the handler serves once [req.userId] is [user] *)
Definition as_user (user : string) (c : Call) : Request :=
  match c with
  | PostRegister e p n => Register e p n
  | PostLogin e p => Login e p
  | PostBuckets n d r => CreateBucket user n d r
  | GetBuckets => ListBuckets user
  | PutDataAt b p body => PutData user b p body
  | GetDataAt b p => GetData user b p
  | DeleteDataAt b p => DeleteData user b p
  | GetItems b => ListItems user b
  | PostVectorSearch b q k => VectorSearch user b q k
  | PostBatchWrite b items => BatchWrite user b items
  | GetStatsOf => GetStats user
  | GetHealth => Health
  end.

(** A request through its route: [app.METHOD(path, authenticateToken,
    handler)], or [app.METHOD(path, handler)] for the three open routes. *)
Definition route (verify : string -> option Token) (env : Env) (w : World)
           (authorization : option string) (c : Call) : World * Response :=
  if protected c
  then match authenticateToken verify authorization with
       | inl refusal => (w, refusal)
       | inr user => handle env w (as_user user c)
       end
  else handle env w (as_user "" c).

End Gateway.

(* ===================================================================== *)
(** * The client library *)
(* ===================================================================== *)

Module Sdk.
Import Js Server.

(** The credentials a [ZMClient] holds *)
Record Client : Type := {
  apiKey : option string;
  jwt : option string
}.

(** [new ZMClient(options)], where [env_key] is
    [process.env.ZENITH_API_KEY] *)
Definition new_client (option_apiKey option_jwt env_key : option string)
  : Client :=
  {| apiKey := if given option_apiKey then option_apiKey else env_key;
     jwt := option_jwt |}.

(** [getHeaders()['Authorization']] *)
Definition authorization (c : Client) : option string :=
  if given (jwt c) then Some ("Bearer " ++ or_else (jwt c) "")
  else if given (apiKey c) then Some ("Bearer " ++ or_else (apiKey c) "")
  else None.

(** The request that [createBucket(name, options)] sends: [durability:
    options.durability || 'standard', region: options.region ||
    'us-east-1'] *)
Definition createBucket (name durability region : option string)
  : Gateway.Call :=
  Gateway.PostBuckets name (Some (or_else durability "standard"))
                      (Some (or_else region "us-east-1")).

(** The request that [vectorQuery(bucketId, options)] sends: [query:
    options.query, topK: options.topK || 10] *)
Definition vectorQuery (bucketId : string) (query : option JSON)
           (topK : option Z) : Gateway.Call :=
  Gateway.PostVectorSearch bucketId query (Some (top_or_10 topK)).

(** The client after [register] or [login] got [answer]: [if
    (response.token) this.jwt = response.token].  [sign] is the string
    that [jwt.sign] made of the payload; an answer with a status from 400
    on rejects the request before the assignment. *)
Definition authenticated (sign : Token -> string) (c : Client)
           (answer : Response) : Client :=
  match answer with
  | Registered _ _ t | LoggedIn _ _ t =>
      if given (Some (sign t))
      then {| apiKey := apiKey c; jwt := Some (sign t) |}
      else c
  | _ => c
  end.

(** A character that every step from the client to the handler passes
    on as it is ([url.parse], the request line, the route, the decoding
    of the parameters): a letter, a digit, or one of [-], [_] and [/]. *)
Definition plain_char (c : ascii) : bool :=
  let n := nat_of_ascii c in
  ((48 <=? n) && (n <=? 57) || (65 <=? n) && (n <=? 90) ||
   (97 <=? n) && (n <=? 122) || (n =? 45) || (n =? 95) || (n =? 47))%nat.

Definition plain (s : string) : bool :=
  forallb plain_char (list_ascii_of_string s).

(** Where the endpoint [`/buckets/${bucketId}/data${path}`] of [put],
    [get] and [delete] arrives, for the identifier of a bucket, which is
    a uuid: at the route [/api/buckets/:bucketId/data/*] when [path]
    starts with a slash, [req.params[0]] being what follows that slash;
    at no route otherwise.  A path with another character than the plain
    ones is not followed. *)
Inductive Routed : Type :=
| Bound (wildcard : string)
| NoRoute
| Unfollowed.

Definition data_route (path : string) : Routed :=
  if plain path
  then match path with
       | String "/" rest => Bound rest
       | _ => NoRoute
       end
  else Unfollowed.

(** How a promise of the client ends *)
Inductive Settled : Type :=
| Resolved (v : Value)
| Rejected
| NotFollowed.

(** [get(bucketId, path)]: [const response = await this.request('GET',
    ...); return response.data].  [read wildcard] is the answer of the
    server to the read of [wildcard] in the bucket.  [request] rejects
    when the status is 400 or more, and when the body is no JSON, as the
    page is that Express answers where no route matches. *)
Definition get (read : string -> Response) (path : string) : Settled :=
  match data_route path with
  | Bound wildcard =>
      match read wildcard with
      | Fetched _ d _ _ _ => Resolved d
      | Err _ _ | Uncaught => Rejected
      | _ => NotFollowed
      end
  | NoRoute => Rejected
  | Unfollowed => NotFollowed
  end.

End Sdk.

(* ===================================================================== *)
(** * The example application *)
(* ===================================================================== *)

Module App.
Import Js Server.

(** [`/users/${userId}`], the path under which [createUser] puts the
    profile of a user, and [getUser] gets it *)
Definition userPath (userId : string) : string := "/users/" ++ userId.

(** [getUser(userId)]: [const result = await this.client.get(this.bucketId,
    userPath); return result.data].  Reading a member of [undefined] or
    of [null] throws, which rejects the promise. *)
Definition getUser (read : string -> Response) (userId : string)
  : Sdk.Settled :=
  match Sdk.get read (userPath userId) with
  | Sdk.Resolved VUndefined | Sdk.Resolved (VJson JNull) => Sdk.Rejected
  | Sdk.Resolved result => Sdk.Resolved (value_field result "data")
  | Sdk.Rejected => Sdk.Rejected
  | Sdk.NotFollowed => Sdk.NotFollowed
  end.

End App.

(* ===================================================================== *)
(** * The vocabulary of the properties *)
(* ===================================================================== *)

Import Js Server.

(** A refusal: one of the error kinds by which a handler turns a request
    down. *)
Definition refusal (a : Response) : Prop :=
  BadRequest a \/ Unauthorized a \/ Forbidden a \/ NotFound a \/ Conflict a.

(** Bucket [b] exists, is owned by [u], and [docs] is its documents
    object. *)
Definition has_bucket (w : World) (u b : string) (docs : Docs) : Prop :=
  (exists bucket, own (buckets w) b = Some bucket /\ owner bucket = u) /\
  own (databases w) b = Some docs.

(** The bookkeeping of bucket [b] is right: its record and its documents
    object exist, and [itemCount] is the number of own keys of the
    documents object. *)
Definition counted_in (bs : Dict Bucket) (dbs : Dict Docs) (b : string) : Prop :=
  exists bucket docs,
    own bs b = Some bucket /\ own dbs b = Some docs /\
    itemCount bucket = List.length (keys (props docs)).

Definition counted (w : World) (b : string) : Prop :=
  counted_in (buckets w) (databases w) b.

(** The identifiers of the buckets that the requests [rs], answered by
    [answers], created for principal [P], oldest first. *)
Fixpoint created_by (P : string) (rs : list Request) (answers : list Response)
  : list string :=
  match rs, answers with
  | r :: rs', a :: answers' =>
      match r, a with
      | CreateBucket u _ _ _, BucketCreated b _ =>
          if u =? P then b :: created_by P rs' answers'
          else created_by P rs' answers'
      | _, _ => created_by P rs' answers'
      end
  | _, _ => []
  end.

(** What the [uuid] package promises of the first [n] identifiers it
    hands out: they differ from each other, and each has the shape of a
    uuid, which is neither an array index nor the name of a member of
    [Object.prototype]. *)
Definition uuid_like (id : string) : Prop :=
  array_index id = None /\ inherited id = false.

Definition usable_ids (env : Env) (n : nat) : Prop :=
  NoDup (map (uuidv4 env) (seq 0 n)) /\
  Forall uuid_like (map (uuidv4 env) (seq 0 n)).

(** Key, [bucketId] and [owner] of each bucket, in property order *)
Definition outline (bs : Dict Bucket) : list (string * string * string) :=
  map (fun kv => (fst kv, bucketId (snd kv), owner (snd kv))) bs.

(** The property key under which the callback of the batch handler
    stores an item *)
Definition key_of (item : JSON) : Converted :=
  to_property_key (json_field item "path").

(** An element of [items] that the callback can write: not [null], with
    a [data] property, and with a [path] whose conversion to a property
    key does not throw. *)
Definition writable (item : JSON) : bool :=
  match item with
  | JNull => false
  | _ => match json_field item "data" with
         | Some _ => negb (throws (key_of item))
         | None => false
         end
  end.

(** An element of [items] whose key is printed: its [path] holds no
    number that is not a safe integer (see [to_string]). *)
Definition printed (item : JSON) : bool :=
  match key_of item with
  | Unprinted => false
  | _ => true
  end.

(** A request whose keys are printed *)
Definition followed (r : Request) : bool :=
  match r with
  | BatchWrite _ _ (Some (JArr items)) => forallb printed items
  | _ => true
  end.

(** The items before the first that cannot be written *)
Fixpoint leading_writable (items : list JSON) : list JSON :=
  match items with
  | [] => []
  | item :: rest => if writable item then item :: leading_writable rest else []
  end.

(** The single write of one item into a documents object, the clock read
    [read] times before: the assignment that the write handler makes. *)
Definition write_one (env : Env) (read : nat) (docs : Docs) (item : JSON) : Docs :=
  match json_field item "data", key_of item with
  | Some body, Key key => docs_assign docs key (new_item env read body)
  | _, _ => docs
  end.

(** The single writes of a list of items, one after the other, in the
    order of the list *)
Fixpoint write_each (env : Env) (read : nat) (docs : Docs) (items : list JSON)
  : Docs :=
  match items with
  | [] => docs
  | item :: rest => write_each env (2 + read) (write_one env read docs item) rest
  end.

Definition success_entry (item : JSON) : BatchEntry :=
  {| entry_path := json_field item "path"; entry_status := "success" |}.

(** Every bucket has its documents object. *)
Definition aligned (w : World) : Prop :=
  forall b, own (buckets w) b <> None -> own (databases w) b <> None.

(** Every bucket sits under an identifier already handed out, which is
    also its [bucketId], and the buckets of [P] are [L], in property
    order. *)
Definition registry_ok (env : Env) (P : string) (w : World) (L : list string) : Prop :=
  Forall (fun t => (exists i, i < uuids w /\ fst (fst t) = uuidv4 env i) /\
                   snd (fst t) = fst (fst t))
         (outline (buckets w)) /\
  map (fun t => fst (fst t)) (filter (fun t => snd t =? P) (outline (buckets w))) = L.

(** The bucket that a request names in its path, if it names one *)
Definition addressed (r : Request) : option string :=
  match r with
  | PutData _ b _ _ | GetData _ b _ | DeleteData _ b _ | ListItems _ b
  | VectorSearch _ b _ _ | BatchWrite _ b _ => Some b
  | _ => None
  end.

(** The requests whose handlers assign to none of the three stores *)
Definition reads_only (r : Request) : bool :=
  match r with
  | Login _ _ | ListBuckets _ | GetData _ _ _ | ListItems _ _
  | VectorSearch _ _ _ _ | GetStats _ | Health => true
  | _ => false
  end.

(** Two states hold the same users, buckets and documents. *)
Definition same_stores (w w' : World) : Prop :=
  users w' = users w /\ buckets w' = buckets w /\ databases w' = databases w.

(** No key occurs twice among the own properties. *)
Definition distinct_keys {V : Type} (d : Dict V) : Prop := NoDup (map fst d).

(** An item as a write makes it, at some reading of the clock and for
    some payload *)
Definition stamped (env : Env) (i : Item) : Prop :=
  exists read body, i = new_item env read body.

(** The number of items the list handler answers to [u] for bucket [b] *)
Definition listed (w : World) (u b : string) : nat :=
  match snd (list_items w u b) with
  | ItemList _ n _ => n
  | _ => 0
  end.

(** A string without a space *)
Fixpoint has_no_space (s : string) : bool :=
  match s with
  | EmptyString => true
  | String c r => negb (Ascii.eqb c " ") && has_no_space r
  end.

(** Every bucket of a state is counted (see [counted]). *)
Definition all_counted (w : World) : Prop :=
  forall b, own (buckets w) b <> None -> counted w b.

(** Two records of a bucket that differ at most in [itemCount] *)
Definition same_record (x y : Bucket) : Prop :=
  bucketId x = bucketId y /\ name x = name y /\ owner x = owner y /\
  durability x = durability y /\ region x = region y /\
  bucket_createdAt x = bucket_createdAt y.

(** The identifiers in use: those of the users, then those of the
    buckets. *)
Definition ids_in_use (w : World) : list string :=
  map (fun kv => userId (snd kv)) (users w) ++ map fst (buckets w).

(* ===================================================================== *)
(** * A run of the server *)
(* ===================================================================== *)

Module Demo.

Definition ids : list string :=
  [ "1b4e28ba-2fa1-4d3b-a3f5-ef19b5a7633b";
    "6fa459ea-ee8a-4ca4-894e-db77e160355e";
    "16fd2706-8baf-433b-82eb-8c7fada847da";
    "886313e1-3b8a-4372-9b90-0c9aee199e5d";
    "a8098c1a-f86e-41da-8b5c-3f2b1c4d5e6f";
    "e4eaaaf2-d142-41b5-9c1d-272f4a1e0b7c" ].

(** A clock that advances by a millisecond at every reading, the uuids
    above in turn, and draws 0, 1, 2, ... *)
Definition env : Env :=
  {| now := fun k => (1700000000000 + Z.of_nat k)%Z;
     uuidv4 := fun k => nth k ids "00000000-0000-4000-8000-000000000000";
     random := fun k => N.of_nat k |}.

(** Alice registers and creates the bucket [notes]. *)
Definition alice : string := "1b4e28ba-2fa1-4d3b-a3f5-ef19b5a7633b".
Definition notes : string := "6fa459ea-ee8a-4ca4-894e-db77e160355e".

Definition registered : World :=
  fst (register env init (Some "a@x.com") (Some "pw") (Some "A")).

Definition started : World :=
  fst (create_bucket env registered alice (Some "b1") None None).

(** One document in [notes] *)
Definition stocked : World :=
  fst (put_data env started alice notes "/u/1" (JObj [("n", JNum 1)])).

(** The same path written again *)
Definition restocked : World :=
  fst (put_data env stocked alice notes "/u/1" (JObj [("n", JNum 2)])).

(** A payload with a character outside ASCII: the object with the one
    member [a], whose value is the string of the one letter e with an acute
    accent, U+00E9, the bytes 195 and 169 in UTF-8 *)
Definition accented : JSON :=
  JObj [("a", JStr (String (ascii_of_nat 195) (String (ascii_of_nat 169) "")))].

Definition accented_stored : World :=
  fst (put_data env started alice notes "/a" accented).

(** A batch whose second item has no [data] *)
Definition broken_batch : list JSON :=
  [ JObj [("path", JStr "/a"); ("data", JNum 1)];
    JObj [("path", JStr "/b")] ].

Definition sound_batch : list JSON :=
  [ JObj [("path", JStr "/a"); ("data", JNum 1)];
    JObj [("path", JStr "/b"); ("data", JNum 2)] ].

(** A batch whose second item has a path that cannot be converted to a
    property key: an object with a member named [toString] *)
Definition unkeyed_batch : list JSON :=
  [ JObj [("path", JStr "/a"); ("data", JNum 1)];
    JObj [("path", JObj [("toString", JNum 1)]); ("data", JNum 2)] ].

(** Requests on [notes] that all succeed *)
Definition traffic : list Request :=
  [ PutData alice notes "/u/1" (JObj [("n", JNum 1)]);
    BatchWrite alice notes (Some (JArr sound_batch));
    DeleteData alice notes "/u/1";
    PutData alice notes "7" (JStr "seven") ].

Definition busy : World := fst (serve env started traffic).

(** A run from start-up in which two principals create buckets in turn *)
Definition bob : string := "16fd2706-8baf-433b-82eb-8c7fada847da".

Definition history : list Request :=
  [ Register (Some "a@x.com") (Some "pw") (Some "A");
    CreateBucket alice (Some "b1") None None;
    Register (Some "b@x.com") (Some "pw") None;
    CreateBucket bob (Some "b2") None None;
    CreateBucket alice (Some "b3") (Some "absolute") None;
    PutData alice notes "/u/1" (JNum 1) ].

End Demo.

(** A verifier and two clients for the run above *)
Module Trial.

(** The token issued to Alice is accepted, and no other. *)
Definition token : string := "eyJhbGciOiJIUzI1NiJ9.YWxpY2U.c2ln".

Definition verify (t : string) : option Token :=
  if t =? token
  then Some {| token_userId := Demo.alice; token_email := "a@x.com" |}
  else None.

(** A client that holds Alice's token besides an API key, and one that
    holds an API key only *)
Definition signed_in : Sdk.Client :=
  {| Sdk.apiKey := Some "zm-key-1"; Sdk.jwt := Some token |}.

Definition keyed : Sdk.Client := Sdk.new_client (Some "zm-key-1") None None.

(** The state after [Demo.history], and the bucket that Bob created in
    it *)
Definition shared : World := fst (serve Demo.env init Demo.history).

Definition ledger : string := "886313e1-3b8a-4372-9b90-0c9aee199e5d".

(** A profile as the example application stores it *)
Definition profile : Dict JSON :=
  [ ("id", JStr "alice"); ("firstName", JStr "Alice");
    ("email", JStr "alice@example.com"); ("status", JStr "active") ].

(** A signing function that answers the one token the verifier accepts *)
Definition sign (t : Token) : string := token.

(** The state after the batch that throws on its second item *)
Definition behind : World :=
  fst (batch_write Demo.env Demo.started Demo.alice Demo.notes
                   (Some (JArr Demo.broken_batch))).

End Trial.

(* ===================================================================== *)
(** * Properties of objects *)
(* ===================================================================== *)

Local Open Scope list_scope.

(** On ASCII the two lengths of a string agree. *)
Lemma utf16_length_ascii (s : string) :
  ascii_only s = true -> utf16_length s = String.length s.
Proof.
  induction s as [|c r IH]; simpl; [reflexivity|].
  destruct (nat_of_ascii c <? 128)%nat; simpl; [|discriminate].
  intros H. now rewrite IH.
Qed.

Section DictFacts.
Context {V : Type}.
Implicit Types (d : Dict V) (k : string) (v : V).

Lemma own_put_same d k v : own (put d k v) k = Some v.
Proof.
  induction d as [|[k' v'] d IH]; simpl.
  - now rewrite String.eqb_refl.
  - destruct (k' =? k) eqn:E; simpl.
    + now rewrite String.eqb_refl.
    + now rewrite E.
Qed.

Lemma own_put_other d k k' v : k <> k' -> own (put d k v) k' = own d k'.
Proof.
  intros Hne. induction d as [|[k0 v0] d IH]; simpl.
  - destruct (k =? k') eqn:E; [apply String.eqb_eq in E; contradiction|reflexivity].
  - destruct (k0 =? k) eqn:E; simpl.
    + apply String.eqb_eq in E. subst k0.
      destruct (k =? k') eqn:E'; [apply String.eqb_eq in E'; contradiction|reflexivity].
    + destruct (k0 =? k'); [reflexivity|exact IH].
Qed.

Lemma own_remove_same d k : own (remove d k) k = None.
Proof.
  unfold remove. induction d as [|[k' v'] d IH]; simpl; [reflexivity|].
  destruct (k' =? k) eqn:E; simpl; [exact IH|].
  now rewrite E.
Qed.

Lemma own_remove_other d k k' : k <> k' -> own (remove d k) k' = own d k'.
Proof.
  intros Hne. unfold remove. induction d as [|[k0 v0] d IH]; simpl; [reflexivity|].
  destruct (k0 =? k) eqn:E; simpl.
  - apply String.eqb_eq in E. subst k0.
    destruct (k =? k') eqn:E'; [apply String.eqb_eq in E'; contradiction|exact IH].
  - destruct (k0 =? k'); [reflexivity|exact IH].
Qed.

Lemma own_In d k v : own d k = Some v -> In (k, v) d.
Proof.
  induction d as [|[k' v'] d IH]; simpl; [discriminate|].
  destruct (k' =? k) eqn:E.
  - apply String.eqb_eq in E. intros [= ->]. left. now subst.
  - intros H. right. auto.
Qed.

Lemma own_None_not_key d k : own d k = None -> ~ In k (map fst d).
Proof.
  induction d as [|[k' v'] d IH]; simpl; [tauto|].
  destruct (k' =? k) eqn:E; [discriminate|].
  apply String.eqb_neq in E. intros H [H'|H']; [contradiction|]. now apply IH.
Qed.

Lemma not_key_own_None d k : ~ In k (map fst d) -> own d k = None.
Proof.
  induction d as [|[k' v'] d IH]; simpl; [reflexivity|].
  intros H. destruct (k' =? k) eqn:E.
  - apply String.eqb_eq in E. tauto.
  - apply IH. tauto.
Qed.

(** A new property goes last. *)
Lemma put_fresh d k v : own d k = None -> put d k v = d ++ [(k, v)].
Proof.
  induction d as [|[k' v'] d IH]; simpl; [reflexivity|].
  destruct (k' =? k); [discriminate|]. intros H. now rewrite IH.
Qed.

(** Overwriting a property leaves the order of the keys alone. *)
Lemma put_keeps_keys d k v v0 :
  own d k = Some v0 -> map fst (put d k v) = map fst d.
Proof.
  induction d as [|[k' v'] d IH]; simpl; [discriminate|].
  destruct (k' =? k) eqn:E; simpl.
  - apply String.eqb_eq in E. now subst.
  - intros H. now rewrite IH.
Qed.

Lemma get_Own d k v : get d k = Own v <-> own d k = Some v.
Proof.
  unfold get. destruct (own d k); [|destruct (inherited k)];
    split; intros H; try discriminate; congruence.
Qed.

Lemma get_put_same d k v : get (put d k v) k = Own v.
Proof. apply get_Own, own_put_same. Qed.

Lemma get_put_other d k k' v : k <> k' -> get (put d k v) k' = get d k'.
Proof. intros H. unfold get. now rewrite own_put_other. Qed.

Lemma In_insert_by_index n kv (l : list (N * (string * V))) x :
  In x (insert_by_index n kv l) -> x = (n, kv) \/ In x l.
Proof.
  induction l as [|[m kv'] l IH]; simpl.
  - intros [H|[]]; auto.
  - destruct (n <=? m)%N; simpl; intros [H|H]; auto.
    destruct (IH H); auto.
Qed.

Lemma In_indexed d x : In x (indexed d) -> In (snd x) d.
Proof.
  induction d as [|kv d IH]; simpl; [tauto|].
  destruct (array_index (fst kv)); [|auto].
  intros H. destruct (In_insert_by_index _ _ _ _ H) as [->|H']; auto.
Qed.

(** [Object.entries] lists own properties only. *)
Lemma In_entries d kv : In kv (entries d) -> In kv d.
Proof.
  unfold entries, named. intros H. apply in_app_or in H. destruct H as [H|H].
  - apply in_map_iff in H. destruct H as [x [<- Hx]]. now apply In_indexed.
  - now apply filter_In in H.
Qed.

(** Without array indices among the keys, [Object.entries] follows the
    order of creation. *)
Lemma entries_named d :
  Forall (fun kv => array_index (fst kv) = None) d -> entries d = d.
Proof.
  unfold entries, indexed, named. induction 1 as [|kv d Hkv Hd IH]; simpl; [reflexivity|].
  rewrite Hkv. simpl in IH.
  assert (Hi : fold_right
                 (fun kv acc => match array_index (fst kv) with
                                | Some n => insert_by_index n kv acc
                                | None => acc
                                end) [] d = []).
  { clear IH. induction Hd as [|kv' d' Hkv' Hd' IH']; simpl; [reflexivity|].
    now rewrite Hkv'. }
  rewrite Hi in *. simpl in *. now rewrite IH.
Qed.

End DictFacts.

(* ===================================================================== *)
(** * Properties of the handlers *)
(* ===================================================================== *)

(** Case analysis on the next test of a handler *)
Ltac next_case :=
  match goal with
  | |- context [match ?x with _ => _ end] =>
      lazymatch x with
      | context [match _ with _ => _ end] => fail
      | _ => destruct x eqn:?
      end
  | |- context [if ?x then _ else _] =>
      lazymatch x with
      | context [if _ then _ else _] => fail
      | _ => destruct x eqn:?
      end
  end.

Section HandlerFacts.
Variable env : Env.
Implicit Types (w : World) (r : Request).

Lemma access_refuses w u b a :
  access w u b = Some a -> NotFound a \/ Forbidden a.
Proof.
  unfold access, NotFound, Forbidden. intros H.
  destruct (get (buckets w) b) as [bucket| |].
  - destruct (negb (owner bucket =? u)); [|discriminate].
    injection H as <-. now right.
  - injection H as <-. now right.
  - injection H as <-. now left.
Qed.

Lemma access_granted w u b :
  access w u b = None <->
  exists bucket, own (buckets w) b = Some bucket /\ owner bucket = u.
Proof.
  unfold access. split.
  - destruct (get (buckets w) b) as [bucket| |] eqn:G; try discriminate.
    destruct (owner bucket =? u) eqn:E; [|discriminate]. intros _.
    exists bucket. split; [now apply get_Own|now apply String.eqb_eq].
  - intros [bucket [Hb Ho]]. apply get_Own in Hb. rewrite Hb.
    apply String.eqb_eq in Ho. now rewrite Ho.
Qed.

(** Somebody else's bucket: the guard answers 403 whatever the rest of
    the request is. *)
Lemma access_foreign w u b bucket :
  own (buckets w) b = Some bucket -> owner bucket <> u ->
  access w u b = Some (Err 403 "Access denied").
Proof.
  intros Hb Ho. unfold access. apply get_Own in Hb. rewrite Hb.
  apply String.eqb_neq in Ho. now rewrite Ho.
Qed.

End HandlerFacts.

(* ===================================================================== *)
(** * Refused requests *)
(* ===================================================================== *)

(** C10. A request that is refused (400, 401, 403, 404 or 409) leaves the
    state as it was: the handler returns before it assigns anything, so the
    users, the buckets with their item counts and the documents of every
    bucket are those of before the call.  This covers register, login,
    create bucket, write, read, delete, list, batch write and search. *)
Theorem refused_request_changes_nothing (env : Env) (w : World) (r : Request) :
  refusal (snd (handle env w r)) -> fst (handle env w r) = w.
Proof.
  unfold refusal, BadRequest, Unauthorized, Forbidden, NotFound, Conflict.
  destruct r; simpl;
    unfold register, login, create_bucket, list_buckets, put_data, get_data,
           delete_data, list_items, vector_search, batch_write, stats, health;
    repeat next_case; simpl; intros H; try reflexivity;
    try (exfalso; intuition discriminate).
Qed.

Lemma refused_request_changes_nothing_witness :
  NotFound (snd (handle Demo.env Demo.stocked
                        (DeleteData Demo.alice Demo.notes "/missing")))
  /\ fst (handle Demo.env Demo.stocked
                 (DeleteData Demo.alice Demo.notes "/missing")) = Demo.stocked.
Proof.
  split.
  - vm_compute. reflexivity.
  - apply refused_request_changes_nothing.
    right. right. right. left. vm_compute. reflexivity.
Defined.

(* ===================================================================== *)
(** * Isolation of tenants *)
(* ===================================================================== *)

(** C3. Cross-tenant isolation: on a bucket that exists and is owned by
    [P], a read, a write, a delete and a list by any other principal [Q] are
    answered 403 and change nothing, whatever the path and whether or not a
    document is stored under it: the owner is compared before [databases]
    is looked at. *)
Theorem foreign_bucket_is_forbidden
        (env : Env) (w : World) (b P Q p : string) (bucket : Bucket) (body : JSON) :
  own (buckets w) b = Some bucket ->
  owner bucket = P ->
  Q <> P ->
  Forall (fun r => Forbidden (snd (handle env w r)) /\ fst (handle env w r) = w)
         [GetData Q b p; PutData Q b p body; DeleteData Q b p; ListItems Q b].
Proof.
  intros Hb Ho Hq.
  assert (Ha : access w Q b = Some (Err 403 "Access denied")).
  { apply access_foreign with bucket; [exact Hb|congruence]. }
  repeat constructor; simpl;
    unfold get_data, put_data, delete_data, list_items; rewrite Ha; reflexivity.
Qed.

Lemma foreign_bucket_is_forbidden_witness :
  Forall (fun r => Forbidden (snd (handle Demo.env Demo.stocked r)) /\
                   fst (handle Demo.env Demo.stocked r) = Demo.stocked)
         [ GetData Demo.bob Demo.notes "/u/1";
           PutData Demo.bob Demo.notes "/u/1" JNull;
           DeleteData Demo.bob Demo.notes "/u/1";
           ListItems Demo.bob Demo.notes ].
Proof.
  apply (@foreign_bucket_is_forbidden
           Demo.env Demo.stocked Demo.notes Demo.alice Demo.bob "/u/1"
           {| bucketId := Demo.notes; name := "b1"; owner := Demo.alice;
              durability := "standard"; region := "us-east-1";
              bucket_createdAt := 1700000000001%Z; itemCount := 1 |} JNull).
  - vm_compute. reflexivity.
  - reflexivity.
  - discriminate.
Defined.

(* ===================================================================== *)
(** * The item count *)
(* ===================================================================== *)

Section CountFacts.
Variable env : Env.

Lemma ensure_docs_own dbs b' dbs1 :
  ensure_docs dbs b' = Some dbs1 ->
  (forall b, b <> b' -> own dbs1 b = own dbs b) /\
  (forall docs, own dbs b' = Some docs -> own dbs1 b' = Some docs).
Proof.
  unfold ensure_docs, assign.
  destruct (truthy (get dbs b')) eqn:T.
  - intros [= <-]. auto.
  - destruct (b' =? "__proto__"); [discriminate|]. intros [= <-]. split.
    + intros b Hb. apply own_put_other. congruence.
    + intros docs Hd. apply get_Own in Hd. rewrite Hd in T. discriminate.
Qed.

Lemma store_own dbs b' p item dbs' :
  store dbs b' p item = Some dbs' ->
  (forall b, b <> b' -> own dbs' b = own dbs b) /\
  (exists docs, own dbs b' = Some docs /\
                own dbs' b' = Some (docs_assign docs p item)).
Proof.
  unfold store. destruct (get dbs b') as [docs| |] eqn:G; try discriminate.
  intros [= <-]. split.
  - intros b Hb. apply own_put_other. congruence.
  - exists docs. split; [now apply get_Own|apply own_put_same].
Qed.

Lemma write_items_own items : forall dbs read b' dbs' read' out,
  write_items env dbs read b' items = (dbs', read', out) ->
  (forall b, b <> b' -> own dbs' b = own dbs b) /\
  (forall docs, own dbs b' = Some docs -> exists docs', own dbs' b' = Some docs').
Proof.
  induction items as [|item rest IH]; intros dbs read b' dbs' read' out; simpl.
  - intros [= <- _ _]. split; eauto.
  - assert (Hstop : forall r o, (dbs, r, o) = (dbs', read', out) ->
              (forall b, b <> b' -> own dbs' b = own dbs b) /\
              (forall docs, own dbs b' = Some docs ->
                            exists docs', own dbs' b' = Some docs')).
    { intros r o [= <- _ _]. split; eauto. }
    destruct item; try (apply Hstop);
      try (simpl; apply Hstop).
    simpl. destruct (own fields "data") as [body|]; [|apply Hstop].
    destruct (to_property_key (own fields "path")) as [key| |];
      try apply Hstop.
    destruct (store dbs b' key _) as [dbs1|] eqn:S; [|apply Hstop].
    apply store_own in S. destruct S as [S1 [docs1 [S2 S3]]].
    destruct (write_items env dbs1 (S (S read)) b' rest) as [[dbs2 read2] out2] eqn:W.
    apply IH in W. destruct W as [W1 W2].
    intros H.
    assert (dbs2 = dbs') by (destruct out2; congruence). subst dbs2.
    split.
    + intros b Hb. rewrite W1, S1; auto.
    + intros docs _. eapply W2. exact S3.
Qed.

Lemma own_recount_same bs dbs b bucket docs :
  own bs b = Some bucket -> own dbs b = Some docs ->
  exists bucket', own (recount bs dbs b) b = Some bucket' /\
                  itemCount bucket' = List.length (keys (props docs)) /\
                  owner bucket' = owner bucket /\
                  bucketId bucket' = bucketId bucket.
Proof.
  intros Hb Hd. unfold recount. rewrite Hb, Hd.
  eexists. split; [apply own_put_same|]. simpl. auto.
Qed.

Lemma own_recount_other bs dbs b b' :
  b <> b' -> own (recount bs dbs b') b = own bs b.
Proof.
  intros Hne. unfold recount.
  destruct (own bs b'); [|reflexivity].
  destruct (own dbs b'); [|reflexivity].
  apply own_put_other. congruence.
Qed.

(** Recounting [b'] after its documents object changed keeps every bucket
    counted. *)
Lemma counted_after_recount bs dbs dbs' b b' :
  counted_in bs dbs b ->
  (forall c, c <> b' -> own dbs' c = own dbs c) ->
  (forall docs, own dbs b' = Some docs -> exists docs', own dbs' b' = Some docs') ->
  counted_in (recount bs dbs' b') dbs' b.
Proof.
  intros [bucket [docs [Hb [Hd Hc]]]] Hother Hsame.
  destruct (string_dec b b') as [->|Hne].
  - destruct (Hsame _ Hd) as [docs' Hd'].
    destruct (own_recount_same _ _ _ Hb Hd') as [bucket' [H1 [H2 _]]].
    exists bucket', docs'. auto.
  - exists bucket, docs. rewrite own_recount_other, Hother; auto.
Qed.

(** Every request that does not end in an exception keeps a counted
    bucket counted. *)
Lemma counted_step w r b :
  counted w b ->
  snd (handle env w r) <> Uncaught ->
  counted (fst (handle env w r)) b.
Proof.
  unfold counted. intros C.
  destruct r as [e p n|e p|u n d rg|u|u b' p body|u b' p|u b' p|u b'
                |u b' q k|u b' items|u|]; simpl;
    unfold register, login, create_bucket, list_buckets, get_data,
           list_items, vector_search, stats, health;
    try (repeat next_case; simpl; intros _; exact C).
  - (* create bucket *)
    repeat next_case; simpl; intros _; try exact C.
    unfold assign in *.
    destruct (uuidv4 env (uuids w) =? "__proto__"); try discriminate.
    repeat match goal with H : Some _ = Some _ |- _ => injection H as <- end.
    destruct (string_dec b (uuidv4 env (uuids w))) as [->|Hne].
    + eexists _, _. rewrite !own_put_same. repeat split.
    + destruct C as [bucket [docs [Hb [Hd Hc]]]].
      exists bucket, docs. rewrite !own_put_other by congruence. auto.
  - (* write *)
    unfold put_data.
    destruct (access w u b'); [intros _; exact C|].
    destruct (ensure_docs (databases w) b') as [dbs|] eqn:E; [|intros _; exact C].
    destruct (store dbs b' p _) as [dbs'|] eqn:S; [|intros _; exact C].
    simpl. intros _.
    apply ensure_docs_own in E. destruct E as [E1 E2].
    apply store_own in S. destruct S as [S1 [docs1 [S2 S3]]].
    apply counted_after_recount with (dbs := databases w); auto.
    + intros c Hc. rewrite S1, E1; auto.
    + intros docs _. eauto.
  - (* delete *)
    unfold delete_data.
    destruct (access w u b'); [intros _; exact C|].
    destruct (get (databases w) b') as [docs| |] eqn:G; try (intros _; exact C).
    destruct (negb (value_truthy (docs_get docs p))); [intros _; exact C|].
    simpl. intros _.
    apply counted_after_recount with (dbs := databases w); auto.
    + intros c Hc. apply own_put_other. congruence.
    + intros docs' _. rewrite own_put_same. eauto.
  - (* batch write *)
    unfold batch_write.
    destruct (access w u b'); [intros _; exact C|].
    destruct items as [[| | | |l|]|]; try (intros _; exact C).
    destruct (ensure_docs (databases w) b') as [dbs|] eqn:E; [|intros _; exact C].
    destruct (write_items env dbs (dates w) b' l) as [[dbs' read] [results| |]] eqn:W;
      simpl; intros H; try congruence; try exact C.
    apply ensure_docs_own in E. destruct E as [E1 E2].
    apply write_items_own in W. destruct W as [W1 W2].
    apply counted_after_recount with (dbs := databases w); auto.
    + intros c Hc. rewrite W1, E1; auto.
    + intros docs Hd. eapply W2. apply E2. exact Hd.
Qed.

Lemma counted_serve rs : forall w b w' answers,
  counted w b ->
  serve env w rs = (w', answers) ->
  Forall (fun a => a <> Uncaught) answers ->
  counted w' b.
Proof.
  induction rs as [|r rest IH]; intros w b w' answers C; simpl.
  - intros [= <- _] _. exact C.
  - destruct (handle env w r) as [w1 a] eqn:H.
    destruct (serve env w1 rest) as [w2 answers'] eqn:S.
    intros [= <- <-] F. inversion F as [|? ? Ha F']; subst.
    eapply IH; [|exact S|exact F'].
    replace w1 with (fst (handle env w r)) by now rewrite H.
    apply counted_step; [exact C|now rewrite H].
Qed.

(** A new bucket is counted: no document, [itemCount] 0. *)
Lemma counted_create w u n d r w' b nm :
  create_bucket env w u n d r = (w', BucketCreated b nm) -> counted w' b.
Proof.
  unfold create_bucket, assign.
  destruct (negb (given n)); [discriminate|].
  destruct (uuidv4 env (uuids w) =? "__proto__"); [discriminate|].
  intros [= <- <- _]. unfold counted; simpl.
  eexists _, _. rewrite !own_put_same. repeat split.
Qed.

(** What the owner's list request answers on a counted bucket. *)
Lemma counted_list w b :
  counted w b ->
  exists bucket items,
    own (buckets w) b = Some bucket /\
    list_items w (owner bucket) b = (w, ItemList b (List.length items) items) /\
    itemCount bucket = List.length items.
Proof.
  intros [bucket [docs [Hb [Hd Hc]]]].
  exists bucket, (map item_info (entries (props docs))).
  split; [exact Hb|]. split.
  - unfold list_items.
    replace (access w (owner bucket) b) with (@None Response)
      by (symmetry; apply access_granted; eauto).
    apply get_Own in Hd. rewrite Hd. reflexivity.
  - rewrite Hc. unfold keys. now rewrite !length_map.
Qed.

End CountFacts.

(** C2. From the creation of bucket [b] on (which sets [itemCount] to 0),
    after any finite sequence of requests that all succeed, in particular
    writes, deletes and batch writes on [b], the [itemCount] of the record
    of [b] is the length of the sequence the list request returns for
    [b]. *)
Theorem item_count_is_list_length
        (env : Env) (w0 : World) (u : string) (n d rg : option string)
        (w1 : World) (b nm : string) (rs : list Request)
        (w : World) (answers : list Response) :
  create_bucket env w0 u n d rg = (w1, BucketCreated b nm) ->
  serve env w1 rs = (w, answers) ->
  Forall (fun a => succeeded a = true) answers ->
  exists bucket items,
    own (buckets w) b = Some bucket /\
    list_items w (owner bucket) b = (w, ItemList b (List.length items) items) /\
    itemCount bucket = List.length items.
Proof.
  intros Hc Hs Hok.
  apply counted_list.
  eapply counted_serve; [eapply counted_create; exact Hc|exact Hs|].
  eapply Forall_impl; [|exact Hok].
  intros a Ha ->. discriminate.
Qed.

Lemma item_count_is_list_length_witness :
  exists bucket items,
    own (buckets Demo.busy) Demo.notes = Some bucket /\
    list_items Demo.busy (owner bucket) Demo.notes =
      (Demo.busy, ItemList Demo.notes (List.length items) items) /\
    itemCount bucket = List.length items.
Proof.
  apply (@item_count_is_list_length
           Demo.env Demo.registered Demo.alice (Some "b1") None None
           Demo.started Demo.notes "b1" Demo.traffic
           Demo.busy (snd (serve Demo.env Demo.started Demo.traffic))).
  - vm_compute. reflexivity.
  - vm_compute. reflexivity.
  - vm_compute. repeat constructor.
Defined.

(* ===================================================================== *)
(** * The buckets of a principal *)
(* ===================================================================== *)

Section RegistryFacts.
Variable env : Env.

Lemma usable_ids_distinct n i j :
  usable_ids env n -> i < n -> j < n -> uuidv4 env i = uuidv4 env j -> i = j.
Proof.
  intros [Hnd _] Hi Hj He.
  rewrite (NoDup_nth _ (uuidv4 env 0)) in Hnd.
  apply Hnd; rewrite ?length_map, ?length_seq; auto.
  rewrite !map_nth, !seq_nth by assumption. exact He.
Qed.

Lemma usable_ids_shape n i : usable_ids env n -> i < n -> uuid_like (uuidv4 env i).
Proof.
  intros [_ Hs] Hi. rewrite Forall_forall in Hs. apply Hs.
  apply in_map, in_seq. lia.
Qed.

Lemma outline_put_same bs b bucket bucket' :
  own bs b = Some bucket ->
  bucketId bucket' = bucketId bucket -> owner bucket' = owner bucket ->
  outline (put bs b bucket') = outline bs.
Proof.
  intros Hb Hi Ho. unfold outline.
  induction bs as [|[k v] bs IH]; simpl in *; [discriminate|].
  destruct (k =? b) eqn:E; simpl.
  - apply String.eqb_eq in E. injection Hb as ->. subst k. now rewrite Hi, Ho.
  - now rewrite IH.
Qed.

Lemma outline_recount bs dbs b : outline (recount bs dbs b) = outline bs.
Proof.
  unfold recount. destruct (own bs b) as [bucket|] eqn:Hb; [|reflexivity].
  destruct (own dbs b); [|reflexivity].
  now apply outline_put_same with bucket.
Qed.

(** What a request does to the list of buckets: nothing that shows in the
    outline, unless it creates a bucket, which is then put under the next
    identifier. *)
Lemma handle_outline w r w' a :
  handle env w r = (w', a) ->
  uuids w <= uuids w' <= S (uuids w) /\
  ((outline (buckets w') = outline (buckets w) /\
    forall P, created_by P [r] [a] = [])
   \/
   (exists u n d rg bucket,
      r = CreateBucket u n d rg /\
      a = BucketCreated (uuidv4 env (uuids w)) (name bucket) /\
      owner bucket = u /\ bucketId bucket = uuidv4 env (uuids w) /\
      buckets w' = put (buckets w) (uuidv4 env (uuids w)) bucket /\
      uuids w' = S (uuids w))).
Proof.
  destruct r as [e p n|e p|u n d rg|u|u b' p body|u b' p|u b' p|u b'
                |u b' q k|u b' items|u|]; simpl;
    unfold register, login, create_bucket, list_buckets, put_data, get_data,
           delete_data, list_items, vector_search, batch_write, stats, health.
  3: { (* create bucket *)
    destruct (negb (given n)).
    { intros [= <- <-]. split; [lia|]. left. auto. }
    unfold assign. destruct (uuidv4 env (uuids w) =? "__proto__").
    { intros [= <- <-]. split; [lia|]. left. auto. }
    intros [= <- <-]. simpl. split; [lia|]. right.
    eexists u, n, d, rg, _. repeat split; reflexivity. }
  all: repeat next_case; intros [= <- <-]; simpl; (split; [lia|]); left;
    rewrite ?outline_recount; auto.
Qed.

End RegistryFacts.

Section CreationOrder.
Variable env : Env.
Variable P : string.
Variable n : nat.
Hypothesis ids_ok : usable_ids env n.

Lemma created_by_cons r a rs answers :
  created_by P (r :: rs) (a :: answers) =
  created_by P [r] [a] ++ created_by P rs answers.
Proof.
  destruct r, a; simpl; try reflexivity.
  destruct (user =? P); reflexivity.
Qed.

Lemma registry_fresh w L :
  registry_ok env P w L -> uuids w < n -> own (buckets w) (uuidv4 env (uuids w)) = None.
Proof.
  intros [Hk _] Hlt. apply not_key_own_None. intros Hin.
  apply in_map_iff in Hin. destruct Hin as [[k v] [Hk' Hin]]. simpl in Hk'.
  rewrite Forall_forall in Hk.
  destruct (Hk (k, bucketId v, owner v)) as [[i [Hi He]] _].
  { unfold outline. apply in_map_iff. exists (k, v). auto. }
  simpl in He. subst k.
  assert (i = uuids w) by (apply usable_ids_distinct with env n; auto; lia).
  lia.
Qed.

Lemma registry_step w L r w' a :
  registry_ok env P w L -> uuids w < n ->
  handle env w r = (w', a) ->
  registry_ok env P w' (L ++ created_by P [r] [a]) /\ uuids w' <= S (uuids w).
Proof.
  intros R Hlt H.
  destruct (handle_outline _ _ _ H) as [Hu [[Ho Hc]|Hnew]].
  - split; [|lia]. rewrite Hc, app_nil_r.
    destruct R as [Hk HL]. unfold registry_ok. rewrite Ho. split; [|exact HL].
    eapply Forall_impl; [|exact Hk].
    intros t [[i [Hi He]] Hb]. split; [|exact Hb]. exists i. split; [lia|exact He].
  - destruct Hnew as [u [nm [d [rg [bucket [-> [-> [Ho [Hi [Hb Hu']]]]]]]]]].
    split; [|lia].
    pose proof (registry_fresh R Hlt) as Hf.
    destruct R as [Hk HL]. unfold registry_ok.
    rewrite Hb, (put_fresh _ _ _ Hf). unfold outline. rewrite map_app.
    fold (outline (buckets w)). simpl. rewrite Hi, Ho. split.
    + apply Forall_app. split.
      * eapply Forall_impl; [|exact Hk].
        intros t [[i [Hi' He]] Hb']. split; [|exact Hb']. exists i. split; [lia|exact He].
      * constructor; [|constructor]. simpl. split; [|reflexivity].
        exists (uuids w). split; [lia|reflexivity].
    + rewrite filter_app, map_app, HL. simpl.
      destruct (u =? P); reflexivity.
Qed.

Lemma registry_serve rs : forall w L w' answers,
  registry_ok env P w L -> uuids w + List.length rs <= n ->
  serve env w rs = (w', answers) ->
  registry_ok env P w' (L ++ created_by P rs answers) /\
  uuids w' <= uuids w + List.length rs.
Proof.
  induction rs as [|r rest IH]; intros w L w' answers R Hn; cbn [serve].
  - intros [= <- <-]. simpl. rewrite app_nil_r. split; [exact R|lia].
  - simpl in Hn.
    destruct (handle env w r) as [w1 a] eqn:H.
    destruct (serve env w1 rest) as [w2 answers'] eqn:S.
    intros [= <- <-].
    destruct (registry_step _ R ltac:(lia) H) as [R1 Hu1].
    destruct (IH _ _ _ _ R1 ltac:(lia) S) as [R2 Hu2].
    split; [|simpl; lia].
    rewrite created_by_cons, app_assoc. exact R2.
Qed.

(** With every key a uuid, listing the buckets of [P] goes through the
    properties in the order of their creation. *)
Lemma user_buckets_outline w L :
  registry_ok env P w L -> uuids w <= n ->
  map bucketId (user_buckets w P) = L.
Proof.
  intros [Hk HL] Hn. unfold user_buckets, values.
  rewrite entries_named.
  - rewrite <- HL. clear HL. unfold outline in *.
    induction (buckets w) as [|[k v] bs IH]; simpl in *; [reflexivity|].
    inversion Hk as [|? ? [_ Hb] Hk']; subst. simpl in Hb.
    destruct (owner v =? P); simpl; rewrite IH by assumption; congruence.
  - apply Forall_forall. intros [k v] Hin. simpl.
    rewrite Forall_forall in Hk.
    destruct (Hk (k, bucketId v, owner v)) as [[i [Hi He]] _].
    { unfold outline. apply in_map_iff. exists (k, v). auto. }
    simpl in He. subst k.
    apply (usable_ids_shape (n := n) (i := i)); [exact ids_ok|lia].
Qed.

End CreationOrder.

(* ===================================================================== *)
(** * Documents *)
(* ===================================================================== *)

Section DocumentFacts.
Variable env : Env.

Lemma docs_get_assign docs p item :
  docs_get (docs_assign docs p item) p = VItem item.
Proof.
  unfold docs_assign, docs_get.
  destruct (own (props docs) p) eqn:O; cbn [props proto].
  - now rewrite own_put_same.
  - destruct (p =? "__proto__") eqn:E; cbn [props proto].
    + now rewrite O.
    + now rewrite own_put_same.
Qed.

Lemma own_docs_delete docs p : own (props (docs_delete docs p)) p = None.
Proof. apply own_remove_same. Qed.

Lemma has_bucket_access w u b docs : has_bucket w u b docs -> access w u b = None.
Proof. intros [H _]. now apply access_granted. Qed.

(** What a write by the owner does. *)
Lemma put_data_granted w u b p body docs :
  has_bucket w u b docs ->
  let docs' := docs_assign docs p (new_item env (dates w) body) in
  let dbs' := put (databases w) b docs' in
  put_data env w u b p body =
  ({| users := users w; buckets := recount (buckets w) dbs' b;
      databases := dbs'; dates := 3 + dates w; uuids := uuids w;
      randoms := randoms w |},
   Stored b p (now env (2 + dates w))) /\
  has_bucket (fst (put_data env w u b p body)) u b docs'.
Proof.
  intros HB docs' dbs'. pose proof (has_bucket_access HB) as A.
  destruct HB as [[bucket [Hb Ho]] Hd].
  assert (E : put_data env w u b p body =
              ({| users := users w; buckets := recount (buckets w) dbs' b;
                  databases := dbs'; dates := 3 + dates w; uuids := uuids w;
                  randoms := randoms w |},
               Stored b p (now env (2 + dates w)))).
  { unfold put_data, ensure_docs, store. rewrite A.
    apply get_Own in Hd. rewrite Hd. cbn [truthy]. rewrite Hd. reflexivity. }
  split; [exact E|]. rewrite E. simpl. split.
  - destruct (@own_recount_same (buckets w) dbs' b bucket docs' Hb
                                 (own_put_same _ _ _))
      as [bucket' [H1 [_ [H2 _]]]].
    exists bucket'. split; [exact H1|congruence].
  - apply own_put_same.
Qed.

(** What a read by the owner does. *)
Lemma get_data_granted w u b p docs :
  has_bucket w u b docs ->
  get_data w u b p =
  (w, if value_truthy (docs_get docs p)
      then Fetched p (value_field (docs_get docs p) "data")
                   (value_field (docs_get docs p) "createdAt")
                   (value_field (docs_get docs p) "updatedAt")
                   (value_field (docs_get docs p) "size")
      else Err 404 "Data not found").
Proof.
  intros HB. pose proof (has_bucket_access HB) as A.
  destruct HB as [_ Hd]. unfold get_data. rewrite A.
  apply get_Own in Hd. rewrite Hd.
  destruct (value_truthy (docs_get docs p)); reflexivity.
Qed.

(** What a delete by the owner does. *)
Lemma delete_data_granted w u b p docs :
  has_bucket w u b docs ->
  let dbs' := put (databases w) b (docs_delete docs p) in
  delete_data w u b p =
  (if value_truthy (docs_get docs p)
   then ({| users := users w; buckets := recount (buckets w) dbs' b;
            databases := dbs'; dates := dates w; uuids := uuids w;
            randoms := randoms w |}, Deleted)
   else (w, Err 404 "Data not found")) /\
  (value_truthy (docs_get docs p) = true ->
   has_bucket (fst (delete_data w u b p)) u b (docs_delete docs p)).
Proof.
  intros HB dbs'. pose proof (has_bucket_access HB) as A.
  destruct HB as [[bucket [Hb Ho]] Hd].
  assert (E : delete_data w u b p =
              (if value_truthy (docs_get docs p)
               then ({| users := users w; buckets := recount (buckets w) dbs' b;
                        databases := dbs'; dates := dates w; uuids := uuids w;
                        randoms := randoms w |}, Deleted)
               else (w, Err 404 "Data not found"))).
  { unfold delete_data. rewrite A. apply get_Own in Hd. rewrite Hd.
    destruct (value_truthy (docs_get docs p)); reflexivity. }
  split; [exact E|]. intros T. rewrite E, T. simpl. split.
  - destruct (@own_recount_same (buckets w) dbs' b bucket (docs_delete docs p) Hb
                                 (own_put_same _ _ _))
      as [bucket' [H1 [_ [H2 _]]]].
    exists bucket'. split; [exact H1|congruence].
  - apply own_put_same.
Qed.

(** The read after a write returns the payload written, the two dates
    made by that write and the length of the serialised payload, under
    every path. *)
Lemma write_then_read w u b p x docs :
  has_bucket w u b docs ->
  succeeded (snd (put_data env w u b p x)) = true /\
  get_data (fst (put_data env w u b p x)) u b p =
  (fst (put_data env w u b p x),
   Fetched p (VJson x) (VDate (now env (dates w)))
           (VDate (now env (S (dates w))))
           (VNumber (utf16_length (stringify x)))).
Proof.
  intros HB. destruct (put_data_granted p x HB) as [E HB'].
  split; [rewrite E; reflexivity|].
  rewrite (get_data_granted p HB'), docs_get_assign. reflexivity.
Qed.

(** A second write under the same path replaces the item as a whole: the
    payload, [updatedAt] and also [createdAt], which becomes the first
    date made by the second write. *)
Lemma write_twice_then_read w u b p x y docs :
  has_bucket w u b docs ->
  let w1 := fst (put_data env w u b p x) in
  let w2 := fst (put_data env w1 u b p y) in
  get_data w2 u b p =
  (w2, Fetched p (VJson y) (VDate (now env (3 + dates w)))
               (VDate (now env (4 + dates w)))
               (VNumber (utf16_length (stringify y)))).
Proof.
  intros HB w1 w2. destruct (put_data_granted p x HB) as [E1 HB1].
  fold w1 in HB1.
  destruct (write_then_read p y HB1) as [_ R]. fold w2 in R.
  rewrite R. subst w1. rewrite E1. reflexivity.
Qed.

(** Where no prototype was installed and the path is not the name of a
    member of [Object.prototype], a delete is refused exactly when the
    path holds no document, and a delete that succeeds removes the
    document, so that the next one is refused. *)
Lemma delete_plain_path w u b p docs :
  has_bucket w u b docs -> proto docs = None -> inherited p = false ->
  (NotFound (snd (delete_data w u b p)) <-> own (props docs) p = None) /\
  (own (props docs) p <> None ->
   snd (delete_data w u b p) = Deleted /\
   NotFound (snd (delete_data (fst (delete_data w u b p)) u b p))).
Proof.
  intros HB Hp Hi.
  assert (T : forall d, proto d = None ->
                value_truthy (docs_get d p) =
                match own (props d) p with Some _ => true | None => false end).
  { intros d Hd. unfold docs_get, builtin_or_undefined.
    rewrite Hd, Hi. destruct (own (props d) p); reflexivity. }
  destruct (delete_data_granted p HB) as [E HB'].
  split.
  - rewrite E, (T docs Hp). unfold NotFound.
    destruct (own (props docs) p); simpl; split; intros H; congruence.
  - intros Hown.
    assert (T1 : value_truthy (docs_get docs p) = true).
    { rewrite (T docs Hp). destruct (own (props docs) p); congruence. }
    specialize (HB' T1). split.
    + rewrite E, T1. reflexivity.
    + destruct (delete_data_granted p HB') as [E' _].
      rewrite E', (T (docs_delete docs p) Hp), own_docs_delete. reflexivity.
Qed.

End DocumentFacts.

(** C1. The handler stamps [createdAt] at every write.  Alice writes
    [/u/1] at clock readings 2 to 4 and again at readings 5 to 7: the read
    after the first write shows [createdAt] at reading 2, the read after
    the second shows the new payload and [updatedAt] at reading 6, but
    [createdAt] at reading 5, the time of the second write, where the
    claim keeps that of the first. *)
Theorem overwrite_restamps_createdAt :
  snd (get_data Demo.stocked Demo.alice Demo.notes "/u/1") =
    Fetched "/u/1" (VJson (JObj [("n", JNum 1)]))
            (VDate 1700000000002%Z) (VDate 1700000000003%Z) (VNumber 7)
  /\
  snd (get_data Demo.restocked Demo.alice Demo.notes "/u/1") =
    Fetched "/u/1" (VJson (JObj [("n", JNum 2)]))
            (VDate 1700000000005%Z) (VDate 1700000000006%Z) (VNumber 7).
Proof. split; vm_compute; reflexivity. Qed.

(** C4. The read after a write returns the payload, but [size] is the
    length of the serialised payload in UTF-16 code units, not in bytes:
    for the payload [Demo.accented], an object with one accented letter,
    the read returns 9, and the serialised payload is 10 bytes long. *)
Theorem size_counts_code_units :
  snd (get_data Demo.accented_stored Demo.alice Demo.notes "/a") =
    Fetched "/a" (VJson Demo.accented)
            (VDate 1700000000002%Z) (VDate 1700000000003%Z) (VNumber 9)
  /\ String.length (stringify Demo.accented) = 10.
Proof. split; vm_compute; reflexivity. Qed.

(** C5. Under a path that names a member of [Object.prototype] a delete
    is not refused though no document is stored there: on the new, empty
    bucket [notes] the delete of [constructor] succeeds, and so does the
    delete after it, where the claim has 404 both times. *)
Theorem delete_of_inherited_name_succeeds :
  list_items Demo.started Demo.alice Demo.notes =
    (Demo.started, ItemList Demo.notes 0 [])
  /\
  delete_data Demo.started Demo.alice Demo.notes "constructor" =
    (Demo.started, Deleted)
  /\
  snd (delete_data (fst (delete_data Demo.started Demo.alice Demo.notes "constructor"))
                   Demo.alice Demo.notes "constructor") = Deleted.
Proof. repeat split; vm_compute; reflexivity. Qed.

(* ===================================================================== *)
(** * Search *)
(* ===================================================================== *)

Section SearchFacts.
Variable env : Env.

Lemma length_hits l : forall drawn, List.length (hits env drawn l) = List.length l.
Proof.
  induction l as [|[k v] l IH]; intros drawn; simpl; [reflexivity|].
  now rewrite IH.
Qed.

Lemma In_hits l : forall drawn h,
  In h (hits env drawn l) ->
  exists item, In (hit_path h, item) l /\ hit_data h = data item.
Proof.
  induction l as [|[k v] l IH]; intros drawn h; simpl; [tauto|].
  intros [<-|H].
  - exists v. simpl. auto.
  - destruct (IH _ _ H) as [item [Hin Hd]]. exists item. auto.
Qed.

Lemma slice0_length (A : Type) (a : list A) (e : Z) :
  (0 <= e)%Z -> (Z.of_nat (List.length (slice0 a e)) <= e)%Z.
Proof.
  intros He. unfold slice0.
  destruct (e <? 0)%Z eqn:E; [apply Z.ltb_lt in E; lia|].
  pose proof (firstn_le_length (Z.to_nat (Z.min e (Z.of_nat (List.length a)))) a).
  lia.
Qed.

Lemma In_slice0 (A : Type) (a : list A) (e : Z) x : In x (slice0 a e) -> In x a.
Proof.
  unfold slice0. intros H.
  rewrite <- (firstn_skipn (Z.to_nat (if (e <? 0)%Z
                                      then Z.max (Z.of_nat (List.length a) + e) 0
                                      else Z.min e (Z.of_nat (List.length a)))) a).
  apply in_or_app. now left.
Qed.

End SearchFacts.

(** The claim of C9 fails for [topK] 0: the search is answered as if no
    [topK] had been given, here with the one document of the bucket. *)
Lemma search_with_topK_zero_returns_a_hit :
  snd (vector_search Demo.env Demo.stocked Demo.alice Demo.notes None (Some 0%Z)) =
    SearchResults None [{| hit_path := "/u/1"; hit_data := JObj [("n", JNum 1)];
                           hit_score := 0%N |}]
  /\
  ~ (exists results,
       snd (vector_search Demo.env Demo.stocked Demo.alice Demo.notes None (Some 0%Z)) =
         SearchResults None results
       /\ (Z.of_nat (List.length results) <= 0)%Z).
Proof.
  split; [vm_compute; reflexivity|].
  intros [results [H Hle]]. vm_compute in H. injection H as <-.
  simpl in Hle. lia.
Qed.

(** C9, as amended.  On a bucket of the caller, a search with a positive
    [topK] returns at most [topK] hits, and a search without [topK] or
    with [topK] 0 at most 10; every hit has a score and is the path and the
    payload of a document stored in the bucket. *)
Theorem vector_search_bounded
        (env : Env) (w : World) (u b : string) (docs : Docs)
        (q : option JSON) (topK : option Z) (limit : Z) :
  has_bucket w u b docs ->
  (topK = Some limit /\ (0 < limit)%Z) \/
  ((topK = None \/ topK = Some 0%Z) /\ limit = 10%Z) ->
  exists results,
    snd (vector_search env w u b q topK) = SearchResults q results /\
    (Z.of_nat (List.length results) <= limit)%Z /\
    Forall (fun h => exists item,
                In (hit_path h, item) (props docs) /\ hit_data h = data item)
           results.
Proof.
  intros HB Hk.
  assert (L : top_or_10 topK = limit /\ (0 <= limit)%Z).
  { destruct Hk as [[-> Hpos]|[[->| ->] ->]]; simpl; try (split; [reflexivity|lia]).
    destruct (limit =? 0)%Z eqn:E; [apply Z.eqb_eq in E; lia|]. split; [reflexivity|lia]. }
  destruct L as [L Hl].
  pose proof (has_bucket_access HB) as A. destruct HB as [_ Hd].
  unfold vector_search. rewrite A. apply get_Own in Hd. rewrite Hd. simpl.
  eexists. split; [reflexivity|]. rewrite L. split.
  - rewrite length_hits. now apply slice0_length.
  - apply Forall_forall. intros h Hh.
    destruct (In_hits _ _ _ _ Hh) as [item [Hin He]].
    exists item. split; [|exact He].
    apply In_entries. eapply In_slice0. exact Hin.
Qed.

Lemma vector_search_bounded_witness :
  exists results,
    snd (vector_search Demo.env Demo.busy Demo.alice Demo.notes None (Some 2%Z)) =
      SearchResults None results /\
    (Z.of_nat (List.length results) <= 2)%Z /\
    Forall (fun h => exists item,
                In (hit_path h, item)
                   [ ("/a", new_item Demo.env 5 (JNum 1));
                     ("/b", new_item Demo.env 7 (JNum 2));
                     ("7", new_item Demo.env 9 (JStr "seven")) ] /\
                hit_data h = data item)
           results.
Proof.
  apply (@vector_search_bounded
           Demo.env Demo.busy Demo.alice Demo.notes
           {| props := [ ("/a", new_item Demo.env 5 (JNum 1));
                         ("/b", new_item Demo.env 7 (JNum 2));
                         ("7", new_item Demo.env 9 (JStr "seven")) ];
              proto := None |}
           None (Some 2%Z) 2%Z).
  - split; [eexists; split|]; vm_compute; reflexivity.
  - left. split; [reflexivity|lia].
Defined.

(* ===================================================================== *)
(** * Registration and login *)
(* ===================================================================== *)

(** The claim of C7 fails where the secret is empty: registering the
    identifier of Alice again is then answered 400, not 409, and so is a
    login for an identifier nobody registered, not 401. *)
Lemma empty_secret_is_bad_request :
  (exists user, own (users Demo.started) "a@x.com" = Some user)
  /\ BadRequest (snd (register Demo.env Demo.started (Some "a@x.com") (Some "") (Some "A")))
  /\ ~ Conflict (snd (register Demo.env Demo.started (Some "a@x.com") (Some "") (Some "A")))
  /\ own (users Demo.started) "nobody@x.com" = None
  /\ ~ Unauthorized (snd (login Demo.started (Some "nobody@x.com") (Some ""))).
Proof.
  split; [eexists; vm_compute; reflexivity|].
  split; [vm_compute; reflexivity|].
  split; [vm_compute; discriminate|].
  split; [vm_compute; reflexivity|].
  vm_compute; discriminate.
Qed.

(** C7, as amended.  For a request that carries a login identifier and a
    secret, both non-empty: registration answers 409 and changes nothing
    when the identifier is already registered, so that of two
    registrations of one identifier the second is refused and adds no
    principal; and login answers 401 when the identifier is not registered
    or the secret is not the stored one. *)
Theorem register_conflict_login_unauthorized
        (env : Env) (w : World) (e pw : string) (nm : option string) :
  e <> "" -> pw <> "" ->
  ((exists user, own (users w) e = Some user) ->
   Conflict (snd (register env w (Some e) (Some pw) nm)) /\
   fst (register env w (Some e) (Some pw) nm) = w)
  /\
  (forall w1 a1 pw2 nm2,
     register env w (Some e) (Some pw) nm = (w1, a1) ->
     succeeded a1 = true -> pw2 <> "" ->
     Conflict (snd (register env w1 (Some e) (Some pw2) nm2)) /\
     fst (register env w1 (Some e) (Some pw2) nm2) = w1)
  /\
  (own (users w) e = None \/
   (exists user, own (users w) e = Some user /\ password user <> pw) ->
   Unauthorized (snd (login w (Some e) (Some pw))) /\
   fst (login w (Some e) (Some pw)) = w).
Proof.
  intros He Hp.
  apply String.eqb_neq in He. apply String.eqb_neq in Hp.
  assert (Reg : forall w' pw' nm', (pw' =? "") = false ->
            (exists user, own (users w') e = Some user) ->
            Conflict (snd (register env w' (Some e) (Some pw') nm')) /\
            fst (register env w' (Some e) (Some pw') nm') = w').
  { intros w' pw' nm' Hp' [user Hu]. unfold register, given, or_else.
    rewrite He, Hp'. simpl. apply get_Own in Hu. rewrite Hu. simpl.
    split; reflexivity. }
  split; [|split].
  - now apply Reg.
  - intros w1 a1 pw2 nm2 H Hok Hp2. apply String.eqb_neq in Hp2.
    apply Reg; [exact Hp2|].
    revert H. unfold register, given, or_else, assign. rewrite He, Hp. simpl.
    destruct (truthy (get (users w) e)).
    { intros [= <- <-]. discriminate. }
    destruct (e =? "__proto__").
    { intros [= <- <-]. discriminate. }
    intros [= <- <-]. simpl. eexists. apply own_put_same.
  - intros H. unfold login, given, or_else. rewrite He, Hp. simpl.
    destruct H as [Hn|[user [Hu Hne]]].
    + unfold get. rewrite Hn. destruct (inherited e); split; reflexivity.
    + apply get_Own in Hu. rewrite Hu.
      apply String.eqb_neq in Hne. rewrite Hne. split; reflexivity.
Qed.

Lemma register_conflict_login_unauthorized_witness :
  Conflict (snd (register Demo.env Demo.started (Some "a@x.com") (Some "guess") None))
  /\ fst (register Demo.env Demo.started (Some "a@x.com") (Some "guess") None) =
     Demo.started
  /\ Unauthorized (snd (login Demo.started (Some "a@x.com") (Some "guess"))).
Proof.
  destruct (@register_conflict_login_unauthorized
              Demo.env Demo.started "a@x.com" "guess" None
              ltac:(discriminate) ltac:(discriminate)) as [R [_ L]].
  destruct R as [R1 R2]; [eexists; vm_compute; reflexivity|].
  destruct L as [L1 _].
  { right. eexists. split; [vm_compute; reflexivity|]. simpl. discriminate. }
  auto.
Defined.

(* ===================================================================== *)
(** * Batch write *)
(* ===================================================================== *)

Section BatchFacts.
Variable env : Env.

Lemma printed_leading items :
  forallb printed items = true -> forallb printed (leading_writable items) = true.
Proof.
  induction items as [|item rest IH]; simpl; [reflexivity|].
  intros H. apply andb_prop in H. destruct H as [H1 H2].
  destruct (writable item); [|reflexivity]. simpl. now rewrite H1, IH.
Qed.

Lemma write_items_in_order b items : forall dbs read docs,
  own dbs b = Some docs ->
  forallb printed (leading_writable items) = true ->
  own (fst (fst (write_items env dbs read b items))) b =
    Some (write_each env read docs (leading_writable items)) /\
  (leading_writable items = items ->
   snd (write_items env dbs read b items) = Written (map success_entry items)) /\
  (leading_writable items <> items ->
   snd (write_items env dbs read b items) = Threw).
Proof.
  induction items as [|item rest IH]; intros dbs read docs Hd Hp.
  - simpl. repeat split; auto. congruence.
  - assert (Stop : forall r : nat,
              writable item = false ->
              own (fst (fst (dbs, r, Threw))) b =
                Some (write_each env read docs (leading_writable (item :: rest))) /\
              (leading_writable (item :: rest) = item :: rest ->
               snd (dbs, r, Threw) = Written (map success_entry (item :: rest))) /\
              (leading_writable (item :: rest) <> item :: rest ->
               snd (dbs, r, Threw) = Threw)).
    { intros r Hw. simpl. rewrite Hw. simpl. repeat split; auto. discriminate. }
    destruct item as [|flag|num|str|elements|fields];
      try (apply Stop; reflexivity).
    cbn [write_items json_field].
    destruct (own fields "data") as [body|] eqn:D.
    2: { apply Stop. simpl. now rewrite D. }
    destruct (to_property_key (own fields "path")) as [key| |] eqn:Kq.
    2: { apply Stop. unfold writable, key_of. cbn [json_field].
         now rewrite D, Kq. }
    2: { exfalso.
         assert (W : writable (JObj fields) = true).
         { unfold writable, key_of. cbn [json_field]. now rewrite D, Kq. }
         assert (Pr : printed (JObj fields) = false).
         { unfold printed, key_of. cbn [json_field]. now rewrite Kq. }
         cbn [leading_writable] in Hp. rewrite W in Hp.
         cbn [forallb] in Hp. rewrite Pr in Hp. discriminate. }
    assert (W : writable (JObj fields) = true).
    { unfold writable, key_of. cbn [json_field]. now rewrite D, Kq. }
    cbn [leading_writable] in Hp. rewrite W in Hp. cbn [forallb] in Hp.
    apply andb_prop in Hp. destruct Hp as [_ Hp].
    assert (S : store dbs b key (new_item env read body)
                = Some (put dbs b (docs_assign docs key (new_item env read body)))).
    { unfold store. apply get_Own in Hd. now rewrite Hd. }
    rewrite S.
    specialize (IH (put dbs b (docs_assign docs key (new_item env read body)))
                   (2 + read) _ (own_put_same _ _ _) Hp).
    destruct IH as [I1 [I2 I3]].
    cbn [leading_writable]. rewrite W.
    cbn [write_each]. unfold write_one at 1. unfold key_of. cbn [json_field].
    rewrite D, Kq.
    destruct (write_items env _ (2 + read) b rest) as [[dbs2 read2] out] eqn:E.
    simpl in I1, I2, I3. split; [|split].
    + destruct out; exact I1.
    + intros [= H]. rewrite (I2 H). reflexivity.
    + intros H. rewrite I3; [reflexivity|]. congruence.
Qed.

(** The single write of an item with a string path is what the write
    handler does to the documents of the bucket. *)
Lemma write_one_as_put_data w u b p body docs :
  has_bucket w u b docs ->
  own (databases (fst (put_data env w u b p body))) b =
    Some (write_one env (dates w) docs (JObj [("path", JStr p); ("data", body)])).
Proof.
  intros HB. destruct (put_data_granted env p body HB) as [E _].
  rewrite E. simpl. apply own_put_same.
Qed.

(** What a batch write by the owner does, for any batch in which the
    items that are written have printed keys: it makes the single write
    of each item in input order, up to the first item that cannot be
    written, and takes nothing back.  When every item can be written the
    answer holds one entry per item, each marked success, in input order;
    otherwise the request ends in an exception and answers no entry. *)
Lemma batch_write_in_order w u b docs items :
  has_bucket w u b docs ->
  forallb printed (leading_writable items) = true ->
  own (databases (fst (batch_write env w u b (Some (JArr items))))) b =
    Some (write_each env (dates w) docs (leading_writable items)) /\
  (leading_writable items = items ->
   snd (batch_write env w u b (Some (JArr items))) =
     BatchResults (map success_entry items) (List.length items)) /\
  (leading_writable items <> items ->
   snd (batch_write env w u b (Some (JArr items))) = Uncaught).
Proof.
  intros HB Hp. pose proof (has_bucket_access HB) as A. destruct HB as [_ Hd].
  unfold batch_write, ensure_docs. rewrite A.
  pose proof Hd as G. apply get_Own in G. rewrite G. cbn [truthy].
  destruct (@write_items_in_order b items (databases w) (dates w) docs Hd Hp)
    as [I1 [I2 I3]].
  destruct (write_items env (databases w) (dates w) b items)
    as [[dbs' read] [results| |]].
  - simpl in *. split; [exact I1|]. split.
    + intros E. specialize (I2 E). congruence.
    + intros N. specialize (I3 N). discriminate.
  - simpl in *. split; [exact I1|]. split.
    + intros E. specialize (I2 E). discriminate.
    + reflexivity.
  - exfalso. simpl in *.
    assert (N : leading_writable items <> items).
    { intros E. specialize (I2 E). discriminate. }
    specialize (I3 N). discriminate.
Qed.

End BatchFacts.

(** C6. The handler has no status for an item that fails, and no
    handler for the exception: a batch with an item that cannot be
    written ends in an uncaught exception, answered 500, and no status
    entry is answered for any item, where the claim has one entry per
    item marked succeeded or failed.  The items before it stay written,
    as the claim says, and the item count is left behind.  Two such
    batches on the new bucket [notes]: one whose second item has no
    [data], one whose second item has an object with a member named
    [toString] as its [path]. *)
Theorem broken_batch_answers_no_entries :
  snd (batch_write Demo.env Demo.started Demo.alice Demo.notes
                   (Some (JArr Demo.broken_batch))) = Uncaught
  /\
  snd (batch_write Demo.env Demo.started Demo.alice Demo.notes
                   (Some (JArr Demo.unkeyed_batch))) = Uncaught
  /\
  Forall (fun batch =>
            snd (list_items (fst (batch_write Demo.env Demo.started Demo.alice
                                              Demo.notes (Some (JArr batch))))
                            Demo.alice Demo.notes) =
              ItemList Demo.notes 1
                       [{| info_path := "/a"; info_size := 1;
                           info_createdAt := 1700000000002%Z;
                           info_updatedAt := 1700000000003%Z |}]
            /\
            option_map itemCount
              (own (buckets (fst (batch_write Demo.env Demo.started Demo.alice
                                              Demo.notes (Some (JArr batch)))))
                   Demo.notes) = Some 0
            /\
            ~ (exists results written,
                 snd (batch_write Demo.env Demo.started Demo.alice Demo.notes
                                  (Some (JArr batch))) =
                   BatchResults results written))
         [Demo.broken_batch; Demo.unkeyed_batch].
Proof.
  split; [vm_compute; reflexivity|]. split; [vm_compute; reflexivity|].
  repeat constructor; try (vm_compute; reflexivity);
    intros [results [written H]]; vm_compute in H; discriminate.
Qed.

(** The two batches of the specification's scenario and of the claim:
    the documents after the batch that throws are those of its first
    item, and the batch in which both items can be written is answered
    one entry per item. *)
Example batch_in_order_on_two_batches :
  own (databases (fst (batch_write Demo.env Demo.started Demo.alice Demo.notes
                                   (Some (JArr Demo.broken_batch)))))
      Demo.notes =
    Some {| props := [("/a", new_item Demo.env 2 (JNum 1))]; proto := None |}
  /\
  snd (batch_write Demo.env Demo.started Demo.alice Demo.notes
                   (Some (JArr Demo.sound_batch))) =
    BatchResults [ {| entry_path := Some (JStr "/a"); entry_status := "success" |};
                   {| entry_path := Some (JStr "/b"); entry_status := "success" |} ]
                 2.
Proof.
  assert (HB : has_bucket Demo.started Demo.alice Demo.notes empty_docs).
  { split; [eexists; split|]; vm_compute; reflexivity. }
  destruct (@batch_write_in_order Demo.env Demo.started Demo.alice Demo.notes
                                  empty_docs Demo.broken_batch HB eq_refl) as [H1 _].
  destruct (@batch_write_in_order Demo.env Demo.started Demo.alice Demo.notes
                                  empty_docs Demo.sound_batch HB eq_refl) as [_ [H2 _]].
  split.
  - rewrite H1. vm_compute. reflexivity.
  - rewrite H2; [|reflexivity]. vm_compute. reflexivity.
Qed.

(* ===================================================================== *)
(** * The reach of the model *)
(* ===================================================================== *)

(** The answer [OutsideModel] stands for the two things the state cannot
    record: the prototype of [users], [buckets] or [databases] replaced by
    an assignment to [__proto__], and a member of [Object.prototype] used
    as a documents object.  Neither happens in a run from start-up in
    which the identifiers are uuids; what is left is a batch with a key
    that is not printed. *)

Section ModelFacts.
Variable env : Env.

Lemma assign_defined (V : Type) (d : Dict V) k v :
  truthy (get d k) = false -> assign d k v = Some (put d k v).
Proof.
  unfold assign. destruct (k =? "__proto__") eqn:E; [|reflexivity].
  apply String.eqb_eq in E. subst k. unfold get.
  destruct (own d "__proto__"); discriminate.
Qed.

Lemma uuid_like_assign (V : Type) (d : Dict V) id v :
  uuid_like id -> assign d id v = Some (put d id v).
Proof.
  intros [_ Hi]. unfold assign.
  destruct (id =? "__proto__") eqn:E; [|reflexivity].
  apply String.eqb_eq in E. subst id. discriminate.
Qed.

Lemma own_put_keeps (V : Type) (d : Dict V) k v c :
  own d c <> None -> own (put d k v) c <> None.
Proof.
  intros H. destruct (string_dec k c) as [->|Hne].
  - rewrite own_put_same. discriminate.
  - now rewrite own_put_other.
Qed.

Lemma own_put_inv (V : Type) (d : Dict V) k v c :
  own (put d k v) c <> None -> c = k \/ own d c <> None.
Proof.
  destruct (string_dec k c) as [->|Hne]; [auto|].
  rewrite own_put_other by assumption. auto.
Qed.

Lemma own_recount_inv bs dbs b c :
  own (recount bs dbs b) c <> None -> own bs c <> None.
Proof.
  unfold recount. destruct (own bs b) eqn:Hb; [|auto].
  destruct (own dbs b); [|auto].
  intros H. destruct (own_put_inv _ _ _ _ H) as [->|H']; [congruence|exact H'].
Qed.

Lemma access_within_model w u b a : access w u b = Some a -> a <> OutsideModel.
Proof.
  intros A ->. destruct (access_refuses _ _ _ A) as [H|H]; discriminate.
Qed.

Lemma aligned_has_bucket w u b :
  aligned w -> access w u b = None -> exists docs, has_bucket w u b docs.
Proof.
  intros Al A. apply access_granted in A. destruct A as [bucket [Hb Ho]].
  destruct (own (databases w) b) as [docs|] eqn:Hd.
  - exists docs. split; [eauto|exact Hd].
  - exfalso. apply (Al b); [congruence|exact Hd].
Qed.

(** Writing into the documents of a bucket keeps the buckets aligned. *)
Lemma aligned_after_write w w' b :
  aligned w ->
  (forall c, own (buckets w') c <> None -> own (buckets w) c <> None) ->
  (forall c, c <> b -> own (databases w') c = own (databases w) c) ->
  own (databases w') b <> None ->
  aligned w'.
Proof.
  intros Al Hbs Hother Hsame c Hc.
  destruct (string_dec c b) as [->|Hne]; [exact Hsame|].
  rewrite Hother by assumption. apply Al, Hbs, Hc.
Qed.

Lemma within_model_step w r :
  aligned w -> uuid_like (uuidv4 env (uuids w)) -> followed r = true ->
  snd (handle env w r) <> OutsideModel /\ aligned (fst (handle env w r)).
Proof.
  intros Al Hid Hf.
  destruct r as [e p n|e p|u n d rg|u|u b p body|u b p|u b p|u b
                |u b q k|u b items|u|]; simpl.
  - (* register *)
    unfold register.
    destruct (negb (given e) || negb (given p)); [split; [discriminate|exact Al]|].
    destruct (truthy (get (users w) (or_else e ""))) eqn:T;
      [split; [discriminate|exact Al]|].
    rewrite (assign_defined _ _ _ T). split; [discriminate|exact Al].
  - (* login *)
    unfold login. repeat next_case; split; try discriminate; exact Al.
  - (* create bucket *)
    unfold create_bucket.
    destruct (negb (given n)); [split; [discriminate|exact Al]|].
    rewrite !(uuid_like_assign _ _ Hid). split; [discriminate|].
    intros c Hc. simpl in *.
    destruct (own_put_inv _ _ _ _ Hc) as [->|Hc'].
    + rewrite own_put_same. discriminate.
    + apply own_put_keeps, Al, Hc'.
  - (* list buckets *)
    split; [discriminate|exact Al].
  - (* write *)
    destruct (access w u b) as [refusal|] eqn:A.
    + unfold put_data. rewrite A. split; [|exact Al].
      simpl. apply (access_within_model _ _ _ A).
    + destruct (aligned_has_bucket _ _ Al A) as [docs HB].
      destruct (put_data_granted env p body HB) as [E _]. rewrite E.
      split; [discriminate|]. simpl.
      apply aligned_after_write with (w := w) (b := b); simpl; auto.
      * intros c. apply own_recount_inv.
      * intros c Hc. apply own_put_other. congruence.
      * rewrite own_put_same. discriminate.
  - (* read *)
    destruct (access w u b) as [refusal|] eqn:A.
    + unfold get_data. rewrite A. split; [|exact Al].
      simpl. apply (access_within_model _ _ _ A).
    + destruct (aligned_has_bucket _ _ Al A) as [docs HB].
      rewrite (get_data_granted p HB). split; [|exact Al].
      destruct (value_truthy (docs_get docs p)); discriminate.
  - (* delete *)
    destruct (access w u b) as [refusal|] eqn:A.
    + unfold delete_data. rewrite A. split; [|exact Al].
      simpl. apply (access_within_model _ _ _ A).
    + destruct (aligned_has_bucket _ _ Al A) as [docs HB].
      destruct (delete_data_granted p HB) as [E _]. rewrite E.
      destruct (value_truthy (docs_get docs p)); [|split; [discriminate|exact Al]].
      split; [discriminate|]. simpl.
      apply aligned_after_write with (w := w) (b := b); simpl; auto.
      * intros c. apply own_recount_inv.
      * intros c Hc. apply own_put_other. congruence.
      * rewrite own_put_same. discriminate.
  - (* list *)
    destruct (access w u b) as [refusal|] eqn:A.
    + unfold list_items. rewrite A. split; [|exact Al].
      simpl. apply (access_within_model _ _ _ A).
    + destruct (aligned_has_bucket _ _ Al A) as [docs [_ Hd]].
      unfold list_items. rewrite A. apply get_Own in Hd. rewrite Hd.
      split; [discriminate|exact Al].
  - (* search *)
    destruct (access w u b) as [refusal|] eqn:A.
    + unfold vector_search. rewrite A. split; [|exact Al].
      simpl. apply (access_within_model _ _ _ A).
    + destruct (aligned_has_bucket _ _ Al A) as [docs [_ Hd]].
      unfold vector_search. rewrite A. apply get_Own in Hd. rewrite Hd.
      split; [discriminate|exact Al].
  - (* batch write *)
    destruct (access w u b) as [refusal|] eqn:A.
    + unfold batch_write. rewrite A. split; [|exact Al].
      simpl. apply (access_within_model _ _ _ A).
    + destruct (aligned_has_bucket _ _ Al A) as [docs [_ Hd]].
      unfold batch_write, ensure_docs. rewrite A.
      destruct items as [[| | | |l|]|]; try (split; [discriminate|exact Al]).
      pose proof Hd as G. apply get_Own in G. rewrite G. cbn [truthy].
      destruct (@write_items_in_order env b l (databases w) (dates w) docs Hd
                                      (printed_leading l Hf))
        as [I1 [I2 I3]].
      destruct (write_items env (databases w) (dates w) b l)
        as [[dbs' read] [results| |]] eqn:W.
      * split; [discriminate|]. simpl in *.
        apply write_items_own in W. destruct W as [W1 _].
        apply aligned_after_write with (w := w) (b := b); simpl; auto.
        -- intros c. apply own_recount_inv.
        -- rewrite I1. discriminate.
      * split; [discriminate|]. simpl in *.
        apply write_items_own in W. destruct W as [W1 _].
        apply aligned_after_write with (w := w) (b := b); simpl; auto.
        rewrite I1. discriminate.
      * exfalso. simpl in *.
        assert (N : leading_writable l <> l).
        { intros E. specialize (I2 E). discriminate. }
        specialize (I3 N). discriminate.
  - (* stats *)
    split; [discriminate|exact Al].
  - (* health *)
    split; [discriminate|exact Al].
Qed.

(** No request of a run from start-up whose keys are printed is answered
    [OutsideModel]. *)
Lemma served_within_model n rs : forall w w' answers,
  usable_ids env n -> aligned w -> uuids w + List.length rs <= n ->
  forallb followed rs = true ->
  serve env w rs = (w', answers) ->
  Forall (fun a => a <> OutsideModel) answers.
Proof.
  induction rs as [|r rest IH]; intros w w' answers Hids Al Hn Hf;
    cbn [serve].
  - intros [= <- <-]. constructor.
  - simpl in Hn. cbn [forallb] in Hf. apply andb_prop in Hf.
    destruct Hf as [Hf Hrest].
    destruct (handle env w r) as [w1 a] eqn:H.
    destruct (serve env w1 rest) as [w2 answers'] eqn:S.
    intros [= <- <-].
    destruct (@within_model_step w r Al) as [Ha Al1]; [|exact Hf|].
    { apply usable_ids_shape with n; [exact Hids|lia]. }
    rewrite H in Ha, Al1. simpl in Ha, Al1.
    destruct (handle_outline _ _ _ H) as [Hu _].
    constructor; [exact Ha|].
    eapply IH; [exact Hids|exact Al1| |exact Hrest|exact S]. lia.
Qed.

End ModelFacts.

(* ===================================================================== *)
(** * The scenarios of the specification *)
(* ===================================================================== *)

(** Register, create a bucket, write [/u/1], read it back, list, delete,
    list again: one entry, then none, and an item count of 0. *)
Example scenario_write_read_delete :
  snd (serve Demo.env init
             [ Register (Some "a@x.com") (Some "pw") (Some "A");
               CreateBucket Demo.alice (Some "b1") None None;
               PutData Demo.alice Demo.notes "/u/1" (JObj [("n", JNum 1)]);
               GetData Demo.alice Demo.notes "/u/1";
               ListItems Demo.alice Demo.notes;
               DeleteData Demo.alice Demo.notes "/u/1";
               ListItems Demo.alice Demo.notes;
               ListBuckets Demo.alice ]) =
  [ Registered Demo.alice "a@x.com"
               {| token_userId := Demo.alice; token_email := "a@x.com" |};
    BucketCreated Demo.notes "b1";
    Stored Demo.notes "/u/1" 1700000000004%Z;
    Fetched "/u/1" (VJson (JObj [("n", JNum 1)]))
            (VDate 1700000000002%Z) (VDate 1700000000003%Z) (VNumber 7);
    ItemList Demo.notes 1
             [{| info_path := "/u/1"; info_size := 7;
                 info_createdAt := 1700000000002%Z;
                 info_updatedAt := 1700000000003%Z |}];
    Deleted;
    ItemList Demo.notes 0 [];
    BucketList [{| bucketId := Demo.notes; name := "b1"; owner := Demo.alice;
                   durability := "standard"; region := "us-east-1";
                   bucket_createdAt := 1700000000001%Z; itemCount := 0 |}] ].
Proof. vm_compute. reflexivity. Qed.

(** A batch of two items, then the list: two entries, of sizes 1 and 1. *)
Example scenario_batch_then_list :
  snd (serve Demo.env Demo.started
             [ BatchWrite Demo.alice Demo.notes (Some (JArr Demo.sound_batch));
               ListItems Demo.alice Demo.notes ]) =
  [ BatchResults [ {| entry_path := Some (JStr "/a"); entry_status := "success" |};
                   {| entry_path := Some (JStr "/b"); entry_status := "success" |} ]
                 2;
    ItemList Demo.notes 2
             [ {| info_path := "/a"; info_size := 1;
                  info_createdAt := 1700000000002%Z;
                  info_updatedAt := 1700000000003%Z |};
               {| info_path := "/b"; info_size := 1;
                  info_createdAt := 1700000000004%Z;
                  info_updatedAt := 1700000000005%Z |} ] ].
Proof. vm_compute. reflexivity. Qed.

(** The same identifier registered twice, and a login with a wrong
    secret. *)
Example scenario_duplicate_and_wrong_secret :
  map status_of
      (snd (serve Demo.env init
                  [ Register (Some "dup@x.com") (Some "pw") None;
                    Register (Some "dup@x.com") (Some "pw") None;
                    Login (Some "dup@x.com") (Some "wrongpw");
                    Login (Some "dup@x.com") (Some "pw") ])) =
  [201; 409; 401; 200].
Proof. vm_compute. reflexivity. Qed.

(** A batch write that throws leaves the item count as it was, while the
    items before the throw are stored: the count is recomputed only at the
    end of the handler. *)
Example broken_batch_leaves_count_behind :
  let w := fst (batch_write Demo.env Demo.started Demo.alice Demo.notes
                            (Some (JArr Demo.broken_batch))) in
  option_map itemCount (own (buckets w) Demo.notes) = Some 0 /\
  option_map (fun docs => List.length (keys (props docs)))
             (own (databases w) Demo.notes) = Some 1.
Proof. vm_compute. split; reflexivity. Qed.

(* ===================================================================== *)
(** * The middleware *)
(* ===================================================================== *)

Import Gateway.

Section GatewayFacts.
Variable verify : string -> option Token.
Variable env : Env.

Lemma split_on_word (sep : ascii) (word rest : string) :
  (forall c, In c (list_ascii_of_string word) -> Ascii.eqb c sep = false) ->
  split_on sep (word ++ String sep rest)%string = word :: split_on sep rest.
Proof.
  induction word as [|c word IH]; intros H; simpl.
  - now rewrite Ascii.eqb_refl.
  - rewrite (H c) by (simpl; auto).
    rewrite IH by (intros c' Hc'; apply H; simpl; auto). reflexivity.
Qed.

Lemma split_on_one_word (sep : ascii) (word : string) :
  (forall c, In c (list_ascii_of_string word) -> Ascii.eqb c sep = false) ->
  split_on sep word = [word].
Proof.
  induction word as [|c word IH]; intros H; simpl; [reflexivity|].
  rewrite (H c) by (simpl; auto).
  rewrite IH by (intros c' Hc'; apply H; simpl; auto). reflexivity.
Qed.

Lemma has_no_space_chars (s : string) :
  has_no_space s = true ->
  forall c, In c (list_ascii_of_string s) -> Ascii.eqb c " " = false.
Proof.
  induction s as [|a s IH]; simpl; [tauto|].
  intros H c [<-|Hc].
  - apply andb_prop in H. destruct H as [H _].
    now destruct (Ascii.eqb a " ").
  - apply andb_prop in H. destruct H as [_ H]. now apply IH.
Qed.

Lemma append_space_not_empty (word rest : string) :
  ((word ++ String " " rest)%string =? "") = false.
Proof. destruct word; reflexivity. Qed.

(** The token is the second word of the header. *)
Lemma bearer_token_second_word (scheme t : string) :
  has_no_space scheme = true -> has_no_space t = true ->
  bearer_token (Some (scheme ++ String " " t)%string) = Some t.
Proof.
  intros Hs Ht. unfold bearer_token. rewrite append_space_not_empty.
  rewrite split_on_word by now apply has_no_space_chars.
  rewrite split_on_one_word by now apply has_no_space_chars.
  reflexivity.
Qed.

Lemma bearer_token_one_word (h : string) :
  has_no_space h = true -> given (bearer_token (Some h)) = false.
Proof.
  intros H. unfold bearer_token. destruct (h =? "") eqn:E; [reflexivity|].
  rewrite split_on_one_word by now apply has_no_space_chars. reflexivity.
Qed.

Lemma bearer_token_no_second_word (scheme rest : string) :
  has_no_space scheme = true ->
  given (bearer_token (Some (scheme ++ String " " (String " " rest))%string)) = false
  /\ given (bearer_token (Some (scheme ++ String " " "")%string)) = false.
Proof.
  intros Hs. unfold bearer_token. rewrite !append_space_not_empty.
  rewrite !split_on_word by now apply has_no_space_chars.
  split; reflexivity.
Qed.

Lemma route_with_token w (scheme t : string) (c : Call) :
  has_no_space scheme = true -> has_no_space t = true -> t <> "" ->
  protected c = true ->
  route verify env w (Some (scheme ++ String " " t)%string) c =
  match verify t with
  | Some decoded => handle env w (as_user (token_userId decoded) c)
  | None => (w, Err 403 "Invalid token")
  end.
Proof.
  intros Hs Ht Hne Hp. unfold route, authenticateToken. rewrite Hp.
  rewrite bearer_token_second_word by assumption.
  apply String.eqb_neq in Hne. unfold given, or_else. rewrite Hne. simpl.
  destruct (verify t); reflexivity.
Qed.

End GatewayFacts.

(** X1. On a protected route the middleware takes the second word of the
    [Authorization] header as the token, whatever the first word is: if
    the verifier accepts it the handler runs for the [userId] of its
    payload, if not the request is answered 403 and changes nothing. *)
Theorem second_word_is_the_token
        (verify : string -> option Token) (env : Env) (w : World)
        (scheme t : string) (c : Call) :
  has_no_space scheme = true -> has_no_space t = true -> t <> "" ->
  protected c = true ->
  route verify env w (Some (scheme ++ String " " t)%string) c =
  match verify t with
  | Some decoded => handle env w (as_user (token_userId decoded) c)
  | None => (w, Err 403 "Invalid token")
  end.
Proof.
  intros Hs Ht Hne Hp. now apply route_with_token.
Qed.

Lemma second_word_is_the_token_witness :
  route Trial.verify Demo.env Demo.started
        (Some ("Token" ++ String " " Trial.token)%string) GetBuckets =
  handle Demo.env Demo.started (ListBuckets Demo.alice).
Proof.
  apply (@second_word_is_the_token
           Trial.verify Demo.env Demo.started "Token" Trial.token GetBuckets).
  - reflexivity.
  - reflexivity.
  - discriminate.
  - reflexivity.
Defined.

(** X2. A request of a client that holds a token is served for the
    [userId] in the payload of that token, also when the client holds an
    API key besides: [getHeaders] sends the token, and the middleware
    finds it. *)
Theorem client_token_reaches_handler
        (verify : string -> option Token) (env : Env) (w : World)
        (client : Sdk.Client) (t : string) (decoded : Token) (c : Call) :
  Sdk.jwt client = Some t -> t <> "" -> has_no_space t = true ->
  verify t = Some decoded ->
  protected c = true ->
  route verify env w (Sdk.authorization client) c =
  handle env w (as_user (token_userId decoded) c).
Proof.
  intros Hj Hne Ht Hv Hp. unfold Sdk.authorization. rewrite Hj.
  pose proof Hne as Hne'. apply String.eqb_neq in Hne'.
  unfold given, or_else. rewrite Hne'. simpl negb. cbv iota.
  change ("Bearer " ++ t)%string with ("Bearer" ++ String " " t)%string.
  rewrite route_with_token; auto. now rewrite Hv.
Qed.

Lemma client_token_reaches_handler_witness :
  route Trial.verify Demo.env Demo.stocked
        (Sdk.authorization Trial.signed_in) (GetDataAt Demo.notes "/u/1") =
  handle Demo.env Demo.stocked (GetData Demo.alice Demo.notes "/u/1").
Proof.
  apply (@client_token_reaches_handler
           Trial.verify Demo.env Demo.stocked Trial.signed_in Trial.token
           {| token_userId := Demo.alice; token_email := "a@x.com" |}
           (GetDataAt Demo.notes "/u/1")).
  - reflexivity.
  - discriminate.
  - reflexivity.
  - reflexivity.
  - reflexivity.
Defined.

(** X3. A request to a protected route without a usable token is
    answered 401 and changes nothing: no [Authorization] header, a header
    of one word, or a header whose second word is empty (nothing, or
    another space, after the first space). *)
Theorem missing_token_is_unauthorized
        (verify : string -> option Token) (env : Env) (w : World)
        (authorization : option string) (c : Call) :
  protected c = true ->
  authorization = None \/
  (exists h, has_no_space h = true /\ authorization = Some h) \/
  (exists scheme rest,
     has_no_space scheme = true /\
     (authorization = Some (scheme ++ String " " "")%string \/
      authorization = Some (scheme ++ String " " (String " " rest))%string)) ->
  route verify env w authorization c = (w, Err 401 "No token provided").
Proof.
  intros Hp H. unfold route, authenticateToken. rewrite Hp.
  assert (G : given (bearer_token authorization) = false).
  { destruct H as [->|[[h [Hh ->]]|[scheme [rest [Hs [->| ->]]]]]].
    - reflexivity.
    - now apply bearer_token_one_word.
    - now apply (bearer_token_no_second_word scheme "").
    - now apply (bearer_token_no_second_word scheme rest). }
  now rewrite G.
Qed.

Lemma missing_token_is_unauthorized_witness :
  route Trial.verify Demo.env Demo.stocked (Some "Bearer")
        (DeleteDataAt Demo.notes "/u/1") =
  (Demo.stocked, Err 401 "No token provided").
Proof.
  apply (@missing_token_is_unauthorized
           Trial.verify Demo.env Demo.stocked (Some "Bearer")
           (DeleteDataAt Demo.notes "/u/1")).
  - reflexivity.
  - right. left. exists "Bearer". split; reflexivity.
Defined.

(* ===================================================================== *)
(** * Principals *)
(* ===================================================================== *)

Section PrincipalFacts.
Variable env : Env.

Lemma falsy_get (V : Type) (d : Dict V) k :
  truthy (get d k) = false -> own d k = None /\ inherited k = false.
Proof.
  unfold get. destruct (own d k); [discriminate|].
  destruct (inherited k); [discriminate|]. auto.
Qed.

(** What a request does to [users]: nothing, unless it registers a new
    principal, who is then put last, under a login identifier that was
    free. *)
Lemma users_after w r :
  users (fst (handle env w r)) = users w \/
  exists e p n user,
    r = Register e p n /\ given e = true /\ given p = true /\
    own (users w) (or_else e "") = None /\ inherited (or_else e "") = false /\
    users (fst (handle env w r)) = put (users w) (or_else e "") user /\
    userId user = uuidv4 env (uuids w) /\ email user = or_else e "" /\
    password user = or_else p "" /\
    uuids (fst (handle env w r)) = S (uuids w) /\
    snd (handle env w r) =
      Registered (userId user) (or_else e "")
                 {| token_userId := userId user; token_email := or_else e "" |}.
Proof.
  destruct r as [e p n|e p|u n d rg|u|u b p body|u b p|u b p|u b
                |u b q k|u b items|u|]; simpl;
    unfold register, login, create_bucket, list_buckets, put_data, get_data,
           delete_data, list_items, vector_search, batch_write, stats, health.
  1: { destruct (given e) eqn:Ge; simpl; [|now left].
       destruct (given p) eqn:Gp; simpl; [|now left].
       destruct (truthy (get (users w) (or_else e ""))) eqn:T; [now left|].
       rewrite (assign_defined _ _ _ T). simpl.
       destruct (falsy_get _ _ T) as [Ho Hi].
       right. eexists e, p, n, _. repeat split; auto. }
  all: repeat next_case; simpl; now left.
Qed.



(** No principal is stored under the name of a member of
    [Object.prototype]. *)
Lemma inherited_name_stays_free w r e :
  inherited e = true -> own (users w) e = None ->
  own (users (fst (handle env w r))) e = None.
Proof.
  intros Hi H. destruct (users_after w r) as [->|[e' [p [n [user' [_ [_ [_ [_ [Hi' [-> _]]]]]]]]]]].
  - exact H.
  - rewrite own_put_other; [exact H|]. intros E. congruence.
Qed.

Lemma inherited_name_free_serve rs : forall w w' answers e,
  inherited e = true -> own (users w) e = None ->
  serve env w rs = (w', answers) -> own (users w') e = None.
Proof.
  induction rs as [|r rest IH]; intros w w' answers e Hi H; cbn [serve].
  - now intros [= <- _].
  - destruct (handle env w r) as [w1 a] eqn:E.
    destruct (serve env w1 rest) as [w2 answers'] eqn:S.
    intros [= <- _]. eapply IH; [exact Hi| |exact S].
    replace w1 with (fst (handle env w r)) by now rewrite E.
    now apply inherited_name_stays_free.
Qed.

End PrincipalFacts.



(** X5. The name of a member of [Object.prototype] ([constructor],
    [toString], [__proto__], ...) cannot be used as a login identifier:
    in every run from start-up, registering it is answered 409 as if it
    were taken, and logging in with it is answered 401, whatever the
    secret. *)
Theorem inherited_login_id_is_unusable
        (env : Env) (rs : list Request) (w : World) (answers : list Response)
        (e p : string) (n : option string) :
  serve env init rs = (w, answers) ->
  inherited e = true -> p <> "" ->
  register env w (Some e) (Some p) n = (w, Err 409 "User already exists") /\
  login w (Some e) (Some p) = (w, Err 401 "Invalid credentials").
Proof.
  intros Hs Hi Hp.
  assert (He : (e =? "") = false).
  { destruct (e =? "") eqn:E; [|reflexivity].
    apply String.eqb_eq in E. subst e. vm_compute in Hi. discriminate. }
  apply String.eqb_neq in Hp.
  assert (O : own (users w) e = None).
  { eapply inherited_name_free_serve; [exact Hi| |exact Hs]. reflexivity. }
  assert (G : get (users w) e = Inherited).
  { unfold get. now rewrite O, Hi. }
  unfold register, login, given, or_else. rewrite He, Hp. simpl.
  rewrite G. simpl. auto.
Qed.

Lemma inherited_login_id_is_unusable_witness :
  register Demo.env (fst (serve Demo.env init Demo.history))
           (Some "constructor") (Some "pw") None =
    (fst (serve Demo.env init Demo.history), Err 409 "User already exists") /\
  login (fst (serve Demo.env init Demo.history))
        (Some "constructor") (Some "pw") =
    (fst (serve Demo.env init Demo.history), Err 401 "Invalid credentials").
Proof.
  apply (@inherited_login_id_is_unusable
           Demo.env Demo.history (fst (serve Demo.env init Demo.history))
           (snd (serve Demo.env init Demo.history)) "constructor" "pw" None).
  - apply surjective_pairing.
  - vm_compute. reflexivity.
  - discriminate.
Defined.

(* ===================================================================== *)
(** * What a request leaves alone *)
(* ===================================================================== *)

Section FrameFacts.
Variable env : Env.

Lemma reads_only_step w r :
  reads_only r = true -> same_stores w (fst (handle env w r)).
Proof.
  unfold same_stores.
  destruct r as [e p n|e p|u n d rg|u|u b p body|u b p|u b p|u b
                |u b q k|u b items|u|]; simpl; try discriminate; intros _;
    unfold login, list_buckets, get_data, list_items, vector_search, stats,
           health;
    repeat next_case; simpl; auto.
Qed.

Lemma docs_get_assign_other docs p p' item :
  p <> "__proto__" -> p' <> p ->
  docs_get (docs_assign docs p item) p' = docs_get docs p'.
Proof.
  intros Hp Hne. apply String.eqb_neq in Hp.
  unfold docs_assign. rewrite Hp.
  assert (E : docs_get {| props := put (props docs) p item; proto := proto docs |} p'
              = docs_get docs p').
  { unfold docs_get. cbn [props proto]. rewrite own_put_other by congruence.
    reflexivity. }
  destruct (own (props docs) p); exact E.
Qed.

Lemma docs_get_delete_other docs p p' :
  p' <> p -> docs_get (docs_delete docs p) p' = docs_get docs p'.
Proof.
  intros Hne. unfold docs_get, docs_delete. cbn [props proto].
  rewrite own_remove_other by congruence. reflexivity.
Qed.

End FrameFacts.

(** X6. Logins, listings of buckets and of items, reads, searches, stats
    and health checks, in any number and order and whatever they are
    answered, leave the users, the buckets with their item counts and the
    documents as they were. *)
Theorem reads_change_no_store
        (env : Env) (rs : list Request) (w w' : World) (answers : list Response) :
  forallb reads_only rs = true ->
  serve env w rs = (w', answers) ->
  same_stores w w'.
Proof.
  revert w w' answers.
  induction rs as [|r rest IH]; intros w w' answers; cbn [serve forallb].
  - intros _ [= <- _]. repeat split.
  - intros H. apply andb_prop in H. destruct H as [Hr Hrest].
    destruct (handle env w r) as [w1 a] eqn:E.
    destruct (serve env w1 rest) as [w2 answers'] eqn:S.
    intros [= <- _].
    pose proof (reads_only_step env w r Hr) as [U1 [B1 D1]].
    rewrite E in U1, B1, D1. simpl in U1, B1, D1.
    destruct (IH _ _ _ Hrest S) as [U2 [B2 D2]].
    repeat split; congruence.
Qed.

Lemma reads_change_no_store_witness :
  same_stores Demo.busy
    (fst (serve Demo.env Demo.busy
                [ GetData Demo.alice Demo.notes "/a";
                  VectorSearch Demo.alice Demo.notes None (Some 1%Z);
                  ListItems Demo.bob Demo.notes;
                  GetStats Demo.alice; Health ])).
Proof.
  apply (@reads_change_no_store
           Demo.env
           [ GetData Demo.alice Demo.notes "/a";
             VectorSearch Demo.alice Demo.notes None (Some 1%Z);
             ListItems Demo.bob Demo.notes;
             GetStats Demo.alice; Health ]
           Demo.busy _
           (snd (serve Demo.env Demo.busy
                       [ GetData Demo.alice Demo.notes "/a";
                         VectorSearch Demo.alice Demo.notes None (Some 1%Z);
                         ListItems Demo.bob Demo.notes;
                         GetStats Demo.alice; Health ]))).
  - reflexivity.
  - apply surjective_pairing.
Defined.

(** X7. A request that does not name bucket [b'] in its path leaves the
    record of [b'] and the documents of [b'] as they were, whoever sends
    it and whatever it is answered; for the creation of a bucket, [b'] is
    not the identifier the [uuid] package hands out next. *)
Theorem other_buckets_untouched
        (env : Env) (w : World) (r : Request) (b' : string) :
  addressed r <> Some b' ->
  uuidv4 env (uuids w) <> b' ->
  own (buckets (fst (handle env w r))) b' = own (buckets w) b' /\
  own (databases (fst (handle env w r))) b' = own (databases w) b'.
Proof.
  intros Ha Hid.
  destruct r as [e p n|e p|u n d rg|u|u b p body|u b p|u b p|u b
                |u b q k|u b items|u|]; simpl in *;
    unfold register, login, create_bucket, list_buckets, get_data,
           list_items, vector_search, stats, health;
    try (repeat next_case; simpl; auto; fail).
  - (* create bucket *)
    unfold assign. repeat next_case; simpl; auto.
    rewrite !own_put_other by assumption. auto.
  - (* write *)
    assert (Hne : b' <> b) by congruence.
    unfold put_data.
    destruct (access w u b); [auto|].
    destruct (ensure_docs (databases w) b) as [dbs|] eqn:E; [|auto].
    destruct (store dbs b p _) as [dbs'|] eqn:S; [|auto].
    apply ensure_docs_own in E. destruct E as [E1 _].
    apply store_own in S. destruct S as [S1 _]. simpl. split.
    + now apply own_recount_other.
    + rewrite S1, E1; auto.
  - (* delete *)
    assert (Hne : b' <> b) by congruence.
    unfold delete_data.
    destruct (access w u b); [auto|].
    destruct (get (databases w) b) as [docs| |]; auto.
    destruct (negb (value_truthy (docs_get docs p))); [auto|]. simpl. split.
    + now apply own_recount_other.
    + apply own_put_other. congruence.
  - (* batch write *)
    assert (Hne : b' <> b) by congruence.
    unfold batch_write.
    destruct (access w u b); [auto|].
    destruct items as [[| | | |l|]|]; auto.
    destruct (ensure_docs (databases w) b) as [dbs|] eqn:E; [|auto].
    apply ensure_docs_own in E. destruct E as [E1 _].
    destruct (write_items env dbs (dates w) b l) as [[dbs' read] [results| |]] eqn:W;
      simpl; auto; apply write_items_own in W; destruct W as [W1 _].
    + split; [now apply own_recount_other|]. rewrite W1, E1; auto.
    + split; [reflexivity|]. rewrite W1, E1; auto.
Qed.

Lemma other_buckets_untouched_witness :
  own (buckets (fst (handle Demo.env Trial.shared
                            (DeleteData Demo.alice Demo.notes "/u/1"))))
      Trial.ledger
  = own (buckets Trial.shared) Trial.ledger /\
  own (databases (fst (handle Demo.env Trial.shared
                              (DeleteData Demo.alice Demo.notes "/u/1"))))
      Trial.ledger
  = own (databases Trial.shared) Trial.ledger.
Proof.
  apply (@other_buckets_untouched
           Demo.env Trial.shared
           (DeleteData Demo.alice Demo.notes "/u/1") Trial.ledger).
  - discriminate.
  - vm_compute. discriminate.
Defined.

(* ===================================================================== *)
(** * Paths *)
(* ===================================================================== *)

Section PathFacts.
Variable env : Env.

Lemma remove_absent (V : Type) (d : Dict V) k : own d k = None -> remove d k = d.
Proof.
  unfold remove. induction d as [|[k' v] d IH]; simpl; [reflexivity|].
  destruct (k' =? k); [discriminate|]. intros H. simpl. now rewrite IH.
Qed.

Lemma not_key_after_remove (V : Type) (d : Dict V) k : ~ In k (map fst (remove d k)).
Proof. apply own_None_not_key, own_remove_same. Qed.

(** What a list request by the owner answers. *)
Lemma list_items_granted w u b docs :
  has_bucket w u b docs ->
  list_items w u b =
  (w, ItemList b (List.length (map item_info (entries (props docs))))
               (map item_info (entries (props docs)))).
Proof.
  intros HB. pose proof (has_bucket_access HB) as A.
  destruct HB as [_ Hd]. unfold list_items. rewrite A.
  apply get_Own in Hd. now rewrite Hd.
Qed.

Lemma listed_paths (d : Dict Item) : map info_path (map item_info (entries d)) = keys d.
Proof. unfold keys. rewrite map_map. reflexivity. Qed.

Lemma key_listed_is_key (V : Type) (d : Dict V) k : In k (keys d) -> In k (map fst d).
Proof.
  unfold keys. intros H. apply in_map_iff in H. destruct H as [kv [<- H]].
  apply in_map. now apply In_entries.
Qed.

End PathFacts.

(** X8. A write or a delete under one path does not change what a read of
    another path of the bucket answers; for the write, the path written
    is not [__proto__]. *)
Theorem other_paths_unchanged
        (env : Env) (w : World) (u b p p' : string) (body : JSON) (docs : Docs) :
  has_bucket w u b docs ->
  p' <> p ->
  (p <> "__proto__" ->
   snd (get_data (fst (put_data env w u b p body)) u b p') =
   snd (get_data w u b p')) /\
  snd (get_data (fst (delete_data w u b p)) u b p') = snd (get_data w u b p').
Proof.
  intros HB Hne. split.
  - intros Hp. destruct (put_data_granted env p body HB) as [_ HB'].
    rewrite (get_data_granted p' HB'), (get_data_granted p' HB).
    now rewrite docs_get_assign_other.
  - destruct (delete_data_granted p HB) as [E HB'].
    destruct (value_truthy (docs_get docs p)) eqn:T.
    + specialize (HB' eq_refl).
      rewrite (get_data_granted p' HB'), (get_data_granted p' HB).
      now rewrite docs_get_delete_other.
    + rewrite E. reflexivity.
Qed.

Lemma other_paths_unchanged_witness :
  (snd (get_data (fst (put_data Demo.env Demo.busy Demo.alice Demo.notes "/b"
                                (JObj [("v", JStr "new")])))
                 Demo.alice Demo.notes "/a") =
   snd (get_data Demo.busy Demo.alice Demo.notes "/a")) /\
  snd (get_data (fst (delete_data Demo.busy Demo.alice Demo.notes "/b"))
                Demo.alice Demo.notes "/a") =
  snd (get_data Demo.busy Demo.alice Demo.notes "/a").
Proof.
  destruct (@other_paths_unchanged
              Demo.env Demo.busy Demo.alice Demo.notes "/b" "/a" (JObj [("v", JStr "new")])
              {| props := [ ("/a", new_item Demo.env 5 (JNum 1));
                            ("/b", new_item Demo.env 7 (JNum 2));
                            ("7", new_item Demo.env 9 (JStr "seven")) ];
                 proto := None |}) as [H1 H2].
  - split; [eexists; split|]; vm_compute; reflexivity.
  - discriminate.
  - split; [apply H1; discriminate|exact H2].
Defined.

(** X9. After a delete that succeeded, under a path that is not the name
    of a member of [Object.prototype] and in a bucket whose prototype no
    write replaced, a read of the path is answered 404 and the list of the
    bucket does not hold the path. *)
Theorem deleted_document_is_gone
        (w : World) (u b p : string) (docs : Docs) :
  has_bucket w u b docs -> proto docs = None -> inherited p = false ->
  snd (delete_data w u b p) = Deleted ->
  snd (get_data (fst (delete_data w u b p)) u b p) = Err 404 "Data not found" /\
  exists items,
    snd (list_items (fst (delete_data w u b p)) u b) =
      ItemList b (List.length items) items /\
    ~ In p (map info_path items).
Proof.
  intros HB Hp Hi Hd.
  destruct (delete_data_granted p HB) as [E HB'].
  destruct (value_truthy (docs_get docs p)) eqn:T;
    [|rewrite E in Hd; discriminate].
  specialize (HB' eq_refl). split.
  - rewrite (get_data_granted p HB').
    unfold docs_get. rewrite own_docs_delete. cbn [proto docs_delete].
    rewrite Hp. unfold builtin_or_undefined. rewrite Hi. reflexivity.
  - rewrite (list_items_granted HB'). eexists. split; [reflexivity|].
    rewrite listed_paths. intros H. apply key_listed_is_key in H.
    revert H. apply not_key_after_remove.
Qed.

Lemma deleted_document_is_gone_witness :
  snd (get_data (fst (delete_data Demo.stocked Demo.alice Demo.notes "/u/1"))
                Demo.alice Demo.notes "/u/1") = Err 404 "Data not found" /\
  exists items,
    snd (list_items (fst (delete_data Demo.stocked Demo.alice Demo.notes "/u/1"))
                    Demo.alice Demo.notes) =
      ItemList Demo.notes (List.length items) items /\
    ~ In "/u/1" (map info_path items).
Proof.
  apply (@deleted_document_is_gone
           Demo.stocked Demo.alice Demo.notes "/u/1"
           {| props := [("/u/1", new_item Demo.env 2 (JObj [("n", JNum 1)]))];
              proto := None |}).
  - split; [eexists; split|]; vm_compute; reflexivity.
  - reflexivity.
  - vm_compute. reflexivity.
  - vm_compute. reflexivity.
Defined.

(** X10. A document written under the path [__proto__] becomes the
    prototype of the documents object and no property of it: the write is
    answered as stored and a read returns the payload, but the list of
    the bucket is what it was, and a delete of the path is answered as
    deleted and removes nothing, so that the read after it still returns
    the payload. *)
Theorem proto_document_is_hidden
        (env : Env) (w : World) (u b : string) (body : JSON) (docs : Docs) :
  has_bucket w u b docs ->
  own (props docs) "__proto__" = None ->
  snd (put_data env w u b "__proto__" body) =
    Stored b "__proto__" (now env (2 + dates w)) /\
  snd (list_items (fst (put_data env w u b "__proto__" body)) u b) =
    snd (list_items w u b) /\
  snd (delete_data (fst (put_data env w u b "__proto__" body)) u b "__proto__") =
    Deleted /\
  snd (get_data (fst (delete_data (fst (put_data env w u b "__proto__" body))
                                  u b "__proto__"))
                u b "__proto__") =
    Fetched "__proto__" (VJson body) (VDate (now env (dates w)))
            (VDate (now env (S (dates w))))
            (VNumber (utf16_length (stringify body))).
Proof.
  intros HB Ho.
  destruct (put_data_granted env "__proto__" body HB) as [E HB1].
  assert (A : docs_assign docs "__proto__" (new_item env (dates w) body) =
              {| props := props docs;
                 proto := Some (new_item env (dates w) body) |}).
  { unfold docs_assign. now rewrite Ho. }
  rewrite A in HB1.
  assert (G : forall d, props d = props docs ->
                proto d = Some (new_item env (dates w) body) ->
                docs_get d "__proto__" = VItem (new_item env (dates w) body)).
  { intros d Hp Hq. unfold docs_get. now rewrite Hp, Ho, Hq. }
  destruct (delete_data_granted "__proto__" HB1) as [E2 HB2].
  rewrite (G {| props := props docs;
                 proto := Some (new_item env (dates w) body) |}
              eq_refl eq_refl) in E2, HB2.
  specialize (HB2 eq_refl).
  split; [now rewrite E|]. split.
  { now rewrite (list_items_granted HB1), (list_items_granted HB). }
  split; [now rewrite E2|].
  rewrite (get_data_granted "__proto__" HB2), G; [reflexivity| |reflexivity].
  unfold docs_delete. cbn [props]. now apply remove_absent.
Qed.

Lemma proto_document_is_hidden_witness :
  snd (put_data Demo.env Demo.stocked Demo.alice Demo.notes "__proto__" (JObj [("n", JNum 5)])) =
    Stored Demo.notes "__proto__" (now Demo.env (2 + dates Demo.stocked)) /\
  snd (list_items (fst (put_data Demo.env Demo.stocked Demo.alice Demo.notes
                                 "__proto__" (JObj [("n", JNum 5)])))
                  Demo.alice Demo.notes) =
    snd (list_items Demo.stocked Demo.alice Demo.notes) /\
  snd (delete_data (fst (put_data Demo.env Demo.stocked Demo.alice Demo.notes
                                  "__proto__" (JObj [("n", JNum 5)])))
                   Demo.alice Demo.notes "__proto__") = Deleted /\
  snd (get_data (fst (delete_data
                        (fst (put_data Demo.env Demo.stocked Demo.alice Demo.notes
                                       "__proto__" (JObj [("n", JNum 5)])))
                        Demo.alice Demo.notes "__proto__"))
                Demo.alice Demo.notes "__proto__") =
    Fetched "__proto__" (VJson (JObj [("n", JNum 5)])) (VDate (now Demo.env (dates Demo.stocked)))
            (VDate (now Demo.env (S (dates Demo.stocked))))
            (VNumber (utf16_length (stringify (JObj [("n", JNum 5)])))).
Proof.
  apply (@proto_document_is_hidden
           Demo.env Demo.stocked Demo.alice Demo.notes (JObj [("n", JNum 5)])
           {| props := [("/u/1", new_item Demo.env 2 (JObj [("n", JNum 1)]))];
              proto := None |}).
  - split; [eexists; split|]; vm_compute; reflexivity.
  - reflexivity.
Defined.

(** X11. Under a path that names a member of [Object.prototype], in a
    bucket that holds no document there and whose prototype no write
    replaced, a read is answered 200 with no field defined, and a delete
    is answered as deleted and leaves the documents as they are. *)
Theorem inherited_names_pass_for_documents
        (w : World) (u b p : string) (docs : Docs) :
  has_bucket w u b docs ->
  own (props docs) p = None -> proto docs = None -> inherited p = true ->
  get_data w u b p = (w, Fetched p VUndefined VUndefined VUndefined VUndefined) /\
  snd (delete_data w u b p) = Deleted /\
  own (databases (fst (delete_data w u b p))) b = Some docs.
Proof.
  intros HB Ho Hp Hi.
  assert (G : docs_get docs p = VBuiltin).
  { unfold docs_get, builtin_or_undefined. now rewrite Ho, Hp, Hi. }
  split; [|split].
  - rewrite (get_data_granted p HB), G. reflexivity.
  - destruct (delete_data_granted p HB) as [E _]. rewrite E, G. reflexivity.
  - destruct (delete_data_granted p HB) as [E _]. rewrite E, G. simpl.
    rewrite own_put_same. f_equal. unfold docs_delete.
    rewrite (remove_absent _ _ Ho). destruct docs; reflexivity.
Qed.

Lemma inherited_names_pass_for_documents_witness :
  get_data Demo.stocked Demo.alice Demo.notes "toString" =
    (Demo.stocked, Fetched "toString" VUndefined VUndefined VUndefined VUndefined) /\
  snd (delete_data Demo.stocked Demo.alice Demo.notes "toString") = Deleted /\
  own (databases (fst (delete_data Demo.stocked Demo.alice Demo.notes "toString")))
      Demo.notes =
    Some {| props := [("/u/1", new_item Demo.env 2 (JObj [("n", JNum 1)]))];
            proto := None |}.
Proof.
  apply (@inherited_names_pass_for_documents
           Demo.stocked Demo.alice Demo.notes "toString"
           {| props := [("/u/1", new_item Demo.env 2 (JObj [("n", JNum 1)]))];
              proto := None |}).
  - split; [eexists; split|]; vm_compute; reflexivity.
  - reflexivity.
  - reflexivity.
  - vm_compute. reflexivity.
Defined.

(* ===================================================================== *)
(** * The registry of buckets in a run *)
(* ===================================================================== *)

Section RunFacts.
Variable env : Env.

Lemma own_key (V : Type) (d : Dict V) k : own d k <> None <-> In k (map fst d).
Proof.
  split.
  - intros H. destruct (in_dec string_dec k (map fst d)) as [I|N]; [exact I|].
    exfalso. apply H. now apply not_key_own_None.
  - intros I H. revert I. now apply own_None_not_key.
Qed.

Lemma outline_keys bs : map (fun t => fst (fst t)) (outline bs) = map fst bs.
Proof. unfold outline. rewrite map_map. reflexivity. Qed.

(** In a run from start-up every bucket sits under an identifier that the
    [uuid] package handed out. *)
Lemma bucket_keys_handed_out n rs w answers :
  usable_ids env n -> List.length rs <= n ->
  serve env init rs = (w, answers) ->
  uuids w <= List.length rs /\
  forall k, In k (map fst (buckets w)) ->
            exists i, i < uuids w /\ k = uuidv4 env i.
Proof.
  intros Hids Hn Hs.
  assert (R0 : registry_ok env "" init []) by (split; [constructor|reflexivity]).
  destruct (registry_serve Hids rs R0 ltac:(simpl; lia) Hs) as [[R _] Hu].
  simpl in Hu. split; [exact Hu|].
  intros k Hk. rewrite <- outline_keys in Hk.
  apply in_map_iff in Hk. destruct Hk as [t [<- Ht]].
  rewrite Forall_forall in R. destruct (R t Ht) as [Hi _]. exact Hi.
Qed.

Lemma bucket_keys_are_uuids n rs w answers k :
  usable_ids env n -> List.length rs <= n ->
  serve env init rs = (w, answers) ->
  In k (map fst (buckets w)) -> uuid_like k.
Proof.
  intros Hids Hn Hs Hk.
  destruct (@bucket_keys_handed_out n rs w answers Hids Hn Hs) as [Hu H].
  destruct (H k Hk) as [i [Hi ->]].
  apply usable_ids_shape with n; [exact Hids|lia].
Qed.

Lemma own_recount_record bs dbs b0 b bucket :
  own bs b = Some bucket ->
  exists bucket', own (recount bs dbs b0) b = Some bucket' /\
                  same_record bucket' bucket.
Proof.
  intros Hb. destruct (string_dec b b0) as [<-|Hne].
  - unfold recount. rewrite Hb. destruct (own dbs b).
    + eexists. split; [apply own_put_same|]. repeat split.
    + exists bucket. split; [exact Hb|]. repeat split.
  - exists bucket. rewrite own_recount_other by assumption.
    split; [exact Hb|]. repeat split.
Qed.

(** No request removes a bucket or changes anything but the item count of
    its record. *)
Lemma record_step w r b bucket :
  own (buckets w) b = Some bucket -> uuidv4 env (uuids w) <> b ->
  exists bucket', own (buckets (fst (handle env w r))) b = Some bucket' /\
                  same_record bucket' bucket.
Proof.
  intros Hb Hid.
  assert (Same : exists bucket', own (buckets w) b = Some bucket' /\
                                 same_record bucket' bucket).
  { exists bucket. split; [exact Hb|]. repeat split. }
  destruct r as [e p n|e p|u n d rg|u|u b0 p body|u b0 p|u b0 p|u b0
                |u b0 q k|u b0 items|u|]; simpl;
    unfold register, login, create_bucket, list_buckets, put_data, get_data,
           delete_data, list_items, vector_search, batch_write, stats, health.
  3: { unfold assign. repeat next_case; simpl; try exact Same.
       rewrite own_put_other by assumption. exact Same. }
  all: repeat next_case; simpl; try exact Same;
    now apply own_recount_record.
Qed.

End RunFacts.

(** X12. A bucket identifier that names a member of [Object.prototype]
    ([constructor], [toString], [__proto__], ...) is taken for somebody
    else's bucket: in every run from start-up in which the identifiers
    handed out are uuids, every request on such a bucket is answered 403
    and not 404, whoever sends it, and changes nothing. *)
Theorem inherited_bucket_id_is_forbidden
        (env : Env) (rs : list Request) (w : World) (answers : list Response)
        (r : Request) (b : string) :
  usable_ids env (List.length rs) ->
  serve env init rs = (w, answers) ->
  inherited b = true ->
  addressed r = Some b ->
  handle env w r = (w, Err 403 "Access denied").
Proof.
  intros Hids Hs Hi Ha.
  assert (O : own (buckets w) b = None).
  { apply not_key_own_None. intros Hk.
    destruct (@bucket_keys_are_uuids env _ rs w answers b Hids (le_n _) Hs Hk) as [_ H].
    congruence. }
  assert (A : forall u, access w u b = Some (Err 403 "Access denied")).
  { intros u. unfold access, get. now rewrite O, Hi. }
  destruct r as [e p n|e p|u n d rg|u|u b0 p body|u b0 p|u b0 p|u b0
                |u b0 q k|u b0 items|u|]; simpl in Ha; try discriminate;
    injection Ha as ->; simpl;
    unfold put_data, get_data, delete_data, list_items, vector_search,
           batch_write;
    now rewrite A.
Qed.

Lemma inherited_bucket_id_is_forbidden_witness :
  handle Demo.env Trial.shared (GetData Demo.alice "constructor" "/u/1") =
  (Trial.shared, Err 403 "Access denied").
Proof.
  apply (@inherited_bucket_id_is_forbidden
           Demo.env Demo.history Trial.shared
           (snd (serve Demo.env init Demo.history))
           (GetData Demo.alice "constructor" "/u/1") "constructor").
  - split.
    + vm_compute. repeat constructor; simpl; intuition discriminate.
    + repeat (constructor; [split; vm_compute; reflexivity|]). constructor.
  - apply surjective_pairing.
  - vm_compute. reflexivity.
  - reflexivity.
Defined.

(** X13. A bucket keeps its record: after the creation of a bucket and
    any further requests, whatever they are answered, the bucket exists
    under the identifier that was returned, with the owner, the name, the
    durability, the region and the creation date it was created with.
    Only its item count changes; the identifiers handed out are distinct
    uuids. *)
Theorem bucket_record_is_kept
        (env : Env) (n : nat) (w0 w1 w : World) (u b nm : string)
        (name0 d rg : option string)
        (rs : list Request) (answers : list Response) :
  usable_ids env n ->
  uuids w1 + List.length rs <= n ->
  create_bucket env w0 u name0 d rg = (w1, BucketCreated b nm) ->
  serve env w1 rs = (w, answers) ->
  exists bucket,
    own (buckets w) b = Some bucket /\
    same_record bucket
      {| bucketId := b; name := nm; owner := u;
         durability := or_else d "standard";
         region := or_else rg "us-east-1";
         bucket_createdAt := now env (dates w0); itemCount := 0 |}.
Proof.
  intros Hids Hn Hc Hs.
  assert (Start : exists i, i < uuids w1 /\ b = uuidv4 env i /\
            exists bucket, own (buckets w1) b = Some bucket /\
              same_record bucket
                {| bucketId := b; name := nm; owner := u;
                   durability := or_else d "standard";
                   region := or_else rg "us-east-1";
                   bucket_createdAt := now env (dates w0); itemCount := 0 |}).
  { revert Hc. unfold create_bucket, assign.
    destruct (negb (given name0)); [discriminate|].
    destruct (uuidv4 env (uuids w0) =? "__proto__"); [discriminate|].
    intros [= <- <- <-]. simpl. exists (uuids w0).
    split; [lia|]. split; [reflexivity|].
    eexists. split; [apply own_put_same|]. repeat split. }
  clear Hc. destruct Start as [i [Hi [Hb Keep]]].
  revert w1 w answers Hn Hs Hi Keep.
  induction rs as [|r rest IH]; intros w1 w answers Hn Hs Hi Keep;
    cbn [serve] in Hs.
  - injection Hs as <- _. exact Keep.
  - simpl in Hn.
    destruct (handle env w1 r) as [w2 a] eqn:E.
    destruct (serve env w2 rest) as [w3 answers'] eqn:S.
    injection Hs as <- _.
    destruct (handle_outline _ _ _ E) as [Hu _].
    destruct Keep as [bucket [Ho Hsame]].
    assert (Hne : uuidv4 env (uuids w1) <> b).
    { intros Heq. rewrite Hb in Heq.
      apply usable_ids_distinct with (n := n) in Heq; [lia|exact Hids|lia|lia]. }
    destruct (@record_step env w1 r b bucket Ho Hne) as [bucket' [Ho' Hsame']].
    rewrite E in Ho'. simpl in Ho'.
    apply (IH w2 w3 answers'); [lia|exact S|lia|].
    exists bucket'. split; [exact Ho'|].
    unfold same_record in *. intuition congruence.
Qed.

Lemma bucket_record_is_kept_witness :
  exists bucket,
    own (buckets Demo.busy) Demo.notes = Some bucket /\
    same_record bucket
      {| bucketId := Demo.notes; name := "b1"; owner := Demo.alice;
         durability := or_else None "standard";
         region := or_else None "us-east-1";
         bucket_createdAt := now Demo.env (dates Demo.registered);
         itemCount := 0 |}.
Proof.
  apply (@bucket_record_is_kept
           Demo.env 6 Demo.registered Demo.started Demo.busy
           Demo.alice Demo.notes "b1" (Some "b1") None None
           Demo.traffic (snd (serve Demo.env Demo.started Demo.traffic))).
  - split.
    + vm_compute. repeat constructor; simpl; intuition discriminate.
    + repeat (constructor; [split; vm_compute; reflexivity|]). constructor.
  - vm_compute. lia.
  - vm_compute. reflexivity.
  - apply surjective_pairing.
Defined.

(* ===================================================================== *)
(** * Identifiers and counts in a run *)
(* ===================================================================== *)

Section IdentifierFacts.
Variable env : Env.
Variable n : nat.
Hypothesis ids_ok : usable_ids env n.

Lemma NoDup_snoc (A : Type) (l : list A) x : NoDup l -> ~ In x l -> NoDup (l ++ [x]).
Proof.
  intros Hl Hx. apply (Permutation_NoDup (Permutation_cons_append l x)).
  now constructor.
Qed.

Lemma ids_step w r :
  uuids w < n ->
  NoDup (ids_in_use w) ->
  Forall (fun id => exists i, i < uuids w /\ id = uuidv4 env i) (ids_in_use w) ->
  NoDup (ids_in_use (fst (handle env w r))) /\
  Forall (fun id => exists i, i < uuids (fst (handle env w r)) /\ id = uuidv4 env i)
         (ids_in_use (fst (handle env w r))).
Proof.
  intros Hlt Hnd Hall.
  pose proof (users_after env w r) as Hus.
  destruct (handle env w r) as [w' a] eqn:E. simpl in *.
  destruct (handle_outline _ _ _ E) as [Hu Hout].
  assert (Fresh : ~ In (uuidv4 env (uuids w)) (ids_in_use w)).
  { intros Hin. rewrite Forall_forall in Hall.
    destruct (Hall _ Hin) as [i [Hi He]].
    apply usable_ids_distinct with (n := n) in He; [lia|exact ids_ok|lia|lia]. }
  assert (Old : Forall (fun id => exists i, i < uuids w' /\ id = uuidv4 env i)
                       (ids_in_use w)).
  { eapply Forall_impl; [|exact Hall]. intros id [i [Hi He]].
    exists i. split; [lia|exact He]. }
  assert (New : uuids w' = S (uuids w) ->
                exists i, i < uuids w' /\ uuidv4 env (uuids w) = uuidv4 env i).
  { intros Hs. exists (uuids w). split; [lia|reflexivity]. }
  unfold ids_in_use in *.
  destruct Hus as [Hsame|(e & p & nm & user & Hr & _ & _ & Ho & _ & Hput & Hid & _ & _ & Hs & _)].
  - rewrite Hsame.
    destruct Hout as [[Hk _]|[u [nm [d [rg [bucket [_ [_ [_ [_ [Hb Hs]]]]]]]]]]].
    + assert (K : map fst (buckets w') = map fst (buckets w)).
      { now rewrite <- !outline_keys, Hk. }
      rewrite K. auto.
    + assert (F : own (buckets w) (uuidv4 env (uuids w)) = None).
      { apply not_key_own_None. intros Hin. apply Fresh.
        apply in_or_app. now right. }
      rewrite Hb, (put_fresh _ _ _ F), map_app, app_assoc. simpl. split.
      * now apply NoDup_snoc.
      * apply Forall_app. split; [exact Old|]. constructor; [auto|constructor].
  - assert (K : map fst (buckets w') = map fst (buckets w)).
    { destruct Hout as [[Hk _]|[u [nm' [d [rg [bucket [Hc _]]]]]]].
      - now rewrite <- !outline_keys, Hk.
      - congruence. }
    rewrite K, Hput, (put_fresh _ _ _ Ho), map_app, <- app_assoc. simpl.
    rewrite Hid. split.
    + apply (Permutation_NoDup (Permutation_middle _ _ _)).
      now constructor.
    + apply Forall_app in Old. destruct Old as [O1 O2].
      apply Forall_app. split; [exact O1|]. constructor; auto.
Qed.

Lemma ids_serve rs : forall w w' answers,
  uuids w + List.length rs <= n ->
  NoDup (ids_in_use w) ->
  Forall (fun id => exists i, i < uuids w /\ id = uuidv4 env i) (ids_in_use w) ->
  serve env w rs = (w', answers) ->
  NoDup (ids_in_use w').
Proof.
  induction rs as [|r rest IH]; intros w w' answers Hn Hnd Hall; cbn [serve].
  - now intros [= <- _].
  - simpl in Hn.
    destruct (@ids_step w r ltac:(lia) Hnd Hall) as [Hnd1 Hall1].
    destruct (handle env w r) as [w1 a] eqn:E.
    destruct (serve env w1 rest) as [w2 answers'] eqn:S.
    intros [= <- _]. simpl in *.
    destruct (handle_outline _ _ _ E) as [Hu _].
    eapply IH; [|exact Hnd1|exact Hall1|exact S]. lia.
Qed.

End IdentifierFacts.

Section CountInRun.
Variable env : Env.

(** Every request that does not end in an exception keeps every bucket
    counted, the one it creates included. *)
Lemma all_counted_step w r :
  all_counted w -> snd (handle env w r) <> Uncaught ->
  all_counted (fst (handle env w r)).
Proof.
  intros C Hu b Hb.
  pose proof (fun H => @counted_step env w r b H Hu) as Step.
  destruct (handle env w r) as [w' a] eqn:E. simpl in *.
  destruct (handle_outline _ _ _ E)
    as [_ [[Hk _]|[u [nm [d [rg [bucket [-> [-> [_ [_ [Hput _]]]]]]]]]]]].
  - apply Step, C. apply own_key. apply own_key in Hb.
    now rewrite <- outline_keys, <- Hk, outline_keys.
  - destruct (string_dec b (uuidv4 env (uuids w))) as [->|Hne].
    + simpl in E. eapply counted_create. exact E.
    + apply Step, C. rewrite Hput, own_put_other in Hb by congruence. exact Hb.
Qed.

Lemma all_counted_serve rs : forall w w' answers,
  all_counted w -> serve env w rs = (w', answers) ->
  Forall (fun a => a <> Uncaught) answers -> all_counted w'.
Proof.
  induction rs as [|r rest IH]; intros w w' answers C; cbn [serve].
  - now intros [= <- _] _.
  - pose proof (@all_counted_step w r C) as Step.
    destruct (handle env w r) as [w1 a] eqn:E.
    destruct (serve env w1 rest) as [w2 answers'] eqn:S.
    intros [= <- <-] F. inversion F as [|? ? Ha F']; subst.
    eapply IH; [|exact S|exact F']. apply Step. exact Ha.
Qed.

Lemma sum_of_counts (l : list Bucket) : forall a,
  fold_left (fun sum b => sum + itemCount b) l a = a + list_sum (map itemCount l).
Proof.
  induction l as [|b l IH]; intros a; simpl; [lia|]. rewrite IH. lia.
Qed.

Lemma In_own (V : Type) (d : Dict V) k v :
  distinct_keys d -> In (k, v) d -> own d k = Some v.
Proof.
  unfold distinct_keys. induction d as [|[k' v'] d IH]; simpl; [tauto|].
  intros Hnd [[= -> ->]|Hin].
  - now rewrite String.eqb_refl.
  - inversion Hnd as [|? ? Hk Hnd']; subst.
    destruct (k' =? k) eqn:E.
    + apply String.eqb_eq in E. subst k'. exfalso. apply Hk.
      apply in_map_iff. exists (k, v). auto.
    + now apply IH.
Qed.

(** On a counted bucket of [u], the item count of the record is the
    number of items the list request answers to [u]. *)
Lemma counted_listed w u k bucket :
  counted w k -> own (buckets w) k = Some bucket -> owner bucket = u ->
  itemCount bucket = listed w u k.
Proof.
  intros [bucket0 [docs [Hb [Hd Hc]]]] Hb' Ho.
  assert (bucket0 = bucket) by congruence. subst bucket0.
  assert (HB : has_bucket w u k docs) by (split; [eauto|exact Hd]).
  unfold listed. rewrite (list_items_granted HB). simpl.
  rewrite Hc. unfold keys. now rewrite !length_map.
Qed.

End CountInRun.

(** X14. In every run from start-up the identifiers in use are pairwise
    distinct: no two principals have the same [userId], no two buckets
    the same identifier, and no bucket has the identifier of a principal
    (the [uuid] package handing out distinct uuids). *)
Theorem identifiers_are_distinct
        (env : Env) (rs : list Request) (w : World) (answers : list Response) :
  usable_ids env (List.length rs) ->
  serve env init rs = (w, answers) ->
  NoDup (ids_in_use w).
Proof.
  intros Hids Hs.
  apply (@ids_serve env (List.length rs) Hids rs init w answers);
    [simpl; lia|constructor|constructor|exact Hs].
Qed.

Lemma identifiers_are_distinct_witness :
  NoDup (ids_in_use Trial.shared).
Proof.
  apply (@identifiers_are_distinct
           Demo.env Demo.history Trial.shared
           (snd (serve Demo.env init Demo.history))).
  - split.
    + vm_compute. repeat constructor; simpl; intuition discriminate.
    + repeat (constructor; [split; vm_compute; reflexivity|]). constructor.
  - apply surjective_pairing.
Defined.

(** In a run from start-up no two buckets have the same identifier. *)
Lemma bucket_keys_distinct
      (env : Env) (rs : list Request) (w : World) (answers : list Response) :
  usable_ids env (List.length rs) ->
  serve env init rs = (w, answers) ->
  distinct_keys (buckets w).
Proof.
  intros Hids Hs.
  pose proof (@ids_serve env (List.length rs) Hids rs init w answers
                         ltac:(simpl; lia) ltac:(constructor)
                         ltac:(constructor) Hs) as N.
  unfold ids_in_use in N. unfold distinct_keys.
  revert N. generalize (map (fun kv => userId (snd kv)) (users w)).
  intros l N. induction l as [|x l IH]; simpl in N; [exact N|].
  apply IH. now inversion N.
Qed.

(** X15. The statistics agree with the lists.  In a run from start-up in
    which no request ended in an exception, what the statistics request
    answers to a principal fits what the list of buckets answers to it:
    [bucketsCount] is the number of buckets in that list, [regions] are
    their regions in the order of the list, and [totalItems] is the sum,
    over the buckets of the list, of the number of items that the list of
    items answers for each. *)
Theorem stats_total_is_sum_of_listings
        (env : Env) (rs : list Request) (w : World) (answers : list Response)
        (u : string) :
  usable_ids env (List.length rs) ->
  serve env init rs = (w, answers) ->
  Forall (fun a => a <> Uncaught) answers ->
  exists listing s,
    handle env w (ListBuckets u) = (w, BucketList listing) /\
    snd (handle env w (GetStats u)) = StatsOk s /\
    bucketsCount s = List.length listing /\
    regions s = map region listing /\
    totalItems s =
      list_sum (map (fun bucket => listed w u (bucketId bucket)) listing).
Proof.
  intros Hids Hs Hok.
  exists (user_buckets w u). eexists.
  split; [reflexivity|]. split; [reflexivity|].
  split; [reflexivity|]. split; [reflexivity|]. cbn [totalItems].
  rewrite sum_of_counts. simpl. f_equal.
  assert (R0 : registry_ok env u init []) by (split; [constructor|reflexivity]).
  destruct (registry_serve Hids rs R0 ltac:(simpl; lia) Hs) as [[R _] _].
  pose proof (@bucket_keys_distinct env rs w answers Hids Hs) as Hnd.
  assert (C : all_counted w).
  { eapply all_counted_serve; [|exact Hs|exact Hok].
    intros b Hb. exfalso. now apply Hb. }
  apply map_ext_in. intros bucket Hin.
  unfold user_buckets in Hin. apply filter_In in Hin. destruct Hin as [Hv Ho].
  apply String.eqb_eq in Ho.
  unfold values in Hv. apply in_map_iff in Hv. destruct Hv as [[k v] [Hk Hin]].
  simpl in Hk. subst v. apply In_entries in Hin.
  assert (Hid : bucketId bucket = k).
  { rewrite Forall_forall in R.
    destruct (R (k, bucketId bucket, owner bucket)) as [_ H]; [|exact H].
    unfold outline. apply in_map_iff. exists (k, bucket). auto. }
  rewrite Hid.
  pose proof (@In_own _ _ k bucket Hnd Hin) as Hb.
  apply counted_listed; [|exact Hb|exact Ho].
  apply C. congruence.
Qed.

Lemma stats_total_is_sum_of_listings_witness :
  exists listing s,
    handle Demo.env Trial.shared (ListBuckets Demo.alice) =
      (Trial.shared, BucketList listing) /\
    snd (handle Demo.env Trial.shared (GetStats Demo.alice)) = StatsOk s /\
    bucketsCount s = List.length listing /\
    regions s = map region listing /\
    totalItems s =
      list_sum (map (fun bucket => listed Trial.shared Demo.alice (bucketId bucket))
                    listing).
Proof.
  apply (@stats_total_is_sum_of_listings
           Demo.env Demo.history Trial.shared
           (snd (serve Demo.env init Demo.history)) Demo.alice).
  - split.
    + vm_compute. repeat constructor; simpl; intuition discriminate.
    + repeat (constructor; [split; vm_compute; reflexivity|]). constructor.
  - apply surjective_pairing.
  - vm_compute. repeat constructor; discriminate.
Defined.

(* ===================================================================== *)
(** * Batches read back *)
(* ===================================================================== *)

Section BatchReadFacts.
Variable env : Env.

(** What a batch write by the owner does. *)
Lemma batch_write_granted w u b docs items :
  has_bucket w u b docs ->
  batch_write env w u b (Some (JArr items)) =
  match write_items env (databases w) (dates w) b items with
  | (dbs', read, Written results) =>
      ({| users := users w; buckets := recount (buckets w) dbs' b;
          databases := dbs'; dates := read; uuids := uuids w;
          randoms := randoms w |},
       BatchResults results (List.length items))
  | (dbs', read, Threw) =>
      ({| users := users w; buckets := buckets w; databases := dbs';
          dates := read; uuids := uuids w; randoms := randoms w |},
       Uncaught)
  | (_, _, Lost) => (w, OutsideModel)
  end.
Proof.
  intros HB. pose proof (has_bucket_access HB) as A. destruct HB as [_ Hd].
  unfold batch_write, ensure_docs. rewrite A.
  apply get_Own in Hd. rewrite Hd. reflexivity.
Qed.

Lemma counted_by_recount bs dbs b bucket docs :
  own bs b = Some bucket -> own dbs b = Some docs ->
  counted_in (recount bs dbs b) dbs b.
Proof.
  intros Hb Hd.
  destruct (own_recount_same _ _ _ Hb Hd) as [bucket' [H1 [H2 _]]].
  exists bucket', docs. auto.
Qed.

Lemma docs_get_item_kept docs p p' x item :
  p' <> p -> docs_get docs p = VItem x ->
  docs_get (docs_assign docs p' item) p = VItem x.
Proof.
  intros Hne. unfold docs_get, docs_assign.
  destruct (own (props docs) p) as [y|] eqn:O.
  - intros E.
    destruct (own (props docs) p'); [|destruct (p' =? "__proto__")];
      cbn [props proto]; rewrite ?own_put_other by assumption;
      now rewrite O.
  - destruct (proto docs) as [i|] eqn:Pr.
    + destruct (p =? "__proto__") eqn:E.
      * apply String.eqb_eq in E. subst p. intros [= ->].
        apply String.eqb_neq in Hne. rewrite Hne.
        destruct (own (props docs) p'); cbn [props proto];
          rewrite own_put_other, O by (now apply String.eqb_neq);
          reflexivity.
      * unfold item_field, builtin_or_undefined.
        repeat next_case; discriminate.
    + unfold builtin_or_undefined. destruct (inherited p); discriminate.
Qed.

Lemma write_one_keeps read docs item p x :
  key_of item <> Key p -> docs_get docs p = VItem x ->
  docs_get (write_one env read docs item) p = VItem x.
Proof.
  intros Hk G. unfold write_one. destruct (json_field item "data"); [|exact G].
  destruct (key_of item) as [key| |]; try exact G.
  apply docs_get_item_kept; [congruence|exact G].
Qed.

Lemma write_each_keeps items : forall read docs p x,
  Forall (fun later => key_of later <> Key p) items ->
  docs_get docs p = VItem x ->
  docs_get (write_each env read docs items) p = VItem x.
Proof.
  induction items as [|item rest IH]; intros read docs p x F G; cbn [write_each].
  - exact G.
  - inversion F as [|? ? Hk F']; subst.
    apply IH; [exact F'|]. now apply write_one_keeps.
Qed.

Lemma write_each_app l1 : forall l2 read docs,
  write_each env read docs (l1 ++ l2) =
  write_each env (2 * List.length l1 + read) (write_each env read docs l1) l2.
Proof.
  induction l1 as [|item l1 IH]; intros l2 read docs; cbn [write_each app].
  - reflexivity.
  - rewrite IH. f_equal. simpl. lia.
Qed.

Lemma all_writable items :
  forallb writable items = true -> leading_writable items = items.
Proof.
  induction items as [|item rest IH]; simpl; [reflexivity|].
  intros H. apply andb_prop in H. destruct H as [H1 H2].
  now rewrite H1, IH.
Qed.

End BatchReadFacts.

(** X16. A write, a delete or a batch write on a bucket of the caller
    that succeeds sets the item count of the bucket to the number of its
    documents, whatever the count was before: a count left behind by a
    batch that threw is right again after the next successful change. *)
Theorem successful_change_recounts
        (env : Env) (w : World) (u b p : string) (body : JSON)
        (items : option JSON) (docs : Docs) (r : Request) :
  has_bucket w u b docs ->
  r = PutData u b p body \/ r = DeleteData u b p \/ r = BatchWrite u b items ->
  succeeded (snd (handle env w r)) = true ->
  counted (fst (handle env w r)) b.
Proof.
  intros HB Hr. pose proof HB as [[bucket [Hb _]] Hd].
  unfold counted.
  destruct Hr as [->|[->| ->]]; simpl.
  - destruct (put_data_granted env p body HB) as [E _]. rewrite E. simpl.
    intros _. eapply counted_by_recount; [exact Hb|apply own_put_same].
  - destruct (delete_data_granted p HB) as [E _]. rewrite E.
    destruct (value_truthy (docs_get docs p)); [|discriminate]. simpl.
    intros _. eapply counted_by_recount; [exact Hb|apply own_put_same].
  - destruct items as [[| | | |l|]|];
      try (unfold batch_write; rewrite (has_bucket_access HB); discriminate).
    rewrite (batch_write_granted env l HB).
    destruct (write_items env (databases w) (dates w) b l)
      as [[dbs' read] out] eqn:W.
    destruct out; try discriminate. simpl. intros _.
    apply write_items_own in W. destruct W as [_ W].
    destruct (W docs Hd) as [docs' O].
    eapply counted_by_recount; [exact Hb|exact O].
Qed.

Lemma successful_change_recounts_witness :
  option_map itemCount (own (buckets Trial.behind) Demo.notes) = Some 0 /\
  option_map (fun docs => List.length (keys (props docs)))
             (own (databases Trial.behind) Demo.notes) = Some 1 /\
  counted (fst (handle Demo.env Trial.behind
                       (PutData Demo.alice Demo.notes "/c" (JObj [("n", JNum 3)]))))
          Demo.notes.
Proof.
  split; [vm_compute; reflexivity|]. split; [vm_compute; reflexivity|].
  apply (@successful_change_recounts
           Demo.env Trial.behind Demo.alice Demo.notes "/c"
           (JObj [("n", JNum 3)]) None
           {| props := [("/a", new_item Demo.env 2 (JNum 1))]; proto := None |}
           (PutData Demo.alice Demo.notes "/c" (JObj [("n", JNum 3)]))).
  - split; [eexists; split|]; vm_compute; reflexivity.
  - left. reflexivity.
  - vm_compute. reflexivity.
Defined.

(** X17. What a batch wrote can be read back: after a batch write on a
    bucket of the caller in which every item can be written, a read under
    the key of an item returns the [data] of that item, with the dates
    made when the item was written and the length of its serialisation,
    unless a later item of the batch has the same key, in which case the
    later one wins.  The keys are those that the conversion of the paths
    gives, none of them from a number that is no safe integer. *)
Theorem batch_item_is_read_back
        (env : Env) (w : World) (u b : string) (docs : Docs)
        (before after : list JSON) (item body : JSON) (key : string) :
  has_bucket w u b docs ->
  forallb writable (before ++ item :: after) = true ->
  forallb printed (before ++ item :: after) = true ->
  json_field item "data" = Some body ->
  key_of item = Key key ->
  Forall (fun later => key_of later <> Key key) after ->
  snd (get_data (fst (batch_write env w u b
                                  (Some (JArr (before ++ item :: after)))))
                u b key) =
  Fetched key (VJson body)
          (VDate (now env (2 * List.length before + dates w)))
          (VDate (now env (S (2 * List.length before + dates w))))
          (VNumber (utf16_length (stringify body))).
Proof.
  intros HB Hw Hp Hd Hk Hlater.
  pose proof (all_writable _ Hw) as L.
  pose proof HB as [[bucket [Hb Ho]] Hdocs].
  destruct (@write_items_in_order env b (before ++ item :: after)
              (databases w) (dates w) docs Hdocs
              (printed_leading _ Hp)) as [O [W _]].
  specialize (W L). rewrite L in O.
  assert (HB' : has_bucket (fst (batch_write env w u b
                                   (Some (JArr (before ++ item :: after)))))
                           u b
                           (write_each env (dates w) docs (before ++ item :: after))).
  { rewrite (batch_write_granted env _ HB).
    destruct (write_items env (databases w) (dates w) b (before ++ item :: after))
      as [[dbs' read] out].
    simpl in O, W. subst out. simpl. split; [|exact O].
    destruct (own_recount_same _ _ _ Hb O) as [bucket' [H1 [_ [H2 _]]]].
    exists bucket'. split; [exact H1|congruence]. }
  rewrite (get_data_granted key HB').
  assert (G : docs_get (write_each env (dates w) docs (before ++ item :: after)) key
              = VItem (new_item env (2 * List.length before + dates w) body)).
  { rewrite write_each_app. cbn [write_each].
    apply write_each_keeps; [exact Hlater|].
    unfold write_one. rewrite Hd, Hk. apply docs_get_assign. }
  rewrite G. reflexivity.
Qed.

Lemma batch_item_is_read_back_witness :
  snd (get_data (fst (batch_write Demo.env Demo.started Demo.alice Demo.notes
                        (Some (JArr ([ JObj [("path", JStr "/a"); ("data", JNum 0)] ]
                                     ++ JObj [("path", JStr "/a"); ("data", JNum 1)]
                                     :: [ JObj [("path", JNum 7); ("data", JNum 2)] ])))))
                Demo.alice Demo.notes "/a") =
  Fetched "/a" (VJson (JNum 1))
          (VDate (now Demo.env (2 * 1 + dates Demo.started)))
          (VDate (now Demo.env (S (2 * 1 + dates Demo.started))))
          (VNumber (utf16_length (stringify (JNum 1)))).
Proof.
  apply (@batch_item_is_read_back
           Demo.env Demo.started Demo.alice Demo.notes empty_docs
           [ JObj [("path", JStr "/a"); ("data", JNum 0)] ]
           [ JObj [("path", JNum 7); ("data", JNum 2)] ]
           (JObj [("path", JStr "/a"); ("data", JNum 1)]) (JNum 1) "/a").
  - split; [eexists; split|]; vm_compute; reflexivity.
  - vm_compute. reflexivity.
  - vm_compute. reflexivity.
  - reflexivity.
  - reflexivity.
  - repeat constructor. vm_compute. discriminate.
Defined.

(* ===================================================================== *)
(** * Lists and searches *)
(* ===================================================================== *)

Section ListingFacts.
Variable env : Env.

Lemma insert_by_index_perm (V : Type) n (kv : string * V) l :
  Permutation (insert_by_index n kv l) ((n, kv) :: l).
Proof.
  induction l as [|[m kv'] l IH]; simpl; [apply Permutation_refl|].
  destruct (n <=? m)%N; [apply Permutation_refl|].
  eapply perm_trans; [apply perm_skip, IH|apply perm_swap].
Qed.

(** [Object.entries] lists every own property once. *)
Lemma entries_perm (V : Type) (d : Dict V) : Permutation (entries d) d.
Proof.
  unfold entries, indexed, named.
  induction d as [|kv d IH]; simpl; [apply Permutation_refl|].
  destruct (array_index (fst kv)) as [n|].
  - eapply perm_trans.
    + apply Permutation_app_tail, Permutation_map, insert_by_index_perm.
    + simpl. now apply perm_skip.
  - eapply perm_trans; [apply Permutation_sym, Permutation_middle|].
    now apply perm_skip.
Qed.

Lemma keys_perm (V : Type) (d : Dict V) : Permutation (keys d) (map fst d).
Proof. unfold keys. apply Permutation_map, entries_perm. Qed.

Lemma In_put (V : Type) (d : Dict V) k v : In (k, v) (put d k v).
Proof. apply own_In, own_put_same. Qed.

Lemma In_put_other (V : Type) (d : Dict V) k v k' v' :
  k' <> k -> In (k', v') d -> In (k', v') (put d k v).
Proof.
  intros Hne. induction d as [|[k0 v0] d IH]; simpl; [tauto|].
  destruct (k0 =? k) eqn:E.
  - apply String.eqb_eq in E. subst k0.
    intros [[= <- _]|H]; [congruence|]. simpl. auto.
  - intros [H|H]; simpl; auto.
Qed.

Lemma distinct_put (V : Type) (d : Dict V) k v :
  distinct_keys d -> distinct_keys (put d k v).
Proof.
  unfold distinct_keys. intros H. destruct (own d k) as [v0|] eqn:O.
  - now rewrite (put_keeps_keys _ _ v O).
  - rewrite (put_fresh _ _ v O), map_app. simpl.
    apply NoDup_snoc; [exact H|]. now apply own_None_not_key.
Qed.

Lemma distinct_remove (V : Type) (d : Dict V) k :
  distinct_keys d -> distinct_keys (remove d k).
Proof.
  unfold distinct_keys, remove.
  induction d as [|[k' v'] d IH]; simpl; [auto|].
  intros H. inversion H as [|? ? Hk Hd]; subst.
  destruct (negb (k' =? k)); simpl; [|auto].
  constructor; [|auto]. intros Hin. apply Hk.
  apply in_map_iff in Hin. destruct Hin as [kv [<- Hin]].
  apply filter_In in Hin. apply in_map. tauto.
Qed.

Lemma distinct_recount bs dbs b :
  distinct_keys bs -> distinct_keys (recount bs dbs b).
Proof.
  intros H. unfold recount. destruct (own bs b); [|exact H].
  destruct (own dbs b); [|exact H]. now apply distinct_put.
Qed.

Lemma distinct_docs_assign docs p item :
  distinct_keys (props docs) -> distinct_keys (props (docs_assign docs p item)).
Proof.
  intros H. unfold docs_assign.
  destruct (own (props docs) p); [|destruct (p =? "__proto__")];
    cbn [props]; auto using distinct_put.
Qed.

Lemma hits_paths l : forall drawn, map hit_path (hits env drawn l) = map fst l.
Proof.
  induction l as [|[k v] l IH]; intros drawn; simpl; [reflexivity|].
  now rewrite IH.
Qed.

Lemma hits_scores l : forall drawn,
  map hit_score (hits env drawn l) = map (random env) (seq drawn (List.length l)).
Proof.
  induction l as [|[k v] l IH]; intros drawn; simpl; [reflexivity|].
  now rewrite IH.
Qed.

Lemma slice0_map (A B : Type) (f : A -> B) (a : list A) (e : Z) :
  slice0 (map f a) e = map f (slice0 a e).
Proof. unfold slice0. now rewrite length_map, firstn_map. Qed.

End ListingFacts.

(** A property of documents objects that holds of the empty object and
    is kept by the assignment of a new item and by a delete holds of
    every documents object of a run. *)
Section DocsInvariant.
Variable env : Env.
Variable Q : Docs -> Prop.
Hypothesis Q_empty : Q empty_docs.
Hypothesis Q_assign : forall docs p read body,
  Q docs -> Q (docs_assign docs p (new_item env read body)).
Hypothesis Q_delete : forall docs p, Q docs -> Q (docs_delete docs p).

Lemma kept_put (dbs : Dict Docs) b docs' :
  (forall c docs, own dbs c = Some docs -> Q docs) -> Q docs' ->
  forall c docs, own (put dbs b docs') c = Some docs -> Q docs.
Proof.
  intros K H c docs. destruct (string_dec b c) as [->|Hne].
  - rewrite own_put_same. now intros [= <-].
  - rewrite own_put_other by assumption. apply K.
Qed.

Lemma kept_ensure dbs b dbs1 :
  (forall c docs, own dbs c = Some docs -> Q docs) ->
  ensure_docs dbs b = Some dbs1 ->
  forall c docs, own dbs1 c = Some docs -> Q docs.
Proof.
  intros K. unfold ensure_docs, assign.
  destruct (truthy (get dbs b)); [now intros [= <-]|].
  destruct (b =? "__proto__"); [discriminate|]. intros [= <-].
  now apply kept_put.
Qed.

Lemma kept_store dbs b p read body dbs' :
  (forall c docs, own dbs c = Some docs -> Q docs) ->
  store dbs b p (new_item env read body) = Some dbs' ->
  forall c docs, own dbs' c = Some docs -> Q docs.
Proof.
  intros K. unfold store. destruct (get dbs b) as [docs0| |] eqn:G; try discriminate.
  intros [= <-]. apply kept_put; [exact K|].
  apply Q_assign. apply (K b). now apply get_Own.
Qed.

Lemma kept_write_items items : forall dbs read b dbs' read' out,
  (forall c docs, own dbs c = Some docs -> Q docs) ->
  write_items env dbs read b items = (dbs', read', out) ->
  forall c docs, own dbs' c = Some docs -> Q docs.
Proof.
  induction items as [|item rest IH]; intros dbs read b dbs' read' out K; simpl.
  - now intros [= <- _ _].
  - assert (Stop : forall (r : nat) o, (dbs, r, o) = (dbs', read', out) ->
              forall c docs, own dbs' c = Some docs -> Q docs).
    { now intros r o [= <- _ _]. }
    destruct item; try (apply Stop); try (simpl; apply Stop).
    simpl. destruct (own fields "data") as [body|]; [|apply Stop].
    destruct (to_property_key (own fields "path")) as [key| |];
      try apply Stop.
    destruct (store dbs b key _) as [dbs1|] eqn:S; [|apply Stop].
    pose proof (@kept_store dbs b _ _ _ dbs1 K S) as K1.
    destruct (write_items env dbs1 (Datatypes.S (Datatypes.S read)) b rest)
      as [[dbs2 read2] out2] eqn:W.
    pose proof (IH _ _ _ _ _ _ K1 W) as K2.
    intros H. assert (dbs2 = dbs') by (destruct out2; congruence). now subst.
Qed.

Lemma kept_step w r :
  (forall c docs, own (databases w) c = Some docs -> Q docs) ->
  forall c docs, own (databases (fst (handle env w r))) c = Some docs -> Q docs.
Proof.
  intros K.
  destruct r as [e p n|e p|u n d rg|u|u b p body|u b p|u b p|u b
                |u b q k|u b items|u|]; simpl;
    unfold register, login, create_bucket, list_buckets, get_data,
           list_items, vector_search, stats, health;
    try (repeat next_case; simpl; exact K).
  - (* create bucket *)
    unfold assign. repeat next_case; simpl; try exact K.
    repeat match goal with H : Some _ = Some _ |- _ => injection H as <- end.
    now apply kept_put.
  - (* write *)
    unfold put_data. destruct (access w u b); [exact K|].
    destruct (ensure_docs (databases w) b) as [dbs|] eqn:E; [|exact K].
    destruct (store dbs b p _) as [dbs'|] eqn:S; [|exact K]. simpl.
    eapply kept_store; [|exact S]. eapply kept_ensure; [exact K|exact E].
  - (* delete *)
    unfold delete_data. destruct (access w u b); [exact K|].
    destruct (get (databases w) b) as [docs| |] eqn:G; try exact K.
    destruct (negb (value_truthy (docs_get docs p))); [exact K|]. simpl.
    apply kept_put; [exact K|]. apply Q_delete. apply (K b). now apply get_Own.
  - (* batch write *)
    unfold batch_write. destruct (access w u b); [exact K|].
    destruct items as [[| | | |l|]|]; try exact K.
    destruct (ensure_docs (databases w) b) as [dbs|] eqn:E; [|exact K].
    pose proof (@kept_ensure (databases w) b dbs K E) as K1.
    destruct (write_items env dbs (dates w) b l) as [[dbs' read] [results| |]] eqn:W;
      simpl; try exact K; eapply kept_write_items; eauto.
Qed.

Lemma kept_serve rs : forall w w' answers,
  (forall c docs, own (databases w) c = Some docs -> Q docs) ->
  serve env w rs = (w', answers) ->
  forall c docs, own (databases w') c = Some docs -> Q docs.
Proof.
  induction rs as [|r rest IH]; intros w w' answers K; cbn [serve].
  - now intros [= <- _].
  - pose proof (@kept_step w r K) as K1.
    destruct (handle env w r) as [w1 a] eqn:E.
    destruct (serve env w1 rest) as [w2 answers'] eqn:S.
    intros [= <- _]. eapply IH; [exact K1|exact S].
Qed.

End DocsInvariant.

Section RunDocuments.
Variable env : Env.

(** In a run from start-up no documents object has a key twice. *)
Lemma docs_keys_distinct rs w answers b docs :
  serve env init rs = (w, answers) ->
  own (databases w) b = Some docs -> distinct_keys (props docs).
Proof.
  intros Hs. revert b docs.
  apply (@kept_serve env (fun docs => distinct_keys (props docs))) with (rs := rs) (w := init) (answers := answers);
    try exact Hs.
  - constructor.
  - intros. now apply distinct_docs_assign.
  - intros. unfold docs_delete. cbn [props]. now apply distinct_remove.
  - intros c d H. discriminate.
Qed.

(** In a run from start-up every item, whether a property or the
    prototype of its documents object, is as a write made it. *)
Lemma docs_items_stamped rs w answers b docs :
  serve env init rs = (w, answers) ->
  own (databases w) b = Some docs ->
  (forall p i, own (props docs) p = Some i -> stamped env i) /\
  (forall i, proto docs = Some i -> stamped env i).
Proof.
  intros Hs. revert b docs.
  apply (@kept_serve env (fun docs =>
           (forall p i, own (props docs) p = Some i -> stamped env i) /\
           (forall i, proto docs = Some i -> stamped env i)))
    with (rs := rs) (w := init) (answers := answers); try exact Hs.
  - split; intros; discriminate.
  - intros docs p read body [Hp Hq]. unfold docs_assign.
    assert (New : stamped env (new_item env read body)) by (eexists _, _; reflexivity).
    assert (Put : forall p0 i, own (put (props docs) p (new_item env read body)) p0 = Some i ->
                               stamped env i).
    { intros p0 i. destruct (string_dec p p0) as [->|Hne].
      - rewrite own_put_same. now intros [= <-].
      - rewrite own_put_other by assumption. apply Hp. }
    destruct (own (props docs) p); [|destruct (p =? "__proto__")];
      cbn [props proto]; split; auto.
    now intros i [= <-].
  - intros docs p [Hp Hq]. unfold docs_delete. cbn [props proto]. split; [|exact Hq].
    intros p0 i. destruct (string_dec p0 p) as [->|Hne].
    + now rewrite own_remove_same.
    + rewrite own_remove_other by congruence. apply Hp.
  - intros c d H. discriminate.
Qed.

End RunDocuments.

(** X18. A document written under a path other than [__proto__] is in
    the list of the bucket from then on, with the size and the two dates
    of the write, and every entry that the list held for another path is
    still in it. *)
Theorem written_document_is_listed
        (env : Env) (w : World) (u b p : string) (body : JSON) (docs : Docs) :
  has_bucket w u b docs -> p <> "__proto__" ->
  exists before items,
    snd (list_items w u b) = ItemList b (List.length before) before /\
    snd (list_items (fst (put_data env w u b p body)) u b) =
      ItemList b (List.length items) items /\
    In {| info_path := p; info_size := utf16_length (stringify body);
          info_createdAt := now env (dates w);
          info_updatedAt := now env (S (dates w)) |} items /\
    forall info, In info before -> info_path info <> p -> In info items.
Proof.
  intros HB Hp. destruct (put_data_granted env p body HB) as [_ HB'].
  rewrite (list_items_granted HB), (list_items_granted HB').
  eexists _, _. split; [reflexivity|]. split; [reflexivity|].
  assert (A : props (docs_assign docs p (new_item env (dates w) body)) =
              put (props docs) p (new_item env (dates w) body)).
  { unfold docs_assign. apply String.eqb_neq in Hp. rewrite Hp.
    destruct (own (props docs) p); reflexivity. }
  rewrite A. split.
  - apply in_map_iff. exists (p, new_item env (dates w) body).
    split; [reflexivity|].
    apply (Permutation_in _ (Permutation_sym (entries_perm _))). apply In_put.
  - intros info Hin Hne. apply in_map_iff in Hin.
    destruct Hin as [[k v] [<- Hin]]. simpl in Hne.
    apply in_map.
    apply (Permutation_in _ (Permutation_sym (entries_perm _))).
    apply In_put_other; [exact Hne|]. now apply In_entries.
Qed.

Lemma written_document_is_listed_witness :
  exists before items,
    snd (list_items Demo.stocked Demo.alice Demo.notes) =
      ItemList Demo.notes (List.length before) before /\
    snd (list_items (fst (put_data Demo.env Demo.stocked Demo.alice Demo.notes
                                   "/u/2" (JObj [("n", JNum 2)])))
                    Demo.alice Demo.notes) =
      ItemList Demo.notes (List.length items) items /\
    In {| info_path := "/u/2";
          info_size := utf16_length (stringify (JObj [("n", JNum 2)]));
          info_createdAt := now Demo.env (dates Demo.stocked);
          info_updatedAt := now Demo.env (S (dates Demo.stocked)) |} items /\
    forall info, In info before -> info_path info <> "/u/2" -> In info items.
Proof.
  apply (@written_document_is_listed
           Demo.env Demo.stocked Demo.alice Demo.notes "/u/2"
           (JObj [("n", JNum 2)])
           {| props := [("/u/1", new_item Demo.env 2 (JObj [("n", JNum 1)]))];
              proto := None |}).
  - split; [eexists; split|]; vm_compute; reflexivity.
  - discriminate.
Defined.

(** X19. In every run from start-up the list of a bucket names no path
    twice, and each of its entries can be read: a read of the path of an
    entry by the owner answers a document with the size and the dates of
    the entry. *)
Theorem listed_items_are_readable
        (env : Env) (rs : list Request) (w : World) (answers : list Response)
        (u b : string) (docs : Docs) :
  serve env init rs = (w, answers) ->
  has_bucket w u b docs ->
  exists items,
    snd (list_items w u b) = ItemList b (List.length items) items /\
    NoDup (map info_path items) /\
    Forall (fun info =>
              exists x,
                snd (get_data w u b (info_path info)) =
                Fetched (info_path info) (VJson x)
                        (VDate (info_createdAt info))
                        (VDate (info_updatedAt info))
                        (VNumber (info_size info)))
           items.
Proof.
  intros Hs HB.
  pose proof HB as [_ Hd].
  pose proof (@docs_keys_distinct env rs w answers b docs Hs Hd) as K.
  rewrite (list_items_granted HB). eexists. split; [reflexivity|]. split.
  - rewrite listed_paths.
    apply (Permutation_NoDup (Permutation_sym (keys_perm _))). exact K.
  - apply Forall_forall. intros info Hin. apply in_map_iff in Hin.
    destruct Hin as [[k v] [<- Hin]]. simpl.
    apply In_entries in Hin. pose proof (@In_own _ _ k v K Hin) as O.
    rewrite (get_data_granted k HB). unfold docs_get. rewrite O.
    exists (data v). reflexivity.
Qed.

Lemma listed_items_are_readable_witness :
  exists items,
    snd (list_items Trial.shared Demo.alice Demo.notes) =
      ItemList Demo.notes (List.length items) items /\
    NoDup (map info_path items) /\
    Forall (fun info =>
              exists x,
                snd (get_data Trial.shared Demo.alice Demo.notes (info_path info)) =
                Fetched (info_path info) (VJson x)
                        (VDate (info_createdAt info))
                        (VDate (info_updatedAt info))
                        (VNumber (info_size info)))
           items.
Proof.
  apply (@listed_items_are_readable
           Demo.env Demo.history Trial.shared
           (snd (serve Demo.env init Demo.history)) Demo.alice Demo.notes
           {| props := [("/u/1", new_item Demo.env 5 (JNum 1))]; proto := None |}).
  - apply surjective_pairing.
  - split; [eexists; split|]; vm_compute; reflexivity.
Defined.

(** X20. A search does not look at the query: on a bucket of the caller
    it answers the first [topK] paths of the list of the bucket, in the
    order of the list (10 where [topK] is absent or 0; all but the last
    [-topK] where it is negative), each with the next draw of the random
    generator as its score. *)
Theorem search_is_a_prefix_of_the_list
        (env : Env) (w : World) (u b : string) (docs : Docs)
        (q : option JSON) (topK : option Z) :
  has_bucket w u b docs ->
  exists results items,
    snd (vector_search env w u b q topK) = SearchResults q results /\
    snd (list_items w u b) = ItemList b (List.length items) items /\
    map hit_path results = slice0 (map info_path items) (top_or_10 topK) /\
    map hit_score results =
      map (random env) (seq (randoms w) (List.length results)).
Proof.
  intros HB. rewrite (list_items_granted HB).
  pose proof (has_bucket_access HB) as A. destruct HB as [_ Hd].
  unfold vector_search. rewrite A. apply get_Own in Hd. rewrite Hd. simpl.
  eexists _, _. split; [reflexivity|]. split; [reflexivity|]. split.
  - rewrite hits_paths, listed_paths. unfold keys. now rewrite slice0_map.
  - now rewrite hits_scores, length_hits.
Qed.

Lemma search_is_a_prefix_of_the_list_witness :
  exists results items,
    snd (vector_search Demo.env Demo.busy Demo.alice Demo.notes
                       (Some (JStr "seven")) (Some 2%Z)) =
      SearchResults (Some (JStr "seven")) results /\
    snd (list_items Demo.busy Demo.alice Demo.notes) =
      ItemList Demo.notes (List.length items) items /\
    map hit_path results = slice0 (map info_path items) (top_or_10 (Some 2%Z)) /\
    map hit_score results =
      map (random Demo.env) (seq (randoms Demo.busy) (List.length results)).
Proof.
  apply (@search_is_a_prefix_of_the_list
           Demo.env Demo.busy Demo.alice Demo.notes
           {| props := [ ("/a", new_item Demo.env 5 (JNum 1));
                         ("/b", new_item Demo.env 7 (JNum 2));
                         ("7", new_item Demo.env 9 (JStr "seven")) ];
              proto := None |}
           (Some (JStr "seven")) (Some 2%Z)).
  split; [eexists; split|]; vm_compute; reflexivity.
Defined.

(* ===================================================================== *)
(** * The client library *)
(* ===================================================================== *)

(** X21. The defaults of the client library are those of the server: a
    bucket created through [createBucket] and a search sent through
    [vectorQuery] are answered, and change the state, exactly as the
    request that leaves the options out, whatever the options are. *)
Theorem client_defaults_are_the_servers
        (env : Env) (w : World) (u b : string)
        (name0 d rg : option string) (q : option JSON) (topK : option Z) :
  handle env w (as_user u (Sdk.createBucket name0 d rg)) =
    handle env w (as_user u (PostBuckets name0 d rg)) /\
  handle env w (as_user u (Sdk.vectorQuery b q topK)) =
    handle env w (as_user u (PostVectorSearch b q topK)).
Proof.
  split; simpl.
  - unfold create_bucket.
    replace (or_else (Some (or_else d "standard")) "standard")
      with (or_else d "standard").
    2: { destruct d as [t|]; [|reflexivity]. simpl.
         destruct (t =? "") eqn:E; [reflexivity|]. simpl. now rewrite E. }
    replace (or_else (Some (or_else rg "us-east-1")) "us-east-1")
      with (or_else rg "us-east-1").
    2: { destruct rg as [t|]; [|reflexivity]. simpl.
         destruct (t =? "") eqn:E; [reflexivity|]. simpl. now rewrite E. }
    reflexivity.
  - unfold vector_search.
    replace (top_or_10 (Some (top_or_10 topK))) with (top_or_10 topK);
      [reflexivity|].
    destruct topK as [k|]; [|reflexivity]. simpl.
    destruct (k =? 0)%Z eqn:E; [reflexivity|]. now rewrite E.
Qed.

(** X22. The server knows no API keys: a client that holds an API key
    and no token sends the key where a token is expected, and a request
    of it to a protected route is answered 403 and changes nothing,
    unless the verifier accepts the key as a token. *)
Theorem api_key_is_taken_for_a_token
        (verify : string -> option Token) (env : Env) (w : World)
        (client : Sdk.Client) (k : string) (c : Call) :
  given (Sdk.jwt client) = false ->
  Sdk.apiKey client = Some k -> k <> "" -> has_no_space k = true ->
  protected c = true ->
  route verify env w (Sdk.authorization client) c =
  match verify k with
  | Some decoded => handle env w (as_user (token_userId decoded) c)
  | None => (w, Err 403 "Invalid token")
  end.
Proof.
  intros Hj Hk Hne Hs Hp. unfold Sdk.authorization. rewrite Hj, Hk.
  pose proof Hne as Hne'. apply String.eqb_neq in Hne'.
  unfold given, or_else. rewrite Hne'. simpl negb. cbv iota.
  change ("Bearer " ++ k)%string with ("Bearer" ++ String " " k)%string.
  now apply route_with_token.
Qed.

Lemma api_key_is_taken_for_a_token_witness :
  route Trial.verify Demo.env Demo.stocked (Sdk.authorization Trial.keyed)
        (GetItems Demo.notes) =
  match Trial.verify "zm-key-1" with
  | Some decoded =>
      handle Demo.env Demo.stocked (as_user (token_userId decoded) (GetItems Demo.notes))
  | None => (Demo.stocked, Err 403 "Invalid token")
  end.
Proof.
  apply (@api_key_is_taken_for_a_token
           Trial.verify Demo.env Demo.stocked Trial.keyed "zm-key-1"
           (GetItems Demo.notes)).
  - reflexivity.
  - reflexivity.
  - discriminate.
  - reflexivity.
  - reflexivity.
Defined.

(* ===================================================================== *)
(** * What a read answers *)
(* ===================================================================== *)

Section ReadFacts.
Variable env : Env.

Lemma docs_get_item docs p i :
  docs_get docs p = VItem i ->
  own (props docs) p = Some i \/ proto docs = Some i.
Proof.
  unfold docs_get, builtin_or_undefined, item_field.
  repeat next_case; intros H; try discriminate.
  - injection H as <-. auto.
  - injection H as <-. auto.
Qed.

End ReadFacts.

(** X23. In every run from start-up, the fields of a listed document
    belong together: for every entry of the list of a bucket, the read of
    its path answers a payload whose serialisation has the length that
    the entry and the read give as the size, and the two dates of the
    entry and of the read are consecutive readings of the clock,
    [createdAt] the earlier. *)
Theorem read_fields_belong_together
        (env : Env) (rs : list Request) (w : World) (answers : list Response)
        (u b : string) (docs : Docs) :
  serve env init rs = (w, answers) ->
  has_bucket w u b docs ->
  exists items,
    snd (list_items w u b) = ItemList b (List.length items) items /\
    Forall (fun info =>
              exists read body,
                snd (get_data w u b (info_path info)) =
                  Fetched (info_path info) (VJson body)
                          (VDate (now env read)) (VDate (now env (S read)))
                          (VNumber (utf16_length (stringify body))) /\
                info_size info = utf16_length (stringify body) /\
                info_createdAt info = now env read /\
                info_updatedAt info = now env (S read))
           items.
Proof.
  intros Hs HB. pose proof HB as [_ Hd].
  pose proof (@docs_keys_distinct env rs w answers b docs Hs Hd) as K.
  destruct (@docs_items_stamped env rs w answers b docs Hs Hd) as [St _].
  rewrite (list_items_granted HB). eexists. split; [reflexivity|].
  apply Forall_forall. intros info Hin. apply in_map_iff in Hin.
  destruct Hin as [[k v] [<- Hin]]. simpl.
  apply In_entries in Hin. pose proof (@In_own _ _ k v K Hin) as O.
  destruct (St k v O) as [read [body ->]].
  exists read, body. rewrite (get_data_granted k HB).
  unfold docs_get. rewrite O. repeat split.
Qed.

Lemma read_fields_belong_together_witness :
  exists items,
    snd (list_items Trial.shared Demo.alice Demo.notes) =
      ItemList Demo.notes (List.length items) items /\
    Forall (fun info =>
              exists read body,
                snd (get_data Trial.shared Demo.alice Demo.notes (info_path info)) =
                  Fetched (info_path info) (VJson body)
                          (VDate (now Demo.env read))
                          (VDate (now Demo.env (S read)))
                          (VNumber (utf16_length (stringify body))) /\
                info_size info = utf16_length (stringify body) /\
                info_createdAt info = now Demo.env read /\
                info_updatedAt info = now Demo.env (S read))
           items.
Proof.
  apply (@read_fields_belong_together
           Demo.env Demo.history Trial.shared
           (snd (serve Demo.env init Demo.history)) Demo.alice Demo.notes
           {| props := [("/u/1", new_item Demo.env 5 (JNum 1))]; proto := None |}).
  - apply surjective_pairing.
  - split; [eexists; split|]; vm_compute; reflexivity.
Defined.

(** X24. [getUser] of the example application does not return the
    profile stored for the user but the member named [data] of that
    profile.  The client library puts and gets the profile of user [id]
    under the key [users/id]; after the put of a profile, [get] of the
    client library returns the profile, having taken it out of the
    response, and [getUser] reads [data] once more: for a profile
    without such a member its result is [undefined].  The identifier is
    made of letters, digits, [-] and [_]. *)
Theorem getUser_returns_the_data_member
        (env : Env) (w : World) (u b id : string) (docs : Docs)
        (profile : Dict JSON) :
  has_bucket w u b docs ->
  Sdk.plain id = true ->
  Sdk.data_route (App.userPath id) = Sdk.Bound ("users/" ++ id)%string /\
  Sdk.get (fun wildcard =>
             snd (get_data (fst (put_data env w u b ("users/" ++ id)%string
                                          (JObj profile)))
                           u b wildcard))
          (App.userPath id) =
    Sdk.Resolved (VJson (JObj profile)) /\
  App.getUser (fun wildcard =>
                 snd (get_data (fst (put_data env w u b ("users/" ++ id)%string
                                              (JObj profile)))
                               u b wildcard))
              id =
    Sdk.Resolved (match own profile "data" with
                  | Some member => VJson member
                  | None => VUndefined
                  end).
Proof.
  intros HB Hid.
  assert (R : Sdk.data_route (App.userPath id) = Sdk.Bound ("users/" ++ id)%string).
  { unfold Sdk.data_route, App.userPath, Sdk.plain in *. simpl.
    now rewrite Hid. }
  destruct (write_then_read env ("users/" ++ id)%string (JObj profile) HB) as [_ E].
  assert (G : Sdk.get (fun wildcard =>
                snd (get_data (fst (put_data env w u b ("users/" ++ id)%string
                                             (JObj profile)))
                              u b wildcard))
                (App.userPath id) = Sdk.Resolved (VJson (JObj profile))).
  { unfold Sdk.get. rewrite R, E. reflexivity. }
  split; [exact R|]. split; [exact G|].
  unfold App.getUser. rewrite G. reflexivity.
Qed.

Lemma getUser_returns_the_data_member_witness :
  Sdk.data_route (App.userPath "alice") = Sdk.Bound "users/alice" /\
  Sdk.get (fun wildcard =>
             snd (get_data (fst (put_data Demo.env Demo.started Demo.alice Demo.notes
                                          "users/alice" (JObj Trial.profile)))
                           Demo.alice Demo.notes wildcard))
          (App.userPath "alice") =
    Sdk.Resolved (VJson (JObj Trial.profile)) /\
  App.getUser (fun wildcard =>
                 snd (get_data (fst (put_data Demo.env Demo.started Demo.alice
                                              Demo.notes "users/alice"
                                              (JObj Trial.profile)))
                               Demo.alice Demo.notes wildcard))
              "alice" =
    Sdk.Resolved VUndefined.
Proof.
  apply (@getUser_returns_the_data_member
           Demo.env Demo.started Demo.alice Demo.notes "alice" empty_docs
           Trial.profile).
  - split; [eexists; split|]; vm_compute; reflexivity.
  - reflexivity.
Defined.

(* ===================================================================== *)
(** * More on the guards, the list and the client *)
(* ===================================================================== *)

Section LengthFacts.

Lemma length_entries (V : Type) (d : Dict V) : List.length (entries d) = List.length d.
Proof. apply Permutation_length, entries_perm. Qed.

Lemma length_put (V : Type) (d : Dict V) k v :
  List.length (put d k v) =
  List.length d + match own d k with Some _ => 0 | None => 1 end.
Proof.
  destruct (own d k) as [v0|] eqn:O.
  - rewrite <- (length_map fst (put d k v)), (put_keeps_keys _ _ v O), length_map.
    lia.
  - rewrite (put_fresh _ _ v O), length_app. reflexivity.
Qed.

Lemma length_remove (V : Type) (d : Dict V) k v :
  distinct_keys d -> own d k = Some v ->
  List.length (remove d k) + 1 = List.length d.
Proof.
  unfold distinct_keys. induction d as [|[k' v'] d IH]; simpl; [discriminate|].
  intros Hnd. inversion Hnd as [|? ? Hk Hd]; subst.
  destruct (k' =? k) eqn:E; simpl.
  - apply String.eqb_eq in E. subst k'. intros _.
    fold (remove d k). rewrite remove_absent; [lia|].
    now apply not_key_own_None.
  - intros O. fold (remove d k). specialize (IH Hd O). lia.
Qed.

Lemma In_remove (V : Type) (d : Dict V) k k' v' :
  k' <> k -> In (k', v') d -> In (k', v') (remove d k).
Proof.
  intros Hne Hin. unfold remove. apply filter_In. split; [exact Hin|].
  simpl. apply String.eqb_neq in Hne. now rewrite Hne.
Qed.

End LengthFacts.

(** X25. Cross-tenant isolation also holds for searches and batch writes:
    on a bucket that is owned by [P], both are answered 403 to any other
    principal and change nothing, whatever the query and whatever the
    items, also where the items are no array. *)
Theorem foreign_bucket_is_closed_to_search_and_batch
        (env : Env) (w : World) (b P Q : string) (bucket : Bucket)
        (q : option JSON) (k : option Z) (items : option JSON) :
  own (buckets w) b = Some bucket -> owner bucket = P -> Q <> P ->
  vector_search env w Q b q k = (w, Err 403 "Access denied") /\
  batch_write env w Q b items = (w, Err 403 "Access denied").
Proof.
  intros Hb Ho Hq.
  assert (A : access w Q b = Some (Err 403 "Access denied")).
  { apply access_foreign with bucket; [exact Hb|congruence]. }
  unfold vector_search, batch_write. now rewrite A.
Qed.

Lemma foreign_bucket_is_closed_to_search_and_batch_witness :
  vector_search Demo.env Demo.stocked Demo.bob Demo.notes None (Some 5%Z) =
    (Demo.stocked, Err 403 "Access denied") /\
  batch_write Demo.env Demo.stocked Demo.bob Demo.notes (Some (JStr "no array")) =
    (Demo.stocked, Err 403 "Access denied").
Proof.
  apply (@foreign_bucket_is_closed_to_search_and_batch
           Demo.env Demo.stocked Demo.notes Demo.alice Demo.bob
           {| bucketId := Demo.notes; name := "b1"; owner := Demo.alice;
              durability := "standard"; region := "us-east-1";
              bucket_createdAt := 1700000000001%Z; itemCount := 1 |}
           None (Some 5%Z) (Some (JStr "no array"))).
  - vm_compute. reflexivity.
  - reflexivity.
  - discriminate.
Defined.

(** X26. A request on a bucket identifier that is not in use, and that
    is not the name of a member of [Object.prototype], is answered 404
    'Bucket not found' and changes nothing, whatever else it carries:
    the existence of the bucket is the first thing every handler under
    [/api/buckets/:bucketId/] looks at. *)
Theorem unknown_bucket_is_not_found
        (env : Env) (w : World) (r : Request) (b : string) :
  own (buckets w) b = None -> inherited b = false ->
  addressed r = Some b ->
  handle env w r = (w, Err 404 "Bucket not found").
Proof.
  intros Ho Hi Ha.
  assert (A : forall u, access w u b = Some (Err 404 "Bucket not found")).
  { intros u. unfold access, get. now rewrite Ho, Hi. }
  destruct r as [e p n|e p|u n d rg|u|u b0 p body|u b0 p|u b0 p|u b0
                |u b0 q k|u b0 items|u|]; simpl in Ha; try discriminate;
    injection Ha as ->; simpl;
    unfold put_data, get_data, delete_data, list_items, vector_search,
           batch_write;
    now rewrite A.
Qed.

Lemma unknown_bucket_is_not_found_witness :
  handle Demo.env Demo.stocked
         (BatchWrite Demo.alice "no-such-bucket" (Some (JArr Demo.sound_batch))) =
  (Demo.stocked, Err 404 "Bucket not found").
Proof.
  apply (@unknown_bucket_is_not_found
           Demo.env Demo.stocked
           (BatchWrite Demo.alice "no-such-bucket" (Some (JArr Demo.sound_batch)))
           "no-such-bucket").
  - reflexivity.
  - vm_compute. reflexivity.
  - reflexivity.
Defined.

(** X27. The list follows the changes.  In every run from start-up, on a
    bucket of the caller: a write under a path that holds no document
    makes the list one entry longer and a write under a path in use
    leaves its length (the path not being [__proto__]); the delete of a
    stored document succeeds, makes the list one entry shorter and keeps
    every entry of another path. *)
Theorem list_follows_changes
        (env : Env) (rs : list Request) (w : World) (answers : list Response)
        (u b p : string) (body : JSON) (docs : Docs) :
  serve env init rs = (w, answers) ->
  has_bucket w u b docs ->
  (p <> "__proto__" ->
   listed (fst (put_data env w u b p body)) u b =
   listed w u b + match own (props docs) p with Some _ => 0 | None => 1 end) /\
  (own (props docs) p <> None ->
   snd (delete_data w u b p) = Deleted /\
   exists before items,
     snd (list_items w u b) = ItemList b (List.length before) before /\
     snd (list_items (fst (delete_data w u b p)) u b) =
       ItemList b (List.length items) items /\
     List.length items + 1 = List.length before /\
     forall info, In info before -> info_path info <> p -> In info items).
Proof.
  intros Hs HB. pose proof HB as [_ Hd].
  pose proof (@docs_keys_distinct env rs w answers b docs Hs Hd) as K.
  split.
  - intros Hp. destruct (put_data_granted env p body HB) as [_ HB'].
    unfold listed. rewrite (list_items_granted HB), (list_items_granted HB').
    simpl. rewrite !length_map, !length_entries.
    assert (A : props (docs_assign docs p (new_item env (dates w) body)) =
                put (props docs) p (new_item env (dates w) body)).
    { unfold docs_assign. apply String.eqb_neq in Hp. rewrite Hp.
      destruct (own (props docs) p); reflexivity. }
    rewrite A. apply length_put.
  - intros Ho. destruct (own (props docs) p) as [item|] eqn:O; [|congruence].
    assert (T : value_truthy (docs_get docs p) = true).
    { unfold docs_get. now rewrite O. }
    destruct (delete_data_granted p HB) as [E HB']. specialize (HB' T).
    split; [now rewrite E, T|].
    rewrite (list_items_granted HB), (list_items_granted HB').
    eexists _, _. split; [reflexivity|]. split; [reflexivity|]. split.
    + rewrite !length_map, !length_entries. unfold docs_delete. cbn [props].
      now apply length_remove with item.
    + intros info Hin Hne. apply in_map_iff in Hin.
      destruct Hin as [[k v] [<- Hin]]. simpl in Hne. apply in_map.
      apply (Permutation_in _ (Permutation_sym (entries_perm _))).
      unfold docs_delete. cbn [props].
      apply In_remove; [exact Hne|]. now apply In_entries.
Qed.

Lemma list_follows_changes_witness :
  listed (fst (put_data Demo.env Trial.shared Demo.alice Demo.notes "/u/2"
                        (JObj [("n", JNum 2)])))
         Demo.alice Demo.notes =
  listed Trial.shared Demo.alice Demo.notes + 1 /\
  snd (delete_data Trial.shared Demo.alice Demo.notes "/u/1") = Deleted /\
  exists before items,
    snd (list_items Trial.shared Demo.alice Demo.notes) =
      ItemList Demo.notes (List.length before) before /\
    snd (list_items (fst (delete_data Trial.shared Demo.alice Demo.notes "/u/1"))
                    Demo.alice Demo.notes) =
      ItemList Demo.notes (List.length items) items /\
    List.length items + 1 = List.length before /\
    forall info, In info before -> info_path info <> "/u/1" -> In info items.
Proof.
  assert (HB : has_bucket Trial.shared Demo.alice Demo.notes
                 {| props := [("/u/1", new_item Demo.env 5 (JNum 1))];
                    proto := None |}).
  { split; [eexists; split|]; vm_compute; reflexivity. }
  destruct (@list_follows_changes
              Demo.env Demo.history Trial.shared
              (snd (serve Demo.env init Demo.history))
              Demo.alice Demo.notes "/u/2" (JObj [("n", JNum 2)]) _
              (surjective_pairing _) HB) as [H1 _].
  destruct (@list_follows_changes
              Demo.env Demo.history Trial.shared
              (snd (serve Demo.env init Demo.history))
              Demo.alice Demo.notes "/u/1" (JObj [("n", JNum 2)]) _
              (surjective_pairing _) HB) as [_ H2].
  split.
  - apply H1. discriminate.
  - apply H2. discriminate.
Defined.

(** X28. A client acts for who signed in: after [register] or [login] of
    the client library got a successful answer, a request of the client
    to a protected route is served for the [userId] that the answer
    names, whatever API key the client holds; the token being a
    non-empty string without a space that the verifier maps back to its
    payload. *)
Theorem client_acts_for_who_signed_in
        (sign : Token -> string) (verify : string -> option Token)
        (env : Env) (w w1 w' : World) (client : Sdk.Client)
        (e p n : option string) (uid em : string) (tok : Token)
        (answer : Response) (c : Call) :
  (register env w e p n = (w1, answer) /\ answer = Registered uid em tok) \/
  (login w e p = (w1, answer) /\ answer = LoggedIn uid em tok) ->
  verify (sign tok) = Some tok ->
  has_no_space (sign tok) = true -> sign tok <> "" ->
  protected c = true ->
  route verify env w' (Sdk.authorization (Sdk.authenticated sign client answer)) c =
  handle env w' (as_user uid c).
Proof.
  intros Hr Hv Hs Hne Hp.
  assert (Hu : token_userId tok = uid /\
               Sdk.authenticated sign client answer =
               {| Sdk.apiKey := Sdk.apiKey client; Sdk.jwt := Some (sign tok) |}).
  { pose proof Hne as Hne'. apply String.eqb_neq in Hne'.
    destruct Hr as [[Hr ->]|[Hr ->]]; simpl; rewrite Hne'; simpl;
      (split; [|reflexivity]); revert Hr.
    - unfold register. repeat next_case; intros H; try discriminate.
      now injection H as _ <- _ <-.
    - unfold login. repeat next_case; intros H; try discriminate.
      now injection H as _ <- _ <-. }
  destruct Hu as [Hu ->].
  unfold Sdk.authorization. cbn [Sdk.jwt Sdk.apiKey].
  pose proof Hne as Hne'. apply String.eqb_neq in Hne'.
  unfold given, or_else. rewrite Hne'. simpl negb. cbv iota.
  change ("Bearer " ++ sign tok)%string with ("Bearer" ++ String " " (sign tok))%string.
  rewrite route_with_token by (assumption || reflexivity). now rewrite Hv, Hu.
Qed.

Lemma client_acts_for_who_signed_in_witness :
  route Trial.verify Demo.env Demo.stocked
        (Sdk.authorization
           (Sdk.authenticated Trial.sign Trial.keyed
              (Registered Demo.alice "a@x.com"
                 {| token_userId := Demo.alice; token_email := "a@x.com" |})))
        (GetDataAt Demo.notes "/u/1") =
  handle Demo.env Demo.stocked (as_user Demo.alice (GetDataAt Demo.notes "/u/1")).
Proof.
  apply (@client_acts_for_who_signed_in
           Trial.sign Trial.verify Demo.env init Demo.registered Demo.stocked
           Trial.keyed (Some "a@x.com") (Some "pw") (Some "A")
           Demo.alice "a@x.com"
           {| token_userId := Demo.alice; token_email := "a@x.com" |}
           (Registered Demo.alice "a@x.com"
              {| token_userId := Demo.alice; token_email := "a@x.com" |})
           (GetDataAt Demo.notes "/u/1")).
  - left. split; [vm_compute; reflexivity|reflexivity].
  - reflexivity.
  - reflexivity.
  - discriminate.
  - reflexivity.
Defined.

(* ===================================================================== *)
(** * The list of buckets *)
(* ===================================================================== *)

Section BucketListFacts.

(** [Object.values] gives the values of the own properties. *)
Lemma values_own (V : Type) (d : Dict V) v :
  distinct_keys d -> (In v (values d) <-> exists k, own d k = Some v).
Proof.
  intros Hnd. unfold values. rewrite in_map_iff. split.
  - intros [[k v'] [<- Hin]]. exists k. simpl.
    apply In_own; [exact Hnd|]. now apply In_entries.
  - intros [k Ho]. exists (k, v). split; [reflexivity|].
    apply (Permutation_in _ (Permutation_sym (entries_perm _))).
    now apply own_In.
Qed.

End BucketListFacts.

(** C8. When the identifiers handed out by the [uuid] package are distinct
    uuids, then after any requests served from start-up the request for
    the list of buckets, sent by a principal [P], is answered a list and
    changes nothing; the list holds exactly the buckets whose owner is
    [P], each once and in the order in which [P] created them; it is the
    empty list, and still a list, when [P] owns none. *)
Theorem buckets_listed_in_creation_order
        (env : Env) (rs : list Request) (P : string)
        (w : World) (answers : list Response) :
  usable_ids env (List.length rs) ->
  serve env init rs = (w, answers) ->
  exists listing,
    handle env w (ListBuckets P) = (w, BucketList listing) /\
    map bucketId listing = created_by P rs answers /\
    (forall bucket, In bucket listing <->
                    owner bucket = P /\
                    exists b, own (buckets w) b = Some bucket) /\
    ((forall b bucket, own (buckets w) b = Some bucket -> owner bucket <> P) ->
     listing = []).
Proof.
  intros Hids Hs.
  pose proof (@bucket_keys_distinct env rs w answers Hids Hs) as Hnd.
  assert (M : forall bucket,
            In bucket (user_buckets w P) <->
            owner bucket = P /\ exists b, own (buckets w) b = Some bucket).
  { intros bucket. unfold user_buckets.
    rewrite filter_In, String.eqb_eq, (values_own _ Hnd). tauto. }
  exists (user_buckets w P). split; [reflexivity|]. split; [|split].
  - assert (R0 : registry_ok env P init []) by (split; [constructor|reflexivity]).
    destruct (registry_serve Hids rs R0 ltac:(simpl; lia) Hs) as [R Hu].
    simpl in *. eapply user_buckets_outline; eauto.
  - exact M.
  - intros Hnone. destruct (user_buckets w P) as [|bucket l] eqn:E; [reflexivity|].
    exfalso. destruct (proj1 (M bucket) (or_introl eq_refl)) as [Ho [b Hb]].
    exact (Hnone b bucket Hb Ho).
Qed.

Lemma buckets_listed_in_creation_order_witness :
  exists listing,
    handle Demo.env Trial.shared (ListBuckets Demo.alice) =
      (Trial.shared, BucketList listing) /\
    map bucketId listing =
      created_by Demo.alice Demo.history (snd (serve Demo.env init Demo.history)) /\
    (forall bucket, In bucket listing <->
                    owner bucket = Demo.alice /\
                    exists b, own (buckets Trial.shared) b = Some bucket) /\
    ((forall b bucket, own (buckets Trial.shared) b = Some bucket ->
                       owner bucket <> Demo.alice) ->
     listing = []).
Proof.
  apply (@buckets_listed_in_creation_order
           Demo.env Demo.history Demo.alice Trial.shared
           (snd (serve Demo.env init Demo.history))).
  - split.
    + vm_compute. repeat constructor; simpl; intuition discriminate.
    + repeat (constructor; [split; vm_compute; reflexivity|]). constructor.
  - apply surjective_pairing.
Defined.

(** The list that Alice gets after [Demo.history]: her two buckets, the
    older first, and not the bucket of Bob. *)
Example alice_lists_her_buckets :
  snd (handle Demo.env Trial.shared (ListBuckets Demo.alice)) =
  BucketList
    [ {| bucketId := Demo.notes; name := "b1"; owner := Demo.alice;
         durability := "standard"; region := "us-east-1";
         bucket_createdAt := 1700000000001%Z; itemCount := 1 |};
      {| bucketId := "a8098c1a-f86e-41da-8b5c-3f2b1c4d5e6f"; name := "b3";
         owner := Demo.alice; durability := "absolute"; region := "us-east-1";
         bucket_createdAt := 1700000000004%Z; itemCount := 0 |} ]
  /\
  created_by Demo.alice Demo.history (snd (serve Demo.env init Demo.history)) =
    [ "6fa459ea-ee8a-4ca4-894e-db77e160355e";
      "a8098c1a-f86e-41da-8b5c-3f2b1c4d5e6f" ].
Proof. split; vm_compute; reflexivity. Qed.
